(** * turbo11: the oRPC user and post procedures over their in-memory stores

    A shallow embedding of [packages/orpc/src/procedures/user.ts] and
    [packages/orpc/src/procedures/post.ts] together with the schemas they
    use, and of the retrying [fetch] of [packages/orpc/src/client.ts],
    followed by the properties of the list / create / update / delete
    procedures and of that [fetch].

    Modelling conventions.
    - JavaScript strings are [string]s of ASCII text: [toLowerCase] maps
      [A-Z] to [a-z] and leaves every other character alone.
    - JavaScript numbers that the procedures compute with (page numbers,
      limits, counters, epoch milliseconds) are integers, held in [Z]; the
      quotient under [Math.ceil] is exact for them.
    - [new Date()] and [crypto.randomUUID()] are inputs of the procedure
      that calls them.
    - A handler is a function from the store to a result and the store it
      leaves behind; [throw] keeps the store as it is at that point.
    - A [Map] is the list of its entries in insertion order.
    - [Array.prototype.sort] is the engine's: the list procedures take it
      as a parameter, and the statements that depend on what it does
      say what they ask of it (that the sorted array is a rearrangement
      of the array; that elements which the comparator orders come out
      in that order).  The runs on sample stores use a sort by
      insertion.
    - The conversion of a string to a number, which [>] needs when it
      compares a string with [null], is a parameter of the list
      procedures too. *)

From Stdlib Require Import ZArith QArith List String Ascii Bool Lia.
From Stdlib Require Import Permutation Sorted DecimalString.
From Stdlib Require OrderedTypeEx.
Import ListNotations.

Local Open Scope string_scope.
Local Open Scope list_scope.
Local Open Scope Z_scope.

(* ================================================================== *)
(** ** The JavaScript primitives the procedures rely on *)

Module JS.

(** *** Strings *)

Definition lowerChar (c : ascii) : ascii :=
  let n := N_of_ascii c in
  if ((65 <=? n) && (n <=? 90))%N then ascii_of_N (n + 32) else c.

(** [String.prototype.toLowerCase] *)
Fixpoint toLowerCase (s : string) : string :=
  match s with
  | EmptyString => EmptyString
  | String c r => String (lowerChar c) (toLowerCase r)
  end.

(** [String.prototype.includes] *)
Fixpoint includes (s sub : string) : bool :=
  String.prefix sub s
  || match s with
     | EmptyString => false
     | String _ r => includes r sub
     end.

(** Truthiness of a string: every string but the empty one. *)
Definition truthy (s : string) : bool := negb (s =? "")%string.

(** Truthiness of [string | undefined] and of [string | null]. *)
Definition truthy_opt (o : option string) : bool :=
  match o with
  | Some s => truthy s
  | None => false
  end.

(** [a || b] where [a] is an optional string. *)
Definition or_else (o : option string) (d : string) : string :=
  if truthy_opt o then match o with Some s => s | None => d end else d.

(** [a || null] where [a] is an optional string. *)
Definition or_null (o : option string) : option string :=
  if truthy_opt o then o else None.

(** [Array.prototype.includes] on an array of strings. *)
Definition Array_includes (l : list string) (x : string) : bool :=
  existsb (fun y => (y =? x)%string) l.

(** *** Numbers, as far as [>] looks at them *)

Inductive Number : Type :=
| NaN
| NegInfinity
| Fin (q : Q)
| PosInfinity.

Definition ofZ (z : Z) : Number := Fin (inject_Z z).

(** [a > b] on numbers; every comparison with [NaN] is false. *)
Definition num_gt (a b : Number) : bool :=
  match a, b with
  | NaN, _ | _, NaN => false
  | NegInfinity, _ => false
  | _, PosInfinity => false
  | PosInfinity, _ => true
  | Fin _, NegInfinity => true
  | Fin x, Fin y => negb (Qle_bool x y)
  end.

(** *** Dates *)

(** A [Date] object: its time value in milliseconds, or an invalid date
    (what [new Date(val)] gives on a string that is no date). *)
Inductive Date : Type :=
| ValidDate (ms : Z)
| InvalidDate.

Definition valueOf (d : Date) : Number :=
  match d with
  | ValidDate ms => ofZ ms
  | InvalidDate => NaN
  end.

(** [a >= b] and [a <= b] on two [Date]s compare their time values. *)
Definition Date_ge (a b : Date) : bool :=
  match a, b with
  | ValidDate x, ValidDate y => y <=? x
  | _, _ => false
  end.

Definition Date_le (a b : Date) : bool :=
  match a, b with
  | ValidDate x, ValidDate y => x <=? y
  | _, _ => false
  end.

(** *** Property values and the relational operator *)

(** What [record[key]] can be for the records of the two stores. *)
Inductive Value : Type :=
| JUndefined
| JNull
| JBool (b : bool)
| JNumber (n : Number)
| JString (s : string)
| JDate (d : Date)
| JArray (l : list string).

Definition of_nullable (o : option string) : Value :=
  match o with
  | Some s => JString s
  | None => JNull
  end.

Definition of_optional (o : option string) : Value :=
  match o with
  | Some s => JString s
  | None => JUndefined
  end.

(** [ToPrimitive] with hint number: a date gives its time value, an
    array its elements joined by commas. *)
Definition ToPrimitive (v : Value) : Value :=
  match v with
  | JDate d => JNumber (valueOf d)
  | JArray l => JString (String.concat "," l)
  | _ => v
  end.

Section Relational.

(** [StringToNumber] of the language: the numeric value of a string
    literal, [NaN] when the string is not one. *)
Variable StringToNumber : string -> Number.

Definition ToNumber (v : Value) : Number :=
  match v with
  | JUndefined => NaN
  | JNull => ofZ 0
  | JBool b => ofZ (if b then 1 else 0)
  | JNumber n => n
  | JString s => StringToNumber s
  | JDate d => valueOf d
  | JArray _ => NaN
  end.

(** [a > b]: two strings compare by code units, anything else as
    numbers. *)
Definition gt (a b : Value) : bool :=
  match ToPrimitive a, ToPrimitive b with
  | JString x, JString y => String.ltb y x
  | pa, pb => num_gt (ToNumber pa) (ToNumber pb)
  end.

End Relational.

(** *** Arrays *)

(** [Array.prototype.slice(start, end)] with its clamping of both
    indices and its counting of negative ones from the end. *)
Definition Array_slice {A : Type} (start end_ : Z) (l : list A) : list A :=
  let len := Z.of_nat (List.length l) in
  let k := if start <? 0 then Z.max (len + start) 0 else Z.min start len in
  let final := if end_ <? 0 then Z.max (len + end_) 0 else Z.min end_ len in
  firstn (Z.to_nat (final - k)) (skipn (Z.to_nat k) l).

(** [Array.prototype.sort(comparefn)].  The language leaves the sequence
    of comparator calls to the engine, and with it the order in which an
    array comes out whose elements the comparator does not order.  The
    sort is therefore not fixed here: the procedures that sort take the
    engine's sort as [engine : ArraySort], and a statement that depends
    on what the sort does says what it asks of it ([rearranges],
    [sorts]). *)
Definition ArraySort : Type :=
  forall A : Type, (A -> A -> Z) -> list A -> list A.

Definition Array_sort (engine : ArraySort) {A : Type}
           (comparefn : A -> A -> Z) (l : list A) : list A :=
  engine A comparefn l.

(** The sorted array holds the elements of the array, each as often as
    before. *)
Definition rearranges (engine : ArraySort) : Prop :=
  forall (A : Type) (comparefn : A -> A -> Z) (l : list A),
    Permutation l (Array_sort engine comparefn l).

(** [comparefn] puts [x] strictly before [y]: it answers a negative
    number for [x] and [y], and none for [y] and [x]. *)
Definition precedes {A : Type} (comparefn : A -> A -> Z) (x y : A)
  : bool :=
  (comparefn x y <? 0) && negb (comparefn y x <? 0).

(** [comparefn] ranks the elements of [l]: what it puts strictly before
    is a strict weak order on them, that is, whenever it puts [x]
    strictly before [z], it puts [x] strictly before any [y], or that
    [y] strictly before [z].  Nothing is asked of its answers for two
    elements that it puts strictly before one another in neither
    direction, nor for an element and itself. *)
Definition ranks {A : Type} (comparefn : A -> A -> Z) (l : list A)
  : Prop :=
  forall x y z, In x l -> In y l -> In z l ->
                precedes comparefn x z = true ->
                precedes comparefn x y = true
                \/ precedes comparefn y z = true.

(** An array whose elements the comparator ranks comes out by rank: no
    element is put strictly before one that stands in front of it.  For
    a comparator that answers 0 on ties this is the order the language
    asks for; it is asked here also of a comparator that answers ties
    otherwise. *)
Definition sorts (engine : ArraySort) : Prop :=
  forall (A : Type) (comparefn : A -> A -> Z) (l : list A),
    ranks comparefn l ->
    StronglySorted (fun x y => precedes comparefn y x = false)
                   (Array_sort engine comparefn l).

(** One sort an engine may run, by insertion: each element, in array
    order, is placed in front of the first already placed element that
    it compares below ([comparefn x y < 0]). *)
Fixpoint sort_insert {A : Type} (comparefn : A -> A -> Z) (x : A)
         (placed : list A) : list A :=
  match placed with
  | [] => [x]
  | y :: r =>
      if comparefn x y <? 0 then x :: y :: r
      else y :: sort_insert comparefn x r
  end.

Definition insertion_sort : ArraySort :=
  fun A comparefn l =>
    fold_left (fun placed x => sort_insert comparefn x placed) l [].

(** [Math.ceil(a / b)] for an integer [a] and a positive integer [b]. *)
Definition Math_ceil_div (a b : Z) : Z := - ((- a) / b).

(** [String(n)] for a positive integer, in decimal digits. *)
Definition String_of_number (n : positive) : string :=
  NilEmpty.string_of_uint (Pos.to_uint n).

End JS.

(* ================================================================== *)
(** ** [Map<string, V>]: entries in insertion order *)

Module Map.

Definition t (V : Type) : Type := list (string * V).

Definition empty {V : Type} : t V := [].

Fixpoint get {V : Type} (k : string) (m : t V) : option V :=
  match m with
  | [] => None
  | (k', v) :: r => if (k' =? k)%string then Some v else get k r
  end.

(** [set] keeps the position of a key that is already there and appends
    a new one. *)
Fixpoint set {V : Type} (k : string) (v : V) (m : t V) : t V :=
  match m with
  | [] => [(k, v)]
  | (k', v') :: r =>
      if (k' =? k)%string then (k, v) :: r else (k', v') :: set k v r
  end.

Definition delete {V : Type} (k : string) (m : t V) : t V :=
  filter (fun e => negb (fst e =? k)%string) m.

Definition values {V : Type} (m : t V) : list V := map snd m.

Definition keys {V : Type} (m : t V) : list string := map fst m.

Definition size {V : Type} (m : t V) : Z := Z.of_nat (List.length m).

End Map.

(* ================================================================== *)
(** ** Handlers: a store threaded through code that may throw *)

Record Error : Type := mkError { message : string }.

Inductive Result (A : Type) : Type :=
| Ok (a : A)
| Thrown (e : Error).

Arguments Ok {A} a.
Arguments Thrown {A} e.

Definition Handler (S A : Type) : Type := S -> Result A * S.

Definition ret {S A : Type} (a : A) : Handler S A := fun s => (Ok a, s).

Definition throw {S A : Type} (msg : string) : Handler S A :=
  fun s => (Thrown (mkError msg), s).

Definition bind {S A B : Type} (m : Handler S A) (k : A -> Handler S B)
  : Handler S B :=
  fun s =>
    match m s with
    | (Ok a, s') => k a s'
    | (Thrown e, s') => (Thrown e, s')
    end.

Definition gets {S A : Type} (f : S -> A) : Handler S A :=
  fun s => (Ok (f s), s).

Definition modify {S : Type} (f : S -> S) : Handler S unit :=
  fun s => (Ok tt, f s).

Declare Scope handler_scope.
Delimit Scope handler_scope with handler.

Notation "x <- m ;; k" := (bind m (fun x => k))
  (at level 61, m at next level, right associativity) : handler_scope.
Notation "m ;; k" := (bind m (fun _ => k))
  (at level 61, right associativity) : handler_scope.

Local Open Scope handler_scope.

(* ================================================================== *)
(** ** schemas/common.ts *)

Module Common.

Inductive SortOrder : Type := asc | desc.

(** [PaginationInputSchema]; an absent key is [None]. *)
Module PaginationInput.
Record t : Type := mk {
  page : option Z;
  limit : option Z;
  sortBy : option string;
  sortOrder : option SortOrder
}.
(** The object [{}]. *)
Definition none : t := mk None None None None.
(** [page] is a positive integer, [limit] a positive integer of at
    most 100. *)
Definition valid (p : t) : bool :=
  match page p with Some n => 1 <=? n | None => true end
  && match limit p with
     | Some n => (1 <=? n) && (n <=? 100)
     | None => true
     end.
End PaginationInput.

(** [PaginationOutput<T>] *)
Module PaginationOutput.
Record t (T : Type) : Type := mk {
  data : list T;
  total : Z;
  page : Z;
  totalPages : Z;
  hasNextPage : bool;
  hasPreviousPage : bool
}.
Arguments mk {T}.
Arguments data {T}.
Arguments total {T}.
Arguments page {T}.
Arguments totalPages {T}.
Arguments hasNextPage {T}.
Arguments hasPreviousPage {T}.
End PaginationOutput.

(** [IdParamSchema]: a non-empty string or a positive integer. *)
Inductive IdValue : Type :=
| IdString (s : string)
| IdNumber (n : positive).

Module IdParam.
Record t : Type := mk { id : IdValue }.
End IdParam.

(** [String(input.id)] *)
Definition String_ (v : IdValue) : string :=
  match v with
  | IdString s => s
  | IdNumber n => JS.String_of_number n
  end.

(** [{ success: true }] *)
Module Ack.
Record t : Type := mk { success : bool }.
End Ack.

Definition defaulted {A : Type} (o : option A) (d : A) : A :=
  match o with
  | Some a => a
  | None => d
  end.

(** The comparator both list procedures hand to [sort]:
    [aVal > bVal ? order : -order] with [order] 1 for ['asc'], -1
    otherwise. *)
Definition sortComparator {T : Type} (StringToNumber : string -> JS.Number)
           (prop : T -> string -> JS.Value)
           (sortBy : string) (sortOrder : SortOrder) (a b : T) : Z :=
  let aVal := prop a sortBy in
  let bVal := prop b sortBy in
  let order := match sortOrder with asc => 1 | desc => -1 end in
  if JS.gt StringToNumber aVal bVal then order else - order.

End Common.

(* ================================================================== *)
(** ** schemas/user.ts *)

Module UserSchema.

Inductive UserRole : Type := admin | user | moderator.
Inductive UserStatus : Type := active | inactive | suspended.

Definition UserRole_eqb (a b : UserRole) : bool :=
  match a, b with
  | admin, admin | user, user | moderator, moderator => true
  | _, _ => false
  end.

Definition UserStatus_eqb (a b : UserStatus) : bool :=
  match a, b with
  | active, active | inactive, inactive | suspended, suspended => true
  | _, _ => false
  end.

Definition UserRole_str (r : UserRole) : string :=
  match r with
  | admin => "admin"
  | user => "user"
  | moderator => "moderator"
  end.

Definition UserStatus_str (s : UserStatus) : string :=
  match s with
  | active => "active"
  | inactive => "inactive"
  | suspended => "suspended"
  end.

(** [User]: [username] may be undefined, [avatar] may be null. *)
Module User.
Record t : Type := mk {
  id : string;
  email : string;
  name : string;
  username : option string;
  avatar : option string;
  role : UserRole;
  status : UserStatus;
  createdAt : JS.Date;
  updatedAt : JS.Date
}.

(** [u[key]] *)
Definition prop (u : t) (key : string) : JS.Value :=
  if (key =? "id")%string then JS.JString (id u)
  else if (key =? "email")%string then JS.JString (email u)
  else if (key =? "name")%string then JS.JString (name u)
  else if (key =? "username")%string then JS.of_optional (username u)
  else if (key =? "avatar")%string then JS.of_nullable (avatar u)
  else if (key =? "role")%string then JS.JString (UserRole_str (role u))
  else if (key =? "status")%string
       then JS.JString (UserStatus_str (status u))
  else if (key =? "createdAt")%string then JS.JDate (createdAt u)
  else if (key =? "updatedAt")%string then JS.JDate (updatedAt u)
  else JS.JUndefined.
End User.

Module CreateUserInput.
Record t : Type := mk {
  email : string;
  password : string;
  name : string;
  username : option string;
  avatar : option string;
  role : option UserRole
}.
End CreateUserInput.

Module UpdateUserInput.
Record t : Type := mk {
  email : option string;
  name : option string;
  username : option string;
  avatar : option (option string);
  role : option UserRole;
  status : option UserStatus
}.
(** The object [{}]. *)
Definition none : t := mk None None None None None None.
End UpdateUserInput.

(** The class [[a-zA-Z0-9_-]] of the username pattern. *)
Definition usernameChar (c : ascii) : bool :=
  let n := N_of_ascii c in
  (((97 <=? n) && (n <=? 122)) || ((65 <=? n) && (n <=? 90))
   || ((48 <=? n) && (n <=? 57)) || (n =? 95) || (n =? 45))%N.

Fixpoint all_usernameChars (s : string) : bool :=
  match s with
  | EmptyString => true
  | String c r => usernameChar c && all_usernameChars r
  end.

(** [z.string().min(3).max(30).regex(/^[a-zA-Z0-9_-]+$/).optional()] *)
Definition username_ok (o : option string) : bool :=
  match o with
  | Some s =>
      ((3 <=? String.length s) && (String.length s <=? 30))%nat
      && all_usernameChars s
  | None => true
  end.

Module UserFilters.
Record t : Type := mk {
  search : option string;
  role : option UserRole;
  status : option UserStatus;
  createdAfter : option JS.Date;
  createdBefore : option JS.Date
}.
Definition none : t := mk None None None None None.
End UserFilters.

(** The object the read procedures return for a user. *)
Module PublicUser.
Record t : Type := mk {
  id : string;
  name : string;
  username : option string;
  avatar : option string;
  role : UserRole;
  createdAt : JS.Date;
  updatedAt : JS.Date
}.
End PublicUser.

End UserSchema.

(* ================================================================== *)
(** ** procedures/user.ts *)

Module UserProcedures.
Import Common UserSchema.

Definition Store : Type := Map.t User.t.

Definition createMockUser (uuid : string) (now : JS.Date)
           (input : CreateUserInput.t) : Handler Store User.t :=
  let u :=
    User.mk uuid
            (CreateUserInput.email input)
            (CreateUserInput.name input)
            (CreateUserInput.username input)
            (JS.or_null (CreateUserInput.avatar input))
            (defaulted (CreateUserInput.role input) UserSchema.user)
            active
            now
            now in
  modify (Map.set (User.id u) u) ;;
  ret u.

(** The two users the module creates when it is loaded. *)
Definition seed (uuid1 : string) (now1 : JS.Date)
           (uuid2 : string) (now2 : JS.Date) : Handler Store unit :=
  size <- gets Map.size ;;
  if size =? 0 then
    createMockUser uuid1 now1
      (CreateUserInput.mk "admin@example.com" "Admin123!" "Admin User"
                          (Some "admin") None (Some admin)) ;;
    createMockUser uuid2 now2
      (CreateUserInput.mk "john@example.com" "User123!" "John Doe"
                          (Some "johndoe") None None) ;;
    ret tt
  else ret tt.

Definition publicUser (u : User.t) : PublicUser.t :=
  PublicUser.mk (User.id u) (User.name u) (User.username u)
                (User.avatar u) (User.role u)
                (User.createdAt u) (User.updatedAt u).

Definition getUser (input : IdParam.t) : Handler Store PublicUser.t :=
  found <- gets (Map.get (String_ (IdParam.id input))) ;;
  match found with
  | None => throw "User not found"
  | Some u => ret (publicUser u)
  end.

(** [null] is [None]. *)
Definition getUserByEmail (email : string)
  : Handler Store (option PublicUser.t) :=
  found <- gets (fun st =>
                   find (fun u => (User.email u =? email)%string)
                        (Map.values st)) ;;
  match found with
  | None => ret None
  | Some u => ret (Some (publicUser u))
  end.

Module ListInput.
Record t : Type := mk {
  pagination : option PaginationInput.t;
  filters : option UserFilters.t
}.
End ListInput.

Definition has_username (u : User.t) (name : string) : bool :=
  match User.username u with
  | Some s => (s =? name)%string
  | None => false
  end.

(** The filter section of [listUsers]. *)
Definition applyFilters (filters : UserFilters.t) (users : list User.t)
  : list User.t :=
  let users :=
    if JS.truthy_opt (UserFilters.search filters) then
      let search :=
        JS.toLowerCase (defaulted (UserFilters.search filters) "") in
      filter (fun u =>
                JS.includes (JS.toLowerCase (User.name u)) search
                || JS.includes (JS.toLowerCase (User.email u)) search
                || (JS.truthy_opt (User.username u)
                    && JS.includes
                         (JS.toLowerCase (defaulted (User.username u) ""))
                         search))
             users
    else users in
  let users :=
    match UserFilters.role filters with
    | Some r => filter (fun u => UserRole_eqb (User.role u) r) users
    | None => users
    end in
  let users :=
    match UserFilters.status filters with
    | Some s => filter (fun u => UserStatus_eqb (User.status u) s) users
    | None => users
    end in
  let users :=
    match UserFilters.createdAfter filters with
    | Some d => filter (fun u => JS.Date_ge (User.createdAt u) d) users
    | None => users
    end in
  let users :=
    match UserFilters.createdBefore filters with
    | Some d => filter (fun u => JS.Date_le (User.createdAt u) d) users
    | None => users
    end in
  users.

Section List.
(** The engine's [Array.prototype.sort] and the language's
    [StringToNumber]. *)
Variable engine : JS.ArraySort.
Variable StringToNumber : string -> JS.Number.

Definition listUsers (input : ListInput.t)
  : Handler Store (PaginationOutput.t PublicUser.t) :=
  let pagination :=
    defaulted (ListInput.pagination input) PaginationInput.none in
  let filters := defaulted (ListInput.filters input) UserFilters.none in
  let page := defaulted (PaginationInput.page pagination) 1 in
  let limit := defaulted (PaginationInput.limit pagination) 20 in
  let sortBy :=
    defaulted (PaginationInput.sortBy pagination) "createdAt" in
  let sortOrder :=
    defaulted (PaginationInput.sortOrder pagination) desc in
  users <- gets Map.values ;;
  let users := applyFilters filters users in
  let users :=
    JS.Array_sort
      engine (sortComparator StringToNumber User.prop sortBy sortOrder)
      users in
  let total := Z.of_nat (List.length users) in
  let totalPages := JS.Math_ceil_div total limit in
  let start := (page - 1) * limit in
  let paginatedUsers := JS.Array_slice start (start + limit) users in
  let publicUsers := map publicUser paginatedUsers in
  ret (PaginationOutput.mk publicUsers total page totalPages
                           (page <? totalPages) (1 <? page)).
End List.

Definition createUser (uuid : string) (now : JS.Date)
           (input : CreateUserInput.t) : Handler Store User.t :=
  existingUser <-
    gets (fun st =>
            find (fun u =>
                    (User.email u =? CreateUserInput.email input)%string)
                 (Map.values st)) ;;
  match existingUser with
  | Some _ => throw "Email already exists"
  | None =>
      existingUsername <-
        gets (fun st =>
                if JS.truthy_opt (CreateUserInput.username input) then
                  find (fun u =>
                          has_username u
                            (defaulted (CreateUserInput.username input) ""))
                       (Map.values st)
                else None) ;;
      match existingUsername with
      | Some _ => throw "Username already taken"
      | None => createMockUser uuid now input
      end
  end.

Module UpdateInput.
Record t : Type := mk {
  id : string;
  data : UpdateUserInput.t
}.
End UpdateInput.

(** The test [input.data.email && input.data.email !== user.email]. *)
Definition changesEmail (data : UpdateUserInput.t) (u : User.t) : bool :=
  JS.truthy_opt (UpdateUserInput.email data)
  && negb (defaulted (UpdateUserInput.email data) "" =? User.email u)%string.

(** The test [input.data.username && input.data.username !== user.username];
    a user without username has [undefined] there. *)
Definition changesUsername (data : UpdateUserInput.t) (u : User.t) : bool :=
  JS.truthy_opt (UpdateUserInput.username data)
  && negb (has_username u (defaulted (UpdateUserInput.username data) "")).

(** [{ ...user, ...data, updatedAt }] *)
Definition merge (u : User.t) (data : UpdateUserInput.t)
           (updatedAt : JS.Date) : User.t :=
  User.mk (User.id u)
          (defaulted (UpdateUserInput.email data) (User.email u))
          (defaulted (UpdateUserInput.name data) (User.name u))
          (match UpdateUserInput.username data with
           | Some s => Some s
           | None => User.username u
           end)
          (defaulted (UpdateUserInput.avatar data) (User.avatar u))
          (defaulted (UpdateUserInput.role data) (User.role u))
          (defaulted (UpdateUserInput.status data) (User.status u))
          (User.createdAt u)
          updatedAt.

Definition updateUser (now : JS.Date) (input : UpdateInput.t)
  : Handler Store User.t :=
  found <- gets (Map.get (UpdateInput.id input)) ;;
  match found with
  | None => throw "User not found"
  | Some u =>
      let data := UpdateInput.data input in
      existingUser <-
        gets (fun st =>
                if changesEmail data u then
                  find (fun v =>
                          (User.email v
                           =? defaulted (UpdateUserInput.email data) "")
                            %string)
                       (Map.values st)
                else None) ;;
      match existingUser with
      | Some _ => throw "Email already exists"
      | None =>
          existingUsername <-
            gets (fun st =>
                    if changesUsername data u then
                      find (fun v =>
                              has_username
                                v
                                (defaulted (UpdateUserInput.username data)
                                           ""))
                           (Map.values st)
                    else None) ;;
          match existingUsername with
          | Some _ => throw "Username already taken"
          | None =>
              let updatedUser := merge u data now in
              modify (Map.set (UpdateInput.id input) updatedUser) ;;
              ret updatedUser
          end
      end
  end.

Definition deleteUser (input : IdParam.t) : Handler Store Ack.t :=
  found <- gets (Map.get (String_ (IdParam.id input))) ;;
  match found with
  | None => throw "User not found"
  | Some _ =>
      modify (Map.delete (String_ (IdParam.id input))) ;;
      ret (Ack.mk true)
  end.

End UserProcedures.

(* ================================================================== *)
(** ** schemas/post.ts *)

Module PostSchema.

Inductive PostStatus : Type := draft | published | archived.

Inductive PostCategory : Type :=
| technology | business | health | science
| entertainment | sports | politics | other.

Definition PostStatus_eqb (a b : PostStatus) : bool :=
  match a, b with
  | draft, draft | published, published | archived, archived => true
  | _, _ => false
  end.

Definition PostStatus_str (s : PostStatus) : string :=
  match s with
  | draft => "draft"
  | published => "published"
  | archived => "archived"
  end.

Definition PostCategory_str (c : PostCategory) : string :=
  match c with
  | technology => "technology"
  | business => "business"
  | health => "health"
  | science => "science"
  | entertainment => "entertainment"
  | sports => "sports"
  | politics => "politics"
  | other => "other"
  end.

Definition PostCategory_eqb (a b : PostCategory) : bool :=
  (PostCategory_str a =? PostCategory_str b)%string.

(** [Post]: [excerpt], [featuredImage] and [publishedAt] may be null. *)
Module Post.
Record t : Type := mk {
  id : string;
  title : string;
  slug : string;
  content : string;
  excerpt : option string;
  authorId : string;
  status : PostStatus;
  category : PostCategory;
  tags : list string;
  featuredImage : option string;
  published : bool;
  publishedAt : option JS.Date;
  viewCount : Z;
  createdAt : JS.Date;
  updatedAt : JS.Date
}.

(** [p[key]] *)
Definition prop (p : t) (key : string) : JS.Value :=
  if (key =? "id")%string then JS.JString (id p)
  else if (key =? "title")%string then JS.JString (title p)
  else if (key =? "slug")%string then JS.JString (slug p)
  else if (key =? "content")%string then JS.JString (content p)
  else if (key =? "excerpt")%string then JS.of_nullable (excerpt p)
  else if (key =? "authorId")%string then JS.JString (authorId p)
  else if (key =? "status")%string
       then JS.JString (PostStatus_str (status p))
  else if (key =? "category")%string
       then JS.JString (PostCategory_str (category p))
  else if (key =? "tags")%string then JS.JArray (tags p)
  else if (key =? "featuredImage")%string
       then JS.of_nullable (featuredImage p)
  else if (key =? "published")%string then JS.JBool (published p)
  else if (key =? "publishedAt")%string
       then match publishedAt p with
            | Some d => JS.JDate d
            | None => JS.JNull
            end
  else if (key =? "viewCount")%string
       then JS.JNumber (JS.ofZ (viewCount p))
  else if (key =? "createdAt")%string then JS.JDate (createdAt p)
  else if (key =? "updatedAt")%string then JS.JDate (updatedAt p)
  else JS.JUndefined.
End Post.

Module CreatePostInput.
Record t : Type := mk {
  title : string;
  slug : option string;
  content : string;
  excerpt : option string;
  category : option PostCategory;
  tags : option (list string);
  featuredImage : option string;
  status : option PostStatus;
  published : option bool
}.

Definition slugChar (c : ascii) : bool :=
  let n := N_of_ascii c in
  (((97 <=? n) && (n <=? 122)) || ((48 <=? n) && (n <=? 57))
   || (n =? 45))%N.

Fixpoint all_chars (f : ascii -> bool) (s : string) : bool :=
  match s with
  | EmptyString => true
  | String c r => f c && all_chars f r
  end.

Definition length_between (lo hi : nat) (s : string) : bool :=
  ((lo <=? String.length s) && (String.length s <=? hi))%nat.

(** The constraints of [CreatePostInputSchema] on lengths and on the
    shape of a custom slug.  (That [featuredImage] is a URL is left to
    the validation library.) *)
Definition valid (i : t) : bool :=
  length_between 3 200 (title i)
  && match slug i with
     | Some s =>
         length_between 3 200 s && all_chars slugChar s
     | None => true
     end
  && (10 <=? String.length (content i))%nat
  && match excerpt i with
     | Some e => (String.length e <=? 500)%nat
     | None => true
     end
  && match tags i with
     | Some l => forallb (length_between 1 50) l
     | None => true
     end.
End CreatePostInput.

Module UpdatePostInput.
Record t : Type := mk {
  title : option string;
  slug : option string;
  content : option string;
  excerpt : option (option string);
  category : option PostCategory;
  tags : option (list string);
  featuredImage : option (option string);
  status : option PostStatus;
  published : option bool
}.
(** The object [{ published: true }]. *)
Definition publish : t :=
  mk None None None None None None None None (Some true).
(** The constraints of [UpdatePostInputSchema] on lengths and on the
    shape of a new slug.  (That [featuredImage] is a URL is left to the
    validation library.) *)
Definition valid (i : t) : bool :=
  match title i with
  | Some s => CreatePostInput.length_between 3 200 s
  | None => true
  end
  && match slug i with
     | Some s =>
         CreatePostInput.length_between 3 200 s
         && CreatePostInput.all_chars CreatePostInput.slugChar s
     | None => true
     end
  && match content i with
     | Some s => (10 <=? String.length s)%nat
     | None => true
     end
  && match excerpt i with
     | Some (Some e) => (String.length e <=? 500)%nat
     | _ => true
     end
  && match tags i with
     | Some l => forallb (CreatePostInput.length_between 1 50) l
     | None => true
     end.
End UpdatePostInput.

Module PostFilters.
Record t : Type := mk {
  search : option string;
  authorId : option string;
  status : option PostStatus;
  category : option PostCategory;
  tags : option (list string);
  published : option bool;
  publishedAfter : option JS.Date;
  publishedBefore : option JS.Date
}.
Definition none : t := mk None None None None None None None None.
End PostFilters.

Module Author.
Record t : Type := mk {
  id : string;
  name : string;
  avatar : option string
}.
End Author.

(** The object the read procedures return for a post: neither [status]
    nor [viewCount] is part of it. *)
Module PublicPost.
Record t : Type := mk {
  id : string;
  title : string;
  slug : string;
  content : string;
  excerpt : option string;
  authorId : string;
  category : PostCategory;
  tags : list string;
  featuredImage : option string;
  published : bool;
  publishedAt : option JS.Date;
  createdAt : JS.Date;
  updatedAt : JS.Date;
  author : Author.t
}.
End PublicPost.

(** [PostStatsSchema].  [averageViewsPerPost] holds the quotient itself;
    the number the procedure returns is that quotient rounded to a
    double. *)
Module PostStats.
Record t : Type := mk {
  totalPosts : Z;
  publishedPosts : Z;
  draftPosts : Z;
  totalViews : Z;
  averageViewsPerPost : Q
}.
End PostStats.

End PostSchema.

(* ================================================================== *)
(** ** procedures/post.ts *)

Module PostProcedures.
Import Common PostSchema.

Definition Store : Type := Map.t Post.t.

(** The class [[a-z0-9]]. *)
Definition isLowerAlnum (c : ascii) : bool :=
  let n := N_of_ascii c in
  (((97 <=? n) && (n <=? 122)) || ((48 <=? n) && (n <=? 57)))%N.

Definition isHyphen (c : ascii) : bool := (c =? "-")%char.

(** [.replace(/[^a-z0-9]+/g, '-')]: [inMatch] tells that the character
    before belongs to the match that is being replaced. *)
Fixpoint replaceNonAlnumRuns (inMatch : bool) (s : string) : string :=
  match s with
  | EmptyString => EmptyString
  | String c r =>
      if isLowerAlnum c then String c (replaceNonAlnumRuns false r)
      else if inMatch then replaceNonAlnumRuns true r
      else String "-" (replaceNonAlnumRuns true r)
  end.

(** The [^-+] alternative of [.replace(/^-+|-+$/g, '')]. *)
Fixpoint stripLeadingHyphens (s : string) : string :=
  match s with
  | EmptyString => EmptyString
  | String c r => if isHyphen c then stripLeadingHyphens r else s
  end.

(** The [-+$] alternative. *)
Fixpoint stripTrailingHyphens (s : string) : string :=
  match s with
  | EmptyString => EmptyString
  | String c r =>
      match stripTrailingHyphens r with
      | EmptyString => if isHyphen c then EmptyString else String c EmptyString
      | r' => String c r'
      end
  end.

Definition generateSlug (title : string) : string :=
  stripTrailingHyphens
    (stripLeadingHyphens
       (replaceNonAlnumRuns false (JS.toLowerCase title))).

(** [input] is the create input, [authorId] the property added to it. *)
Definition createMockPost (uuid : string) (now : JS.Date)
           (input : CreatePostInput.t) (authorId : string)
  : Handler Store Post.t :=
  let post :=
    Post.mk uuid
            (CreatePostInput.title input)
            (JS.or_else (CreatePostInput.slug input)
                        (generateSlug (CreatePostInput.title input)))
            (CreatePostInput.content input)
            (Some (JS.or_else
                     (CreatePostInput.excerpt input)
                     (String.substring 0 200 (CreatePostInput.content input)
                      ++ "...")%string))
            authorId
            (defaulted (CreatePostInput.status input) draft)
            (defaulted (CreatePostInput.category input) other)
            (defaulted (CreatePostInput.tags input) [])
            (JS.or_null (CreatePostInput.featuredImage input))
            (defaulted (CreatePostInput.published input) false)
            (if defaulted (CreatePostInput.published input) false
             then Some now else None)
            0
            now
            now in
  modify (Map.set (Post.id post) post) ;;
  ret post.

(** The two posts the module creates when it is loaded. *)
Definition seed (uuid1 author1 : string) (now1 : JS.Date)
           (uuid2 author2 : string) (now2 : JS.Date)
  : Handler Store unit :=
  size <- gets Map.size ;;
  if size =? 0 then
    createMockPost uuid1 now1
      (CreatePostInput.mk
         "Getting Started with ORPC" None
         "ORPC is a powerful RPC framework for TypeScript..."
         (Some "Learn how to get started with ORPC")
         (Some technology) (Some ["orpc"; "typescript"; "rpc"])
         None None (Some true))
      author1 ;;
    createMockPost uuid2 now2
      (CreatePostInput.mk
         "Building Type-Safe APIs" None
         "Type safety is crucial for modern web development..."
         None
         (Some technology) (Some ["typescript"; "api"; "type-safety"])
         None (Some draft) None)
      author2 ;;
    ret tt
  else ret tt.

Definition publicPost (p : Post.t) : PublicPost.t :=
  PublicPost.mk (Post.id p) (Post.title p) (Post.slug p) (Post.content p)
                (Post.excerpt p) (Post.authorId p) (Post.category p)
                (Post.tags p) (Post.featuredImage p) (Post.published p)
                (Post.publishedAt p) (Post.createdAt p) (Post.updatedAt p)
                (Author.mk (Post.authorId p) "John Doe" None).

Definition with_viewCount (p : Post.t) (n : Z) : Post.t :=
  Post.mk (Post.id p) (Post.title p) (Post.slug p) (Post.content p)
          (Post.excerpt p) (Post.authorId p) (Post.status p)
          (Post.category p) (Post.tags p) (Post.featuredImage p)
          (Post.published p) (Post.publishedAt p) n
          (Post.createdAt p) (Post.updatedAt p).

(** [post.viewCount += 1] changes the object the store holds under the
    key that was looked up; [mockPosts.set(post.id, post)] then stores
    it under its own id. *)
Definition getPost (input : IdParam.t) : Handler Store PublicPost.t :=
  found <- gets (Map.get (String_ (IdParam.id input))) ;;
  match found with
  | None => throw "Post not found"
  | Some post =>
      let post := with_viewCount post (Post.viewCount post + 1) in
      modify (Map.set (String_ (IdParam.id input)) post) ;;
      modify (Map.set (Post.id post) post) ;;
      ret (publicPost post)
  end.

Module ListInput.
Record t : Type := mk {
  pagination : option PaginationInput.t;
  filters : option PostFilters.t
}.
End ListInput.

Definition publishedAt_ge (p : Post.t) (d : JS.Date) : bool :=
  match Post.publishedAt p with
  | Some at_ => JS.Date_ge at_ d
  | None => false
  end.

Definition publishedAt_le (p : Post.t) (d : JS.Date) : bool :=
  match Post.publishedAt p with
  | Some at_ => JS.Date_le at_ d
  | None => false
  end.

(** The filter section of [listPosts]. *)
Definition applyFilters (filters : PostFilters.t) (posts : list Post.t)
  : list Post.t :=
  let posts :=
    if JS.truthy_opt (PostFilters.search filters) then
      let search :=
        JS.toLowerCase (defaulted (PostFilters.search filters) "") in
      filter (fun p =>
                JS.includes (JS.toLowerCase (Post.title p)) search
                || JS.includes (JS.toLowerCase (Post.content p)) search
                || (JS.truthy_opt (Post.excerpt p)
                    && JS.includes
                         (JS.toLowerCase (defaulted (Post.excerpt p) ""))
                         search))
             posts
    else posts in
  let posts :=
    if JS.truthy_opt (PostFilters.authorId filters) then
      filter (fun p =>
                (Post.authorId p
                 =? defaulted (PostFilters.authorId filters) "")%string)
             posts
    else posts in
  let posts :=
    match PostFilters.status filters with
    | Some s => filter (fun p => PostStatus_eqb (Post.status p) s) posts
    | None => posts
    end in
  let posts :=
    match PostFilters.category filters with
    | Some c => filter (fun p => PostCategory_eqb (Post.category p) c) posts
    | None => posts
    end in
  let posts :=
    match PostFilters.tags filters with
    | Some (tag :: more) =>
        filter (fun p =>
                  existsb (fun tag => JS.Array_includes (Post.tags p) tag)
                          (tag :: more))
               posts
    | _ => posts
    end in
  let posts :=
    match PostFilters.published filters with
    | Some b => filter (fun p => Bool.eqb (Post.published p) b) posts
    | None => posts
    end in
  let posts :=
    match PostFilters.publishedAfter filters with
    | Some d => filter (fun p => publishedAt_ge p d) posts
    | None => posts
    end in
  let posts :=
    match PostFilters.publishedBefore filters with
    | Some d => filter (fun p => publishedAt_le p d) posts
    | None => posts
    end in
  posts.

Section List.
(** The engine's [Array.prototype.sort] and the language's
    [StringToNumber]. *)
Variable engine : JS.ArraySort.
Variable StringToNumber : string -> JS.Number.

Definition listPosts (input : ListInput.t)
  : Handler Store (PaginationOutput.t PublicPost.t) :=
  let pagination :=
    defaulted (ListInput.pagination input) PaginationInput.none in
  let filters := defaulted (ListInput.filters input) PostFilters.none in
  let page := defaulted (PaginationInput.page pagination) 1 in
  let limit := defaulted (PaginationInput.limit pagination) 20 in
  let sortBy :=
    defaulted (PaginationInput.sortBy pagination) "createdAt" in
  let sortOrder :=
    defaulted (PaginationInput.sortOrder pagination) desc in
  posts <- gets Map.values ;;
  let posts := applyFilters filters posts in
  let posts :=
    JS.Array_sort
      engine (sortComparator StringToNumber Post.prop sortBy sortOrder)
      posts in
  let total := Z.of_nat (List.length posts) in
  let totalPages := JS.Math_ceil_div total limit in
  let start := (page - 1) * limit in
  let paginatedPosts := JS.Array_slice start (start + limit) posts in
  let publicPosts := map publicPost paginatedPosts in
  ret (PaginationOutput.mk publicPosts total page totalPages
                           (page <? totalPages) (1 <? page)).
End List.

(** [uuid] names the post, [authorUuid] its mock author. *)
Definition createPost (uuid authorUuid : string) (now : JS.Date)
           (input : CreatePostInput.t) : Handler Store Post.t :=
  existingPost <-
    gets (fun st =>
            if JS.truthy_opt (CreatePostInput.slug input) then
              find (fun p =>
                      (Post.slug p
                       =? defaulted (CreatePostInput.slug input) "")%string)
                   (Map.values st)
            else None) ;;
  match existingPost with
  | Some _ => throw "Slug already exists"
  | None => createMockPost uuid now input authorUuid
  end.

Module UpdateInput.
Record t : Type := mk {
  id : string;
  data : UpdatePostInput.t
}.
End UpdateInput.

(** [{ ...post, ...data, updatedAt, publishedAt }] *)
Definition merge (post : Post.t) (data : UpdatePostInput.t)
           (updatedAt : JS.Date) (publishedAt : option JS.Date) : Post.t :=
  Post.mk (Post.id post)
          (defaulted (UpdatePostInput.title data) (Post.title post))
          (defaulted (UpdatePostInput.slug data) (Post.slug post))
          (defaulted (UpdatePostInput.content data) (Post.content post))
          (defaulted (UpdatePostInput.excerpt data) (Post.excerpt post))
          (Post.authorId post)
          (defaulted (UpdatePostInput.status data) (Post.status post))
          (defaulted (UpdatePostInput.category data) (Post.category post))
          (defaulted (UpdatePostInput.tags data) (Post.tags post))
          (defaulted (UpdatePostInput.featuredImage data)
                     (Post.featuredImage post))
          (defaulted (UpdatePostInput.published data) (Post.published post))
          publishedAt
          (Post.viewCount post)
          (Post.createdAt post)
          updatedAt.

(** The test [input.data.slug && input.data.slug !== post.slug]. *)
Definition changesSlug (data : UpdatePostInput.t) (post : Post.t) : bool :=
  JS.truthy_opt (UpdatePostInput.slug data)
  && negb (defaulted (UpdatePostInput.slug data) "" =? Post.slug post)%string.

Definition updatePost (now : JS.Date) (input : UpdateInput.t)
  : Handler Store Post.t :=
  found <- gets (Map.get (UpdateInput.id input)) ;;
  match found with
  | None => throw "Post not found"
  | Some post =>
      let data := UpdateInput.data input in
      existingPost <-
        gets (fun st =>
                if changesSlug data post then
                  find (fun p =>
                          (Post.slug p
                           =? defaulted (UpdatePostInput.slug data) "")
                            %string)
                       (Map.values st)
                else None) ;;
      match existingPost with
      | Some _ => throw "Slug already exists"
      | None =>
          let updatedPost :=
            merge post data now
                  (if defaulted (UpdatePostInput.published data) false
                      && negb (Post.published post)
                   then Some now else Post.publishedAt post) in
          modify (Map.set (UpdateInput.id input) updatedPost) ;;
          ret updatedPost
      end
  end.

Definition deletePost (input : IdParam.t) : Handler Store Ack.t :=
  found <- gets (Map.get (String_ (IdParam.id input))) ;;
  match found with
  | None => throw "Post not found"
  | Some _ =>
      modify (Map.delete (String_ (IdParam.id input))) ;;
      ret (Ack.mk true)
  end.

Module PublishInput.
Record t : Type := mk {
  id : string;
  published : bool
}.
End PublishInput.

Definition publishPost (now : JS.Date) (input : PublishInput.t)
  : Handler Store Post.t :=
  found <- gets (Map.get (PublishInput.id input)) ;;
  match found with
  | None => throw "Post not found"
  | Some post =>
      let updatedPost :=
        Post.mk (Post.id post) (Post.title post) (Post.slug post)
                (Post.content post) (Post.excerpt post)
                (Post.authorId post)
                (if PublishInput.published input then PostSchema.published
                 else draft)
                (Post.category post) (Post.tags post)
                (Post.featuredImage post)
                (PublishInput.published input)
                (if PublishInput.published input then
                   match Post.publishedAt post with
                   | Some at_ => Some at_
                   | None => Some now
                   end
                 else Post.publishedAt post)
                (Post.viewCount post)
                (Post.createdAt post)
                now in
      modify (Map.set (PublishInput.id input) updatedPost) ;;
      ret updatedPost
  end.

(** [posts.reduce((sum, p) => sum + p.viewCount, 0)] *)
Definition sumViews (posts : list Post.t) : Z :=
  fold_left (fun sum p => sum + Post.viewCount p) posts 0.

Definition getPostStats (authorId : option string)
  : Handler Store PostStats.t :=
  posts <- gets Map.values ;;
  let posts :=
    if JS.truthy_opt authorId then
      filter (fun p => (Post.authorId p =? defaulted authorId "")%string)
             posts
    else posts in
  let totalPosts := Z.of_nat (List.length posts) in
  let publishedPosts :=
    Z.of_nat (List.length (filter (fun p => Post.published p) posts)) in
  let draftPosts :=
    Z.of_nat
      (List.length
         (filter (fun p => PostStatus_eqb (Post.status p) draft) posts)) in
  let totalViews := sumViews posts in
  let averageViewsPerPost :=
    if 0 <? totalPosts
    then (inject_Z totalViews / inject_Z totalPosts)%Q
    else 0%Q in
  ret (PostStats.mk totalPosts publishedPosts draftPosts totalViews
                    averageViewsPerPost).

End PostProcedures.

(* ================================================================== *)
(** ** Store states, calls and what the specification says in words *)

Module PostStore.
Import Common PostSchema PostProcedures.

(** Every post is stored under its own id. *)
Definition keyed_by_id (st : Store) : Prop :=
  Forall (fun e => fst e = Post.id (snd e)) st.

(** No two posts of the store carry the same slug. *)
Definition slugs_unique (st : Store) : Prop :=
  NoDup (map Post.slug (Map.values st)).

(** One call of a procedure that writes to the post store, with the
    identifiers and the clock reading it draws. *)
Inductive Call : Type :=
| CallGet (input : IdParam.t)
| CallCreate (uuid authorUuid : string) (now : JS.Date)
             (input : CreatePostInput.t)
| CallUpdate (now : JS.Date) (input : UpdateInput.t)
| CallDelete (input : IdParam.t)
| CallPublish (now : JS.Date) (input : PublishInput.t).

(** The store a call leaves behind, whether it returns or throws. *)
Definition after (c : Call) (st : Store) : Store :=
  match c with
  | CallGet input => snd (getPost input st)
  | CallCreate uuid authorUuid now input =>
      snd (createPost uuid authorUuid now input st)
  | CallUpdate now input => snd (updatePost now input st)
  | CallDelete input => snd (deletePost input st)
  | CallPublish now input => snd (publishPost now input st)
  end.

(** What the validation in front of the handler lets through. *)
Definition accepted (c : Call) : bool :=
  match c with
  | CallCreate _ _ _ input => CreatePostInput.valid input
  | _ => true
  end.

(** The stores the module can be in: the seeded one, and whatever a
    sequence of accepted calls makes of it. *)
Inductive reachable : Store -> Prop :=
| reachable_seed (uuid1 author1 : string) (now1 : JS.Date)
                 (uuid2 author2 : string) (now2 : JS.Date) :
    reachable (snd (seed uuid1 author1 now1 uuid2 author2 now2 Map.empty))
| reachable_call (c : Call) (st : Store) :
    reachable st -> accepted c = true -> reachable (after c st).

End PostStore.

Module SlugSpec.

(** The slug rule as the specification words it, on the characters of
    the title: lower-case the title, replace every run of
    non-alphanumeric characters with a single hyphen, strip leading and
    trailing hyphens. *)

Definition isAlphanumeric (c : ascii) : bool :=
  let n := N_of_ascii c in
  (((48 <=? n) && (n <=? 57)) || ((65 <=? n) && (n <=? 90))
   || ((97 <=? n) && (n <=? 122)))%N.

Definition lowerCase (l : list ascii) : list ascii := map JS.lowerChar l.

(** A run is replaced when its last character is reached. *)
Fixpoint hyphenateRuns (l : list ascii) : list ascii :=
  match l with
  | [] => []
  | c :: r =>
      if isAlphanumeric c then c :: hyphenateRuns r
      else match r with
           | [] => ["-"%char]
           | c' :: _ =>
               if isAlphanumeric c' then "-"%char :: hyphenateRuns r
               else hyphenateRuns r
           end
  end.

Fixpoint dropHyphens (l : list ascii) : list ascii :=
  match l with
  | [] => []
  | c :: r => if (c =? "-")%char then dropHyphens r else l
  end.

Definition stripHyphens (l : list ascii) : list ascii :=
  rev (dropHyphens (rev (dropHyphens l))).

Definition slug_of_title (title : string) : string :=
  string_of_list_ascii
    (stripHyphens (hyphenateRuns (lowerCase (list_ascii_of_string title)))).

End SlugSpec.

(* ================================================================== *)
(** ** The public records, field by field *)

Module PublicView.

(** [r] shows the public fields of the user [u]. *)
Definition of_user (u : UserSchema.User.t) (r : UserSchema.PublicUser.t)
  : Prop :=
  UserSchema.PublicUser.id r = UserSchema.User.id u
  /\ UserSchema.PublicUser.name r = UserSchema.User.name u
  /\ UserSchema.PublicUser.username r = UserSchema.User.username u
  /\ UserSchema.PublicUser.avatar r = UserSchema.User.avatar u
  /\ UserSchema.PublicUser.role r = UserSchema.User.role u
  /\ UserSchema.PublicUser.createdAt r = UserSchema.User.createdAt u
  /\ UserSchema.PublicUser.updatedAt r = UserSchema.User.updatedAt u.

(** [r] shows the public fields of the post [p], with the mock author
    the procedures attach. *)
Definition of_post (p : PostSchema.Post.t) (r : PostSchema.PublicPost.t)
  : Prop :=
  PostSchema.PublicPost.id r = PostSchema.Post.id p
  /\ PostSchema.PublicPost.title r = PostSchema.Post.title p
  /\ PostSchema.PublicPost.slug r = PostSchema.Post.slug p
  /\ PostSchema.PublicPost.content r = PostSchema.Post.content p
  /\ PostSchema.PublicPost.excerpt r = PostSchema.Post.excerpt p
  /\ PostSchema.PublicPost.authorId r = PostSchema.Post.authorId p
  /\ PostSchema.PublicPost.category r = PostSchema.Post.category p
  /\ PostSchema.PublicPost.tags r = PostSchema.Post.tags p
  /\ PostSchema.PublicPost.featuredImage r
     = PostSchema.Post.featuredImage p
  /\ PostSchema.PublicPost.published r = PostSchema.Post.published p
  /\ PostSchema.PublicPost.publishedAt r = PostSchema.Post.publishedAt p
  /\ PostSchema.PublicPost.createdAt r = PostSchema.Post.createdAt p
  /\ PostSchema.PublicPost.updatedAt r = PostSchema.Post.updatedAt p
  /\ PostSchema.Author.id (PostSchema.PublicPost.author r)
     = PostSchema.Post.authorId p
  /\ PostSchema.Author.name (PostSchema.PublicPost.author r) = "John Doe"
  /\ PostSchema.Author.avatar (PostSchema.PublicPost.author r) = None.

End PublicView.

(* ================================================================== *)
(** ** The order a listing leaves its records in *)

Module ListOrder.
Import Common.

(** [before u v]: listed in direction [sortOrder] by the field
    [sortBy], [u] comes before [v]: its field is the greater one when
    descending, the smaller one when ascending. *)
Definition before {T : Type} (StringToNumber : string -> JS.Number)
           (prop : T -> string -> JS.Value)
           (sortBy : string) (sortOrder : SortOrder) (u v : T) : Prop :=
  match sortOrder with
  | asc => JS.gt StringToNumber (prop v sortBy) (prop u sortBy) = true
  | desc => JS.gt StringToNumber (prop u sortBy) (prop v sortBy) = true
  end.

(** [not_after u v]: listed in direction [sortOrder] by the field
    [sortBy], [u] may stand in front of [v]: its field is not the
    smaller one when descending, not the greater one when ascending. *)
Definition not_after {T : Type} (StringToNumber : string -> JS.Number)
           (prop : T -> string -> JS.Value)
           (sortBy : string) (sortOrder : SortOrder) (u v : T) : Prop :=
  match sortOrder with
  | asc => JS.gt StringToNumber (prop u sortBy) (prop v sortBy) = false
  | desc => JS.gt StringToNumber (prop v sortBy) (prop u sortBy) = false
  end.

(** [>] ranks the records of [l] by the field [sortBy]: whenever the
    field of [u] is greater than that of [w], the field of any [v] is
    smaller than that of [u] or greater than that of [w].  So it is
    when the fields are all strings, or all valid dates; not when a
    field is missing from one record and present in two others that
    differ. *)
Definition ranked {T : Type} (StringToNumber : string -> JS.Number)
           (prop : T -> string -> JS.Value)
           (sortBy : string) (l : list T) : Prop :=
  forall u v w, In u l -> In v l -> In w l ->
                JS.gt StringToNumber (prop u sortBy) (prop w sortBy)
                = true ->
                JS.gt StringToNumber (prop u sortBy) (prop v sortBy)
                = true
                \/ JS.gt StringToNumber (prop v sortBy) (prop w sortBy)
                   = true.

(** [>] tells the records of [l] apart by the field [sortBy]: of each
    two records at different indices one has the greater field. *)
Definition told_apart {T : Type} (StringToNumber : string -> JS.Number)
           (prop : T -> string -> JS.Value)
           (sortBy : string) (l : list T) : Prop :=
  ForallOrdPairs
    (fun u v =>
       JS.gt StringToNumber (prop u sortBy) (prop v sortBy) = true
       \/ JS.gt StringToNumber (prop v sortBy) (prop u sortBy) = true) l.

(** The value of [order] in the comparator. *)
Definition order_of (sortOrder : SortOrder) : Z :=
  match sortOrder with
  | asc => 1
  | desc => -1
  end.

(** The validity of the pagination of a list input, absent or not. *)
Definition valid_pagination (p : option PaginationInput.t) : bool :=
  PaginationInput.valid (defaulted p PaginationInput.none).

Definition page_of (p : option PaginationInput.t) : Z :=
  defaulted (PaginationInput.page (defaulted p PaginationInput.none)) 1.

Definition limit_of (p : option PaginationInput.t) : Z :=
  defaulted (PaginationInput.limit (defaulted p PaginationInput.none)) 20.

Definition sortBy_of (p : option PaginationInput.t) : string :=
  defaulted (PaginationInput.sortBy (defaulted p PaginationInput.none))
            "createdAt".

Definition sortOrder_of (p : option PaginationInput.t) : SortOrder :=
  defaulted (PaginationInput.sortOrder (defaulted p PaginationInput.none))
            desc.

End ListOrder.

(* ================================================================== *)
(** ** The user store: calls, reachable states and what they keep *)

Module UserStore.
Import Common UserSchema UserProcedures.

(** Every user is stored under its own id, and no key occurs twice. *)
Definition keyed_by_id (st : Store) : Prop :=
  Forall (fun e => fst e = User.id (snd e)) st.

Definition keys_distinct (st : Store) : Prop := NoDup (Map.keys st).

(** The emails of the stored users, and the usernames of those that have
    one. *)
Definition emails (st : Store) : list string :=
  map User.email (Map.values st).

Definition username_list (u : User.t) : list string :=
  match User.username u with
  | Some s => [s]
  | None => []
  end.

Definition usernames (st : Store) : list string :=
  flat_map username_list (Map.values st).

Definition consistent (st : Store) : Prop :=
  keys_distinct st /\ keyed_by_id st
  /\ NoDup (emails st) /\ NoDup (usernames st).

(** One call of a procedure of the user router that reads or writes one
    user. *)
Inductive Call : Type :=
| CallGet (input : IdParam.t)
| CallGetByEmail (email : string)
| CallCreate (uuid : string) (now : JS.Date) (input : CreateUserInput.t)
| CallUpdate (now : JS.Date) (input : UpdateInput.t)
| CallDelete (input : IdParam.t).

(** What is left of a run once the returned value is dropped: the error,
    if one was thrown, and the store. *)
Definition outcome {A : Type} (r : Result A * Store)
  : option Error * Store :=
  (match fst r with
   | Ok _ => None
   | Thrown e => Some e
   end,
   snd r).

Definition run (c : Call) (st : Store) : option Error * Store :=
  match c with
  | CallGet input => outcome (getUser input st)
  | CallGetByEmail email => outcome (getUserByEmail email st)
  | CallCreate uuid now input => outcome (createUser uuid now input st)
  | CallUpdate now input => outcome (updateUser now input st)
  | CallDelete input => outcome (deleteUser input st)
  end.

Definition after (c : Call) (st : Store) : Store := snd (run c st).

(** What the schemas in front of the handlers ask of the fields the
    uniqueness checks look at: a username, when given, has 3 to 30
    characters of its class, and an email, when given, is not empty
    (its format is left to the validation library). *)
Definition accepted (c : Call) : bool :=
  match c with
  | CallCreate _ _ input =>
      JS.truthy (CreateUserInput.email input)
      && username_ok (CreateUserInput.username input)
  | CallUpdate _ input =>
      match UpdateUserInput.email (UpdateInput.data input) with
      | Some e => JS.truthy e
      | None => true
      end
      && username_ok (UpdateUserInput.username (UpdateInput.data input))
  | _ => true
  end.

(** The stores the module can be in. *)
Inductive reachable : Store -> Prop :=
| reachable_seed (uuid1 : string) (now1 : JS.Date)
                 (uuid2 : string) (now2 : JS.Date) :
    reachable (snd (seed uuid1 now1 uuid2 now2 Map.empty))
| reachable_call (c : Call) (st : Store) :
    reachable st -> accepted c = true -> reachable (after c st).

End UserStore.

(* ================================================================== *)
(** ** The post store: runs of calls and what they keep *)

Module PostRuns.
Import Common PostSchema PostProcedures.

Definition keys_distinct (st : Store) : Prop := NoDup (Map.keys st).

(** No stored counter is negative. *)
Definition views_counted (st : Store) : Prop :=
  Forall (fun p => 0 <= Post.viewCount p) (Map.values st).

(** Every stored post that is published has a publish timestamp. *)
Definition published_dated (st : Store) : Prop :=
  Forall (fun p => Post.published p = true -> Post.publishedAt p <> None)
         (Map.values st).

Definition outcome {A : Type} (r : Result A * Store)
  : option Error * Store :=
  (match fst r with
   | Ok _ => None
   | Thrown e => Some e
   end,
   snd r).

(** The error, if any, and the store of a call. *)
Definition run (c : PostStore.Call) (st : Store) : option Error * Store :=
  match c with
  | PostStore.CallGet input => outcome (getPost input st)
  | PostStore.CallCreate uuid authorUuid now input =>
      outcome (createPost uuid authorUuid now input st)
  | PostStore.CallUpdate now input => outcome (updatePost now input st)
  | PostStore.CallDelete input => outcome (deletePost input st)
  | PostStore.CallPublish now input => outcome (publishPost now input st)
  end.

(** What the schemas of the create and update inputs ask for. *)
Definition validated (c : PostStore.Call) : bool :=
  match c with
  | PostStore.CallCreate _ _ _ input => CreatePostInput.valid input
  | PostStore.CallUpdate _ input =>
      UpdatePostInput.valid (UpdateInput.data input)
  | _ => true
  end.

(** A call other than a creation that leaves the slug to be generated. *)
Definition names_its_slug (c : PostStore.Call) : bool :=
  match c with
  | PostStore.CallCreate _ _ _ input =>
      match CreatePostInput.slug input with
      | Some _ => true
      | None => false
      end
  | _ => true
  end.

(** [n] calls of [getPost] with the same input, one after the other. *)
Fixpoint getPost_times (n : nat) (input : IdParam.t) (st : Store) : Store :=
  match n with
  | O => st
  | S n' => getPost_times n' input (snd (getPost input st))
  end.

End PostRuns.

(* ================================================================== *)
(** ** The shape of a slug *)

Module SlugFormat.

Definition isHyphen (c : ascii) : bool := (c =? "-")%char.

(** No hyphen stands next to another; [afterHyphen] tells that the
    character before was one. *)
Fixpoint noDoubleHyphen (afterHyphen : bool) (s : string) : bool :=
  match s with
  | EmptyString => true
  | String c r =>
      if isHyphen c then negb afterHyphen && noDoubleHyphen true r
      else noDoubleHyphen false r
  end.

Definition startsWithHyphen (s : string) : bool :=
  match s with
  | EmptyString => false
  | String c _ => isHyphen c
  end.

Fixpoint endsWithHyphen (s : string) : bool :=
  match s with
  | EmptyString => false
  | String c EmptyString => isHyphen c
  | String _ r => endsWithHyphen r
  end.

(** Lower-case letters, digits and single hyphens, with no hyphen at
    either end. *)
Definition wellFormed (s : string) : bool :=
  PostSchema.CreatePostInput.all_chars PostSchema.CreatePostInput.slugChar s
  && noDoubleHyphen false s
  && negb (startsWithHyphen s)
  && negb (endsWithHyphen s).

End SlugFormat.

(* ================================================================== *)
(** ** Filters, read as one condition on a record *)

Module FilterSpec.
Import Common.

Definition given {A : Type} (o : option A) (test : A -> bool) : bool :=
  match o with
  | Some a => test a
  | None => true
  end.

(** A post passes when it meets every filter that is given: the search
    text (unless empty) occurs, whatever its case, in the title, the
    content or the excerpt; author, status, category and published flag
    are the ones asked for; it carries one of the tags asked for (unless
    none is), and it was published within the dates asked for. *)
Definition post_passes (f : PostSchema.PostFilters.t) (p : PostSchema.Post.t)
  : bool :=
  given (PostSchema.PostFilters.search f)
        (fun s =>
           negb (JS.truthy s)
           || JS.includes (JS.toLowerCase (PostSchema.Post.title p))
                          (JS.toLowerCase s)
           || JS.includes (JS.toLowerCase (PostSchema.Post.content p))
                          (JS.toLowerCase s)
           || match PostSchema.Post.excerpt p with
              | Some e =>
                  JS.truthy e
                  && JS.includes (JS.toLowerCase e) (JS.toLowerCase s)
              | None => false
              end)
  && given (PostSchema.PostFilters.authorId f)
           (fun a =>
              negb (JS.truthy a)
              || (PostSchema.Post.authorId p =? a)%string)
  && given (PostSchema.PostFilters.status f)
           (fun st => PostSchema.PostStatus_eqb (PostSchema.Post.status p) st)
  && given (PostSchema.PostFilters.category f)
           (fun c =>
              PostSchema.PostCategory_eqb (PostSchema.Post.category p) c)
  && given (PostSchema.PostFilters.tags f)
           (fun tags =>
              match tags with
              | [] => true
              | _ =>
                  existsb (fun tag =>
                             existsb (fun t => (t =? tag)%string)
                                     (PostSchema.Post.tags p))
                          tags
              end)
  && given (PostSchema.PostFilters.published f)
           (fun b => Bool.eqb (PostSchema.Post.published p) b)
  && given (PostSchema.PostFilters.publishedAfter f)
           (fun d =>
              match PostSchema.Post.publishedAt p with
              | Some at_ => JS.Date_ge at_ d
              | None => false
              end)
  && given (PostSchema.PostFilters.publishedBefore f)
           (fun d =>
              match PostSchema.Post.publishedAt p with
              | Some at_ => JS.Date_le at_ d
              | None => false
              end).

(** The same for a user: search text in the name, the email or the
    username; role, status and creation dates as asked for. *)
Definition user_passes (f : UserSchema.UserFilters.t) (u : UserSchema.User.t)
  : bool :=
  given (UserSchema.UserFilters.search f)
        (fun s =>
           negb (JS.truthy s)
           || JS.includes (JS.toLowerCase (UserSchema.User.name u))
                          (JS.toLowerCase s)
           || JS.includes (JS.toLowerCase (UserSchema.User.email u))
                          (JS.toLowerCase s)
           || match UserSchema.User.username u with
              | Some n =>
                  JS.truthy n
                  && JS.includes (JS.toLowerCase n) (JS.toLowerCase s)
              | None => false
              end)
  && given (UserSchema.UserFilters.role f)
           (fun r => UserSchema.UserRole_eqb (UserSchema.User.role u) r)
  && given (UserSchema.UserFilters.status f)
           (fun st => UserSchema.UserStatus_eqb (UserSchema.User.status u) st)
  && given (UserSchema.UserFilters.createdAfter f)
           (fun d => JS.Date_ge (UserSchema.User.createdAt u) d)
  && given (UserSchema.UserFilters.createdBefore f)
           (fun d => JS.Date_le (UserSchema.User.createdAt u) d).

(** The pagination that asks for page [k] of [limit] records. *)
Definition page_k (limit : Z) (sortBy : option string)
           (sortOrder : option SortOrder) (k : nat)
  : option PaginationInput.t :=
  Some (PaginationInput.mk (Some (Z.of_nat k)) (Some limit) sortBy sortOrder).

(** The filters with another search text. *)
Definition post_search (f : PostSchema.PostFilters.t) (s : string)
  : PostSchema.PostFilters.t :=
  PostSchema.PostFilters.mk
    (Some s) (PostSchema.PostFilters.authorId f)
    (PostSchema.PostFilters.status f) (PostSchema.PostFilters.category f)
    (PostSchema.PostFilters.tags f) (PostSchema.PostFilters.published f)
    (PostSchema.PostFilters.publishedAfter f)
    (PostSchema.PostFilters.publishedBefore f).

Definition user_search (f : UserSchema.UserFilters.t) (s : string)
  : UserSchema.UserFilters.t :=
  UserSchema.UserFilters.mk
    (Some s) (UserSchema.UserFilters.role f)
    (UserSchema.UserFilters.status f)
    (UserSchema.UserFilters.createdAfter f)
    (UserSchema.UserFilters.createdBefore f).

(** The post filters that ask for an author, as [getPostStats] takes it,
    and for a published flag and a status besides. *)
Definition by_author (authorId : option string)
           (published : option bool)
           (status : option PostSchema.PostStatus)
  : PostSchema.PostFilters.t :=
  PostSchema.PostFilters.mk None authorId status None None published
                            None None.

(** Whether the statistics for [authorId] count a post. *)
Definition counted (authorId : option string) (p : PostSchema.Post.t)
  : bool :=
  negb (JS.truthy_opt authorId)
  || (PostSchema.Post.authorId p =? defaulted authorId "")%string.

(** The records of the page a listing returned, none if it threw. *)
Definition data_of {T S : Type}
           (r : Result (PaginationOutput.t T) * S) : list T :=
  match fst r with
  | Ok out => PaginationOutput.data out
  | Thrown _ => []
  end.

End FilterSpec.

(* ================================================================== *)
(** ** client.ts: the [fetch] that [createClient] gives its link *)

Module Client.

(** [ClientConfig], as far as [fetch] reads it; an absent key is
    [None]. *)
Module ClientConfig.
Record t : Type := mk {
  timeout : option Z;
  enableRetries : option bool;
  maxRetries : option Z
}.
(** The object [{}]. *)
Definition none : t := mk None None None.
End ClientConfig.

(** [{ ...DEFAULT_CONFIG, ...config }] *)
Module FinalConfig.
Record t : Type := mk {
  timeout : Z;
  enableRetries : bool;
  maxRetries : Z
}.
End FinalConfig.

Definition DEFAULT_CONFIG : FinalConfig.t := FinalConfig.mk 30000 true 3.

Definition finalConfig (config : ClientConfig.t) : FinalConfig.t :=
  FinalConfig.mk
    (Common.defaulted (ClientConfig.timeout config)
                      (FinalConfig.timeout DEFAULT_CONFIG))
    (Common.defaulted (ClientConfig.enableRetries config)
                      (FinalConfig.enableRetries DEFAULT_CONFIG))
    (Common.defaulted (ClientConfig.maxRetries config)
                      (FinalConfig.maxRetries DEFAULT_CONFIG)).

(** What one call of the platform's [fetch] ends with: a response, of
    which the loop reads the status, or a rejection, with an [Error] or
    with some other value.  (An abort by the timeout is one of the
    rejections.) *)
Inductive Rejection : Type :=
| ErrorObject (message : string)
| OtherValue.

Inductive Outcome : Type :=
| Responded (status : Z)
| Rejected (error : Rejection).

(** The network: the outcome of the [n]-th call of [fetch], counted
    from 0. *)
Definition Network : Type := nat -> Outcome.

(** [response.ok] *)
Definition ok (status : Z) : bool := (200 <=? status) && (status <=? 299).

(** What the wrapper has done: the calls of [fetch] it made and the
    delays, in milliseconds, it waited between them. *)
Module Trace.
Record t : Type := mk {
  attempts : nat;
  delays : list Z
}.
End Trace.

(** How the wrapper ends: with the response of one of its calls, or with
    an error. *)
Inductive Finished : Type :=
| Returned (attempt : nat) (status : Z)
| Threw (message : string).

(** [error instanceof Error ? error : new Error('Network error')] *)
Definition asError (e : Rejection) : string :=
  match e with
  | ErrorObject m => m
  | OtherValue => "Network error"
  end.

(** The statement after the loop:
    [throw lastError || new Error('Request failed after retries')]. *)
Definition throwAfterLoop (lastError : option string) : Finished :=
  Threw (match lastError with
         | Some m => m
         | None => "Request failed after retries"
         end).

(** [retries++] followed by the wait of [Math.pow(2, retries) * 1000]. *)
Definition waited (tr : Trace.t) (retries : Z) : Trace.t :=
  Trace.mk (Trace.attempts tr) (Trace.delays tr ++ [2 ^ retries * 1000]).

Definition called (tr : Trace.t) : Trace.t :=
  Trace.mk (S (Trace.attempts tr)) (Trace.delays tr).

(** The [while] loop, one iteration for each unit of [fuel]; [None] when
    the fuel does not reach the end. *)
Fixpoint loop (fuel : nat) (cfg : FinalConfig.t) (net : Network)
         (retries : Z) (lastError : option string) (tr : Trace.t)
  : option (Finished * Trace.t) :=
  match fuel with
  | O => None
  | S fuel' =>
      if retries <=? (if FinalConfig.enableRetries cfg
                      then FinalConfig.maxRetries cfg else 0)
      then
        let attempt := Trace.attempts tr in
        match net attempt with
        | Responded status =>
            if ok status then
              Some (Returned attempt status, called tr)
            else if (400 <=? status) && (status <? 500) then
              Some (Returned attempt status, called tr)
            else if (retries <? FinalConfig.maxRetries cfg)
                    && FinalConfig.enableRetries cfg then
              loop fuel' cfg net (retries + 1) lastError
                   (waited (called tr) (retries + 1))
            else Some (Returned attempt status, called tr)
        | Rejected error =>
            let lastError := Some (asError error) in
            if (retries <? FinalConfig.maxRetries cfg)
               && FinalConfig.enableRetries cfg then
              loop fuel' cfg net (retries + 1) lastError
                   (waited (called tr) (retries + 1))
            else Some (throwAfterLoop lastError, called tr)
        end
      else Some (throwAfterLoop lastError, tr)
  end.

(** The wrapper, with fuel for [maxRetries + 1] iterations. *)
Definition fetch (config : ClientConfig.t) (net : Network)
  : option (Finished * Trace.t) :=
  let cfg := finalConfig config in
  loop (S (Z.to_nat (FinalConfig.maxRetries cfg))) cfg net 0 None
       (Trace.mk 0 []).

(** The waits of an exponential backoff before the retries [1 .. n]. *)
Definition backoff (n : nat) : list Z :=
  map (fun i => 2 ^ Z.of_nat i * 1000) (seq 1 n).

(** An outcome after which the wrapper tries again, if it may: a
    rejection, or a response that is neither successful nor a 4xx. *)
Definition retryable (o : Outcome) : bool :=
  match o with
  | Responded status =>
      negb (ok status) && negb ((400 <=? status) && (status <? 500))
  | Rejected _ => true
  end.

(** How the wrapper ends on the outcome of its last call. *)
Definition finish (attempt : nat) (o : Outcome) : Finished :=
  match o with
  | Responded status => Returned attempt status
  | Rejected error => Threw (asError error)
  end.

End Client.

(* ================================================================== *)
(** ** Sample stores and inputs *)

Module Fixtures.
Import Common.

Definition uuidU : string := "3f2c9a70-5b1d-4c8e-9a46-0d6f1e2b7c11".
Definition uuidV : string := "8d1e6b02-77aa-4f0c-b3a5-2c9d4e5f6a70".
Definition uuidW : string := "a7c3e1f9-0b2d-4468-9e5a-1f3b5d7c9e21".

(** The user store right after the module is loaded. *)
Definition seededUsers : UserProcedures.Store :=
  snd (UserProcedures.seed uuidU (JS.ValidDate 1700000000000)
                           uuidV (JS.ValidDate 1700000000001)
                           Map.empty).

(** The first of the two seeded users. *)
Definition adminUser : UserSchema.User.t :=
  UserSchema.User.mk uuidU "admin@example.com" "Admin User" (Some "admin")
                     None UserSchema.admin UserSchema.active
                     (JS.ValidDate 1700000000000)
                     (JS.ValidDate 1700000000000).

(** Two inputs of [createUser]: one with the email of [adminUser], one
    with an email and a username that no seeded user has. *)
Definition adminAgain : UserSchema.CreateUserInput.t :=
  UserSchema.CreateUserInput.mk "admin@example.com" "Secret123" "Ada A"
                                None None None.

Definition adaInput : UserSchema.CreateUserInput.t :=
  UserSchema.CreateUserInput.mk "ada@example.com" "Secret123" "Ada A"
                                (Some "ada") None None.

(** The input [{ title: "Hello World", content: "0123456789" }]. *)
Definition helloWorld : PostSchema.CreatePostInput.t :=
  PostSchema.CreatePostInput.mk "Hello World" None "0123456789"
                                None None None None None None.

Definition uuidA : string := "0b0e7d4c-1f3a-4e52-8a6b-5c9d2e7f1a01".
Definition uuidB : string := "6a1f0c9e-2d4b-4a7c-9e3f-8b5d1c2a7e02".
Definition uuidC : string := "c4d2e8f1-9a3b-4c6d-8e7f-0a1b2c3d4e03".
Definition uuidD : string := "e5f60718-293a-4b4c-9d5e-6f7081920a04".
Definition uuidE : string := "f7a8b9c0-d1e2-4f30-8a1b-2c3d4e5f6a05".
Definition uuidF : string := "19283746-5a6b-4c7d-8e9f-a0b1c2d3e406".
Definition uuidG : string := "2a3b4c5d-6e7f-4a8b-9c0d-e1f2a3b4c507".
Definition uuidH : string := "3b4c5d6e-7f8a-4b9c-8d0e-f1a2b3c4d508".

(** The post store right after the module is loaded. *)
Definition seededPosts : PostProcedures.Store :=
  snd (PostProcedures.seed uuidA uuidB (JS.ValidDate 1700000000000)
                           uuidC uuidD (JS.ValidDate 1700000000001)
                           Map.empty).

(** A draft that was never published. *)
Definition draftPost : PostSchema.Post.t :=
  PostSchema.Post.mk uuidE "Notes on Sorting" "notes-on-sorting"
                     "Sorting, filtering and paging a list."
                     (Some "Sorting, filtering and paging a list....")
                     uuidF PostSchema.draft PostSchema.other [] None
                     false None 0
                     (JS.ValidDate 1700000100000)
                     (JS.ValidDate 1700000100000).

Definition draftPosts : PostProcedures.Store :=
  [(PostSchema.Post.id draftPost, draftPost)].

(** A second post, created in the same millisecond as [draftPost]. *)
Definition twinPost : PostSchema.Post.t :=
  PostSchema.Post.mk uuidG "Notes on Paging" "notes-on-paging"
                     "Paging a list that was sorted before."
                     (Some "Paging a list that was sorted before....")
                     uuidH PostSchema.draft PostSchema.other [] None
                     false None 0
                     (JS.ValidDate 1700000100000)
                     (JS.ValidDate 1700000100000).

Definition twinPosts : PostProcedures.Store :=
  [(PostSchema.Post.id draftPost, draftPost);
   (PostSchema.Post.id twinPost, twinPost)].

(** A [StringToNumber] for runs that sort by a date, a number or a
    string field only, where the conversion is never consulted: it
    takes no string for a numeric literal. *)
Definition noNumericStrings (s : string) : JS.Number := JS.NaN.

(** The pagination [{ page: 2 }]. *)
Definition secondPage : Common.PaginationInput.t :=
  Common.PaginationInput.mk (Some 2) None None None.

(** The pagination [{ page: 2, limit: 1 }]. *)
Definition secondOfOne : Common.PaginationInput.t :=
  Common.PaginationInput.mk (Some 2) (Some 1) None None.

(** A post created after [draftPost]. *)
Definition laterPost : PostSchema.Post.t :=
  PostSchema.Post.mk uuidA "Notes on Filtering" "notes-on-filtering"
                     "Filtering a list before it is sorted."
                     (Some "Filtering a list before it is sorted....")
                     uuidB PostSchema.draft PostSchema.other [] None
                     false None 0
                     (JS.ValidDate 1700000200000)
                     (JS.ValidDate 1700000200000).

(** A store of three posts, two of them created in the same
    millisecond. *)
Definition threePosts : PostProcedures.Store :=
  [(PostSchema.Post.id draftPost, draftPost);
   (PostSchema.Post.id twinPost, twinPost);
   (PostSchema.Post.id laterPost, laterPost)].

(** The second of the two seeded users. *)
Definition johnUser : UserSchema.User.t :=
  UserSchema.User.mk uuidV "john@example.com" "John Doe" (Some "johndoe")
                     None UserSchema.user UserSchema.active
                     (JS.ValidDate 1700000000001)
                     (JS.ValidDate 1700000000001).

(** Updates of a user: to the email of the admin, to the username of the
    admin, and to a new name with the email the user already has. *)
Definition toAdminEmail : UserSchema.UpdateUserInput.t :=
  UserSchema.UpdateUserInput.mk (Some "admin@example.com") None None None
                                None None.

Definition toAdminName : UserSchema.UpdateUserInput.t :=
  UserSchema.UpdateUserInput.mk None None (Some "admin") None None None.

Definition renameJohn : UserSchema.UpdateUserInput.t :=
  UserSchema.UpdateUserInput.mk (Some "john@example.com") (Some "John D")
                                None None None None.

(** Updates of a post: to the slug of the second seeded post, and to a
    new title and slug. *)
Definition toTakenSlug : PostSchema.UpdatePostInput.t :=
  PostSchema.UpdatePostInput.mk None (Some "building-type-safe-apis") None
                                None None None None None None.

Definition retitle : PostSchema.UpdatePostInput.t :=
  PostSchema.UpdatePostInput.mk (Some "ORPC in Short") (Some "orpc-in-short")
                                None None None None None None None.

(** Inputs of [createPost] with a custom slug: the slug of the first
    seeded post, and one that no seeded post has. *)
Definition withTakenSlug : PostSchema.CreatePostInput.t :=
  PostSchema.CreatePostInput.mk "Hello World"
                                (Some "getting-started-with-orpc")
                                "0123456789" None None None None None None.

Definition withOwnSlug : PostSchema.CreatePostInput.t :=
  PostSchema.CreatePostInput.mk "Hello World" (Some "hello-again")
                                "0123456789" None None None None None None.

(** A post that was published and then unpublished. *)
Definition unpublishedPost : PostSchema.Post.t :=
  PostSchema.Post.mk uuidE "Notes on Sorting" "notes-on-sorting"
                     "Sorting, filtering and paging a list."
                     (Some "Sorting, filtering and paging a list....")
                     uuidF PostSchema.archived PostSchema.other [] None
                     false (Some (JS.ValidDate 1700000150000)) 3
                     (JS.ValidDate 1700000100000)
                     (JS.ValidDate 1700000160000).

Definition unpublishedPosts : PostProcedures.Store :=
  [(PostSchema.Post.id unpublishedPost, unpublishedPost)].

(** A network that answers 503, then rejects, then answers 404, and 200
    from then on. *)
Definition flakyNetwork : Client.Network :=
  fun n =>
    match n with
    | O => Client.Responded 503
    | S O => Client.Rejected (Client.ErrorObject "fetch failed")
    | S (S O) => Client.Responded 404
    | _ => Client.Responded 200
    end.

End Fixtures.

(* ================================================================== *)
(** * Properties *)

(** ** The map *)

Section MapFacts.
Context {V : Type}.
Implicit Types (k : string) (v : V) (m : Map.t V).

Lemma get_set_same k v m : Map.get k (Map.set k v m) = Some v.
Proof.
  induction m as [|[k' v'] r IH]; simpl.
  - now rewrite String.eqb_refl.
  - destruct (String.eqb_spec k' k) as [->|Hne]; simpl.
    + now rewrite String.eqb_refl.
    + apply String.eqb_neq in Hne. now rewrite Hne.
Qed.

Lemma get_set_other k k0 v m :
  k0 <> k -> Map.get k0 (Map.set k v m) = Map.get k0 m.
Proof.
  intros Hne. induction m as [|[k' v'] r IH]; simpl.
  - apply not_eq_sym, String.eqb_neq in Hne. now rewrite Hne.
  - destruct (String.eqb_spec k' k) as [->|Hk]; simpl.
    + apply not_eq_sym, String.eqb_neq in Hne. now rewrite Hne.
    + now rewrite IH.
Qed.

Lemma set_set_same k v m : Map.set k v (Map.set k v m) = Map.set k v m.
Proof.
  induction m as [|[k' v'] r IH]; simpl.
  - now rewrite String.eqb_refl.
  - destruct (String.eqb_spec k' k) as [->|Hk]; simpl.
    + now rewrite String.eqb_refl.
    + apply String.eqb_neq in Hk. rewrite Hk. now rewrite IH.
Qed.

Lemma keys_set_present k v m :
  Map.get k m <> None -> Map.keys (Map.set k v m) = Map.keys m.
Proof.
  induction m as [|[k' v'] r IH]; simpl; intros H.
  - congruence.
  - destruct (String.eqb_spec k' k) as [->|Hk]; simpl.
    + reflexivity.
    + f_equal. now apply IH.
Qed.

Lemma get_delete_same k m : Map.get k (Map.delete k m) = None.
Proof.
  induction m as [|[k' v'] r IH]; simpl; [reflexivity|].
  destruct (String.eqb_spec k' k) as [->|Hk]; simpl; [exact IH|].
  apply String.eqb_neq in Hk. now rewrite Hk.
Qed.

Lemma get_delete_other k k0 m :
  k0 <> k -> Map.get k0 (Map.delete k m) = Map.get k0 m.
Proof.
  intros Hne. induction m as [|[k' v'] r IH]; simpl; [reflexivity|].
  destruct (String.eqb_spec k' k) as [->|Hk]; simpl.
  - apply not_eq_sym, String.eqb_neq in Hne. now rewrite Hne.
  - now rewrite IH.
Qed.

Lemma in_delete k m (e : string * V) :
  In e (Map.delete k m) <-> In e m /\ fst e <> k.
Proof.
  unfold Map.delete. rewrite filter_In, negb_true_iff, String.eqb_neq.
  reflexivity.
Qed.

End MapFacts.

(** ** Running a handler *)

Lemma bind_gets {S A B : Type} (f : S -> A) (k : A -> Handler S B) (s : S) :
  bind (gets f) k s = k (f s) s.
Proof. reflexivity. Qed.

Lemma bind_modify {S B : Type} (f : S -> S) (k : unit -> Handler S B) (s : S) :
  bind (modify f) k s = k tt (f s).
Proof. reflexivity. Qed.

(** ** Deleting *)

Section Delete.
Import Common.

(** C7.  Deleting an id the store does not hold throws the not-found
    error and leaves the store as it was.  Deleting an id it holds
    returns [{ success: true }] and leaves the store without that key
    and with every other entry as before, so that a get of the same id
    then throws the not-found error.  Both [deletePost] and
    [deleteUser] behave so. *)
Theorem delete_removes_exactly_the_record (input : IdParam.t) :
  let key := String_ (IdParam.id input) in
  (forall st : PostProcedures.Store,
      match Map.get key st with
      | None =>
          PostProcedures.deletePost input st
          = (Thrown (mkError "Post not found"), st)
      | Some _ =>
          exists st',
          PostProcedures.deletePost input st = (Ok (Ack.mk true), st')
          /\ Map.get key st' = None
          /\ (forall e, In e st' <-> In e st /\ fst e <> key)
          /\ (forall k, k <> key -> Map.get k st' = Map.get k st)
          /\ PostProcedures.getPost input st'
             = (Thrown (mkError "Post not found"), st')
      end)
  /\ (forall st : UserProcedures.Store,
      match Map.get key st with
      | None =>
          UserProcedures.deleteUser input st
          = (Thrown (mkError "User not found"), st)
      | Some _ =>
          exists st',
          UserProcedures.deleteUser input st = (Ok (Ack.mk true), st')
          /\ Map.get key st' = None
          /\ (forall e, In e st' <-> In e st /\ fst e <> key)
          /\ (forall k, k <> key -> Map.get k st' = Map.get k st)
          /\ UserProcedures.getUser input st'
             = (Thrown (mkError "User not found"), st')
      end).
Proof.
  intros key; split; intros st.
  - unfold PostProcedures.deletePost. rewrite bind_gets. fold key.
    destruct (Map.get key st) eqn:Hget; [|reflexivity].
    exists (Map.delete key st).
    split; [reflexivity|]. split; [|split; [|split]].
    + apply get_delete_same.
    + intros e. apply in_delete.
    + intros k Hk. now apply get_delete_other.
    + unfold PostProcedures.getPost. rewrite bind_gets. fold key.
      now rewrite get_delete_same.
  - unfold UserProcedures.deleteUser. rewrite bind_gets. fold key.
    destruct (Map.get key st) eqn:Hget; [|reflexivity].
    exists (Map.delete key st).
    split; [reflexivity|]. split; [|split; [|split]].
    + apply get_delete_same.
    + intros e. apply in_delete.
    + intros k Hk. now apply get_delete_other.
    + unfold UserProcedures.getUser. rewrite bind_gets. fold key.
      now rewrite get_delete_same.
Qed.

End Delete.

(** ** Users: creating and looking up *)

Section Users.
Import Common UserSchema UserProcedures Fixtures.

Lemma find_email_none (st : Store) (email : string) :
  (forall u, In u (Map.values st) -> User.email u <> email) ->
  find (fun u => (User.email u =? email)%string) (Map.values st) = None.
Proof.
  intros Hfresh.
  destruct (find _ _) as [u|] eqn:Hfind; [|reflexivity].
  apply find_some in Hfind as [Hin Heq].
  apply String.eqb_eq in Heq. now apply Hfresh in Hin.
Qed.

Lemma find_email_some (st : Store) (email : string) :
  (exists u, In u (Map.values st) /\ User.email u = email) ->
  exists u, find (fun u => (User.email u =? email)%string) (Map.values st)
            = Some u
            /\ In u (Map.values st) /\ User.email u = email.
Proof.
  intros [u [Hin Heq]].
  destruct (find _ _) as [u'|] eqn:Hfind.
  - exists u'. split; [reflexivity|].
    apply find_some in Hfind as [Hin' Heq'].
    now apply String.eqb_eq in Heq'.
  - apply (find_none _ _ Hfind) in Hin.
    apply String.eqb_neq in Hin. contradiction.
Qed.

Lemma find_username_none (st : Store) (name : string) :
  (forall u, In u (Map.values st) -> User.username u <> Some name) ->
  find (fun u => has_username u name) (Map.values st) = None.
Proof.
  intros Hfresh.
  destruct (find _ _) as [u|] eqn:Hfind; [|reflexivity].
  apply find_some in Hfind as [Hin Heq]. apply Hfresh in Hin.
  unfold has_username in Heq.
  destruct (User.username u) as [s|]; [|discriminate].
  apply String.eqb_eq in Heq. congruence.
Qed.

(** C6.  When some user of the store has the email of the input,
    [createUser] throws the duplicate error and the store is as before.
    When no user has that email nor the username of the input,
    [createUser] returns the new user, which has the id that was drawn
    and the email, name and username of the input, and [getUser] with
    the returned id then returns a record whose id, name, username,
    avatar, role and two dates are those of that user. *)
Theorem createUser_duplicate_or_retrievable
        (st : Store) (uuid : string) (now : JS.Date)
        (input : CreateUserInput.t) :
  ((exists u, In u (Map.values st)
              /\ User.email u = CreateUserInput.email input) ->
   createUser uuid now input st
   = (Thrown (mkError "Email already exists"), st))
  /\ ((forall u, In u (Map.values st) ->
                 User.email u <> CreateUserInput.email input) ->
      (forall u name, In u (Map.values st) ->
                      CreateUserInput.username input = Some name ->
                      User.username u <> Some name) ->
      exists u st',
        createUser uuid now input st = (Ok u, st')
        /\ User.id u = uuid
        /\ User.email u = CreateUserInput.email input
        /\ User.name u = CreateUserInput.name input
        /\ User.username u = CreateUserInput.username input
        /\ User.createdAt u = now
        /\ Map.get (User.id u) st' = Some u
        /\ exists r,
            getUser (IdParam.mk (IdString (User.id u))) st' = (Ok r, st')
            /\ PublicUser.id r = User.id u
            /\ PublicUser.name r = User.name u
            /\ PublicUser.username r = User.username u
            /\ PublicUser.avatar r = User.avatar u
            /\ PublicUser.role r = User.role u
            /\ PublicUser.createdAt r = User.createdAt u
            /\ PublicUser.updatedAt r = User.updatedAt u).
Proof.
  split.
  - intros Hdup. apply find_email_some in Hdup as [u [Hfind _]].
    unfold createUser. rewrite bind_gets, Hfind. reflexivity.
  - intros Hemail Hname.
    unfold createUser. rewrite bind_gets, (find_email_none _ _ Hemail).
    rewrite bind_gets.
    assert (Hnone :
              (if JS.truthy_opt (CreateUserInput.username input)
               then find (fun u =>
                            has_username u
                              (defaulted (CreateUserInput.username input) ""))
                         (Map.values st)
               else None) = None).
    { destruct (CreateUserInput.username input) as [name|] eqn:Hu;
        simpl; [|reflexivity].
      destruct (JS.truthy name); [|reflexivity].
      apply find_username_none. intros u Hin. now apply (Hname u name). }
    rewrite Hnone. unfold createMockUser. rewrite bind_modify. simpl.
    eexists. eexists. split; [reflexivity|]. simpl.
    do 5 (split; [reflexivity|]).
    split; [apply get_set_same|].
    unfold getUser. rewrite bind_gets. simpl.
    rewrite get_set_same. eexists. split; [reflexivity|].
    simpl. repeat split.
Qed.

(** On the seeded users: the email of the admin is refused, a new email
    and username are accepted and the new user is read back. *)
Lemma createUser_duplicate_or_retrievable_witness :
  createUser uuidW (JS.ValidDate 1700000360000) adminAgain seededUsers
  = (Thrown (mkError "Email already exists"), seededUsers)
  /\ exists u st' r,
      createUser uuidW (JS.ValidDate 1700000360000) adaInput seededUsers
      = (Ok u, st')
      /\ User.email u = "ada@example.com"
      /\ Map.get uuidW st' = Some u
      /\ getUser (IdParam.mk (IdString uuidW)) st' = (Ok r, st')
      /\ PublicUser.id r = uuidW
      /\ PublicUser.name r = "Ada A"
      /\ PublicUser.username r = Some "ada"
      /\ PublicUser.createdAt r = JS.ValidDate 1700000360000.
Proof.
  split.
  - apply (proj1 (createUser_duplicate_or_retrievable
                    seededUsers uuidW (JS.ValidDate 1700000360000)
                    adminAgain)).
    exists adminUser. split; [left; reflexivity | reflexivity].
  - destruct (proj2 (createUser_duplicate_or_retrievable
                       seededUsers uuidW (JS.ValidDate 1700000360000)
                       adaInput))
      as (u & st' & Hrun & Hid & Hemail & Hnm & Huser & Hcreated & Hget
          & r & Hread & Hrid & Hrname & Hruser & _ & _ & Hrcreated & _).
    + intros u [<-|[<-|[]]]; simpl; discriminate.
    + intros u name [<-|[<-|[]]]; simpl; intros [= <-]; discriminate.
    + exists u, st', r. rewrite Hid in *.
      split; [exact Hrun|]. split; [exact Hemail|]. split; [exact Hget|].
      split; [exact Hread|]. split; [exact Hrid|].
      split; [now rewrite Hrname, Hnm|].
      split; [now rewrite Hruser, Huser|].
      now rewrite Hrcreated, Hcreated.
Defined.

(** The first element [find] accepts, with what comes before it. *)
Lemma find_first {A : Type} (f : A -> bool) (l : list A) (x : A) :
  find f l = Some x ->
  exists l1 l2,
    l = l1 ++ x :: l2 /\ f x = true /\ Forall (fun y => f y = false) l1.
Proof.
  induction l as [|y r IH]; simpl; [discriminate|].
  destruct (f y) eqn:Hy.
  - intros [= ->]. exists [], r. split; [reflexivity|].
    split; [exact Hy | constructor].
  - intros H. destruct (IH H) as (l1 & l2 & -> & Hx & Hl1).
    exists (y :: l1), l2. split; [reflexivity|].
    split; [exact Hx | now constructor].
Qed.

(** C10.  [getUserByEmail] returns on every store and every email and
    leaves the store as it was: [null] when no user has the email;
    otherwise a record whose id, name, username, avatar, role and two
    dates are those of the first stored user with that email.
    [getUser] on an id the store does not hold throws instead. *)
Theorem getUserByEmail_never_throws (st : Store) (email : string) :
  (exists r, getUserByEmail email st = (Ok r, st))
  /\ ((forall u, In u (Map.values st) -> User.email u <> email) ->
      getUserByEmail email st = (Ok None, st))
  /\ ((exists u, In u (Map.values st) /\ User.email u = email) ->
      exists u r earlier later,
        Map.values st = earlier ++ u :: later
        /\ Forall (fun v => User.email v <> email) earlier
        /\ User.email u = email
        /\ getUserByEmail email st = (Ok (Some r), st)
        /\ PublicUser.id r = User.id u
        /\ PublicUser.name r = User.name u
        /\ PublicUser.username r = User.username u
        /\ PublicUser.avatar r = User.avatar u
        /\ PublicUser.role r = User.role u
        /\ PublicUser.createdAt r = User.createdAt u
        /\ PublicUser.updatedAt r = User.updatedAt u)
  /\ (forall input, Map.get (String_ (IdParam.id input)) st = None ->
                    getUser input st
                    = (Thrown (mkError "User not found"), st)).
Proof.
  unfold getUserByEmail. rewrite bind_gets.
  split; [|split; [|split]].
  - destruct (find _ _); eexists; reflexivity.
  - intros Hfresh. now rewrite (find_email_none _ _ Hfresh).
  - intros Hex. apply find_email_some in Hex as [u [Hfind [Hin Heq]]].
    destruct (find_first _ _ _ Hfind) as (earlier & later & Hsplit & _ & He).
    exists u, (publicUser u), earlier, later. rewrite Hfind.
    split; [exact Hsplit|]. split.
    { revert He. apply Forall_impl. intros v Hv.
      now apply String.eqb_neq. }
    split; [exact Heq|]. split; [reflexivity|].
    simpl. repeat split.
  - intros input Hget. unfold getUser. rewrite bind_gets, Hget.
    reflexivity.
Qed.

(** On the seeded users: an unknown email and the email of the admin. *)
Lemma getUserByEmail_never_throws_witness :
  getUserByEmail "nobody@example.com" seededUsers = (Ok None, seededUsers)
  /\ exists r,
      getUserByEmail "admin@example.com" seededUsers
      = (Ok (Some r), seededUsers)
      /\ PublicUser.id r = uuidU
      /\ PublicUser.name r = "Admin User"
      /\ PublicUser.username r = Some "admin"
      /\ PublicUser.role r = admin.
Proof.
  split.
  - apply (proj1 (proj2 (getUserByEmail_never_throws
                           seededUsers "nobody@example.com"))).
    intros u [<-|[<-|[]]]; simpl; discriminate.
  - destruct (proj1 (proj2 (proj2 (getUserByEmail_never_throws
                                     seededUsers "admin@example.com"))))
      as (u & r & earlier & later & _ & _ & _ & Hrun & _).
    + exists adminUser. split; [left; reflexivity | reflexivity].
    + exists r. split; [exact Hrun|].
      injection Hrun as <-. repeat split.
Defined.

End Users.

(** ** Posts: the store invariant *)

Section PostInvariant.
Import Common PostSchema PostProcedures PostStore.

Lemma keyed_get (st : Store) (k : string) (p : Post.t) :
  keyed_by_id st -> Map.get k st = Some p -> Post.id p = k.
Proof.
  unfold keyed_by_id. induction st as [|[k' p'] r IH]; simpl.
  - discriminate.
  - intros Hall. inversion Hall as [|e l Hhd Htl]; subst. simpl in Hhd.
    destruct (String.eqb_spec k' k) as [->|Hne].
    + intros [= <-]. now symmetry.
    + now apply IH.
Qed.

Lemma keyed_set (st : Store) (k : string) (p : Post.t) :
  keyed_by_id st -> Post.id p = k -> keyed_by_id (Map.set k p st).
Proof.
  unfold keyed_by_id. intros Hall Hid.
  induction st as [|[k' p'] r IH]; simpl.
  - constructor; [now symmetry | constructor].
  - inversion Hall as [|e l Hhd Htl]; subst.
    destruct (k' =? Post.id p)%string; constructor; auto.
Qed.

Lemma keyed_delete (st : Store) (k : string) :
  keyed_by_id st -> keyed_by_id (Map.delete k st).
Proof.
  unfold keyed_by_id, Map.delete. intros Hall.
  apply Forall_forall. intros e Hin. apply filter_In in Hin as [Hin _].
  revert e Hin. now apply Forall_forall.
Qed.

Lemma seed_keyed uuid1 author1 now1 uuid2 author2 now2 :
  keyed_by_id (snd (seed uuid1 author1 now1 uuid2 author2 now2 Map.empty)).
Proof.
  unfold seed, createMockPost, bind, gets, modify, ret. simpl.
  destruct (String.eqb_spec uuid1 uuid2) as [->|Hne];
    repeat constructor.
Qed.

Lemma after_keyed (c : Call) (st : Store) :
  keyed_by_id st -> keyed_by_id (after c st).
Proof.
  intros Hst. destruct c as [input|uuid authorUuid now input|now input
                             |input|now input]; simpl.
  - unfold getPost. rewrite bind_gets.
    destruct (Map.get _ st) as [post|] eqn:Hget; [|exact Hst].
    rewrite !bind_modify. simpl.
    apply keyed_get in Hget; [|exact Hst].
    apply keyed_set; [apply keyed_set|]; auto.
  - unfold createPost. rewrite bind_gets.
    destruct (if JS.truthy_opt _ then _ else _); [exact Hst|].
    unfold createMockPost. rewrite bind_modify. simpl.
    now apply keyed_set.
  - unfold updatePost. rewrite bind_gets.
    destruct (Map.get _ st) as [post|] eqn:Hget; [|exact Hst].
    rewrite bind_gets.
    destruct (if changesSlug _ _ then _ else _); [exact Hst|].
    rewrite bind_modify. simpl.
    apply keyed_get in Hget; [|exact Hst].
    now apply keyed_set.
  - unfold deletePost. rewrite bind_gets.
    destruct (Map.get _ st) as [post|] eqn:Hget; [|exact Hst].
    rewrite bind_modify. simpl. now apply keyed_delete.
  - unfold publishPost. rewrite bind_gets.
    destruct (Map.get _ st) as [post|] eqn:Hget; [|exact Hst].
    rewrite bind_modify. simpl.
    apply keyed_get in Hget; [|exact Hst].
    now apply keyed_set.
Qed.

(** Every store the module can be in holds each post under its id. *)
Lemma reachable_keyed (st : Store) : reachable st -> keyed_by_id st.
Proof.
  induction 1 as [uuid1 author1 now1 uuid2 author2 now2 | c st Hr IH Hacc].
  - apply seed_keyed.
  - now apply after_keyed.
Qed.

End PostInvariant.

(** ** Posts: reading one *)

Section GetPost.
Import Common PostSchema PostProcedures PostStore Fixtures.

(** C9.  On a store that holds each post under its id, [getPost] of an
    id the store holds replaces the stored post by one whose
    [viewCount] is greater by 1 and whose other fields are the same,
    leaves every other key and the order of the keys as they were, and
    returns the public fields, which do not include the counter;
    [getPost] of an id the store does not hold throws the not-found
    error and leaves the store as it was. *)
Theorem getPost_counts_one_view (st : Store) (input : IdParam.t) :
  keyed_by_id st ->
  let key := String_ (IdParam.id input) in
  match Map.get key st with
  | None => getPost input st = (Thrown (mkError "Post not found"), st)
  | Some post =>
      exists post' st',
      getPost input st = (Ok (publicPost post'), st')
      /\ Map.get key st' = Some post'
      /\ Post.viewCount post' = Post.viewCount post + 1
      /\ Post.status post' = Post.status post
      /\ publicPost post' = publicPost post
      /\ (forall k, k <> key -> Map.get k st' = Map.get k st)
      /\ Map.keys st' = Map.keys st
  end.
Proof.
  intros Hkeyed key. unfold getPost. rewrite bind_gets. fold key.
  destruct (Map.get key st) as [post|] eqn:Hget; [|reflexivity].
  rewrite !bind_modify. simpl.
  pose proof (keyed_get _ _ _ Hkeyed Hget) as Hid. rewrite Hid.
  rewrite set_set_same.
  eexists. eexists. split; [reflexivity|].
  split; [apply get_set_same|]. simpl.
  split; [reflexivity|]. split; [reflexivity|]. split; [reflexivity|].
  split.
  - intros k Hk. now apply get_set_other.
  - apply keys_set_present. congruence.
Qed.

(** On the store that holds [draftPost] only. *)
Lemma getPost_counts_one_view_witness :
  exists post' st',
    getPost (IdParam.mk (IdString uuidE)) draftPosts
    = (Ok (publicPost post'), st')
    /\ Map.get uuidE st' = Some post'
    /\ Post.viewCount post' = Post.viewCount draftPost + 1
    /\ Post.status post' = Post.status draftPost
    /\ publicPost post' = publicPost draftPost
    /\ (forall k, k <> uuidE -> Map.get k st' = Map.get k draftPosts)
    /\ Map.keys st' = Map.keys draftPosts.
Proof.
  apply (getPost_counts_one_view draftPosts (IdParam.mk (IdString uuidE))).
  repeat constructor.
Defined.

End GetPost.

(** ** Posts: the publish timestamp *)

Section Publish.
Import Common PostSchema PostProcedures PostStore Fixtures.

Lemma merge_keeps_slug_settled (post : Post.t) (data : UpdatePostInput.t)
      (updatedAt : JS.Date) (publishedAt : option JS.Date) :
  changesSlug data (merge post data updatedAt publishedAt) = false.
Proof.
  unfold changesSlug, merge. simpl.
  destruct (UpdatePostInput.slug data) as [s|]; simpl; [|reflexivity].
  rewrite String.eqb_refl. apply andb_false_r.
Qed.

(** C3.  Let the store hold, under [id], a post with [published] false
    and no publish timestamp.  An [updatePost] with [published: true]
    that returns yields a post whose publish timestamp is the time of
    that call, and the same update applied again returns a post with
    that same timestamp; when the update names no slug it does return.
    [publishPost] with [published: true] returns and behaves the
    same. *)
Theorem publish_timestamp_set_on_first_publish
        (st : Store) (id : string) (post : Post.t)
        (data : UpdatePostInput.t) (now1 now2 : JS.Date) :
  Map.get id st = Some post ->
  Post.published post = false ->
  Post.publishedAt post = None ->
  UpdatePostInput.published data = Some true ->
  let update := UpdateInput.mk id data in
  let publish := PublishInput.mk id true in
  (forall p1 st1,
      updatePost now1 update st = (Ok p1, st1) ->
      Post.published p1 = true
      /\ Post.publishedAt p1 = Some now1
      /\ Map.get id st1 = Some p1
      /\ exists p2 st2,
          updatePost now2 update st1 = (Ok p2, st2)
          /\ Post.publishedAt p2 = Some now1
          /\ Map.get id st2 = Some p2)
  /\ (UpdatePostInput.slug data = None ->
      exists p1 st1, updatePost now1 update st = (Ok p1, st1))
  /\ (exists p1 st1,
         publishPost now1 publish st = (Ok p1, st1)
         /\ Post.published p1 = true
         /\ Post.publishedAt p1 = Some now1
         /\ Map.get id st1 = Some p1
         /\ exists p2 st2,
             publishPost now2 publish st1 = (Ok p2, st2)
             /\ Post.publishedAt p2 = Some now1
             /\ Map.get id st2 = Some p2).
Proof.
  intros Hget Hunpub Hnull Hdata update publish.
  split; [|split].
  - intros p1 st1. unfold updatePost. rewrite bind_gets. simpl.
    rewrite Hget, bind_gets.
    destruct (if changesSlug data post then _ else _); [discriminate|].
    rewrite bind_modify. simpl. rewrite Hdata, Hunpub. simpl.
    intros [= <- <-]. simpl. rewrite Hdata. simpl.
    split; [reflexivity|]. split; [reflexivity|].
    split; [apply get_set_same|].
    rewrite bind_gets, get_set_same, bind_gets.
    rewrite merge_keeps_slug_settled, bind_modify. simpl.
    rewrite Hdata. simpl.
    eexists. eexists. split; [reflexivity|]. simpl.
    split; [reflexivity | apply get_set_same].
  - intros Hslug. unfold updatePost. rewrite bind_gets. simpl.
    rewrite Hget, bind_gets. unfold changesSlug. rewrite Hslug. simpl.
    rewrite bind_modify. simpl. eexists. eexists. reflexivity.
  - unfold publishPost. rewrite bind_gets. simpl.
    rewrite Hget, bind_modify. simpl. rewrite Hnull.
    eexists. eexists. split; [reflexivity|]. simpl.
    split; [reflexivity|]. split; [reflexivity|].
    split; [apply get_set_same|].
    rewrite bind_gets, get_set_same, bind_modify. simpl.
    eexists. eexists. split; [reflexivity|]. simpl.
    split; [reflexivity | apply get_set_same].
Qed.

(** On the store that holds [draftPost] only, with the update
    [{ published: true }]. *)
Lemma publish_timestamp_set_on_first_publish_witness :
  let data := UpdatePostInput.publish in
  let now1 := JS.ValidDate 1700000200000 in
  let now2 := JS.ValidDate 1700000300000 in
  let update := UpdateInput.mk uuidE data in
  let publish := PublishInput.mk uuidE true in
  (forall p1 st1,
      updatePost now1 update draftPosts = (Ok p1, st1) ->
      Post.published p1 = true
      /\ Post.publishedAt p1 = Some now1
      /\ Map.get uuidE st1 = Some p1
      /\ exists p2 st2,
          updatePost now2 update st1 = (Ok p2, st2)
          /\ Post.publishedAt p2 = Some now1
          /\ Map.get uuidE st2 = Some p2)
  /\ (UpdatePostInput.slug data = None ->
      exists p1 st1, updatePost now1 update draftPosts = (Ok p1, st1))
  /\ (exists p1 st1,
         publishPost now1 publish draftPosts = (Ok p1, st1)
         /\ Post.published p1 = true
         /\ Post.publishedAt p1 = Some now1
         /\ Map.get uuidE st1 = Some p1
         /\ exists p2 st2,
             publishPost now2 publish st1 = (Ok p2, st2)
             /\ Post.publishedAt p2 = Some now1
             /\ Map.get uuidE st2 = Some p2).
Proof.
  apply (publish_timestamp_set_on_first_publish
           draftPosts uuidE draftPost UpdatePostInput.publish
           (JS.ValidDate 1700000200000) (JS.ValidDate 1700000300000));
    reflexivity.
Defined.

End Publish.

(** ** Posts: slugs on creation *)

Section CreatePost.
Import Common PostSchema PostProcedures PostStore Fixtures.

(** A custom slug that a stored post already carries is refused. *)
Lemma createPost_custom_slug_taken
      (st : Store) (uuid authorUuid : string) (now : JS.Date)
      (input : CreatePostInput.t) (s : string) :
  CreatePostInput.slug input = Some s ->
  s <> "" ->
  (exists p, In p (Map.values st) /\ Post.slug p = s) ->
  createPost uuid authorUuid now input st
  = (Thrown (mkError "Slug already exists"), st).
Proof.
  intros Hslug Hne [p [Hin Hp]].
  unfold createPost. rewrite bind_gets, Hslug. simpl.
  unfold JS.truthy. apply String.eqb_neq in Hne. rewrite Hne. simpl.
  destruct (find _ _) as [q|] eqn:Hfind; [reflexivity|].
  apply (find_none _ _ Hfind) in Hin. apply String.eqb_neq in Hin.
  contradiction.
Qed.

(** C1, on the code.  Two calls of [createPost] with the input
    [{ title: "Hello World", content: "0123456789" }], which the schema
    accepts, both return: the second is not refused although the post
    of the first carries the slug it generates, and the store they
    leave, which is a store the module can be in, holds two posts with
    the slug ["hello-world"]. *)
Theorem createPost_generated_slug_is_not_checked :
  CreatePostInput.valid helloWorld = true
  /\ exists p1 st1 p2 st2,
      createPost uuidE uuidF (JS.ValidDate 1700000100000) helloWorld
                 seededPosts = (Ok p1, st1)
      /\ createPost uuidG uuidH (JS.ValidDate 1700000200000) helloWorld
                    st1 = (Ok p2, st2)
      /\ Post.slug p1 = "hello-world"
      /\ Post.slug p2 = "hello-world"
      /\ Post.id p1 <> Post.id p2
      /\ Map.get (Post.id p1) st2 = Some p1
      /\ Map.get (Post.id p2) st2 = Some p2
      /\ reachable st2
      /\ ~ slugs_unique st2.
Proof.
  split; [reflexivity|].
  eexists. eexists. eexists. eexists.
  split; [reflexivity|]. split; [reflexivity|].
  split; [reflexivity|]. split; [reflexivity|].
  split; [discriminate|].
  split; [reflexivity|]. split; [reflexivity|].
  split.
  - apply (reachable_call
             (CallCreate uuidG uuidH (JS.ValidDate 1700000200000)
                         helloWorld)
             (after (CallCreate uuidE uuidF (JS.ValidDate 1700000100000)
                                helloWorld) seededPosts));
      [|reflexivity].
    apply reachable_call; [|reflexivity].
    apply reachable_seed.
  - unfold slugs_unique. simpl. intros Hnd.
    inversion Hnd as [|x1 l1 _ Hnd1]; subst.
    inversion Hnd1 as [|x2 l2 _ Hnd2]; subst.
    inversion Hnd2 as [|x3 l3 Hnotin _]; subst.
    apply Hnotin. now left.
Qed.

End CreatePost.

(** ** Posts: the generated slug *)

Section Slug.
Import Common PostSchema PostProcedures Fixtures.

Lemma list_toLowerCase (s : string) :
  list_ascii_of_string (JS.toLowerCase s)
  = SlugSpec.lowerCase (list_ascii_of_string s).
Proof.
  induction s as [|c r IH]; simpl; [reflexivity | now rewrite IH].
Qed.

(** After lower-casing, the class of the regular expression and the
    alphanumeric characters are the same. *)
Lemma lowered_class (c : ascii) :
  isLowerAlnum (JS.lowerChar c) = SlugSpec.isAlphanumeric (JS.lowerChar c).
Proof.
  destruct c as [[] [] [] [] [] [] [] []]; reflexivity.
Qed.

(** The replacement of the first regular expression, read in either
    state, against the worded rule. *)
Lemma replace_runs_hyphenate (l : list ascii) :
  let s := string_of_list_ascii (SlugSpec.lowerCase l) in
  list_ascii_of_string (replaceNonAlnumRuns false s)
  = SlugSpec.hyphenateRuns (SlugSpec.lowerCase l)
  /\ forall x,
      SlugSpec.isAlphanumeric x = false ->
      "-"%char :: list_ascii_of_string (replaceNonAlnumRuns true s)
      = SlugSpec.hyphenateRuns (x :: SlugSpec.lowerCase l).
Proof.
  induction l as [|c r [IHa IHb]]; simpl.
  - split; [reflexivity|]. intros x Hx. now rewrite Hx.
  - rewrite lowered_class.
    destruct (SlugSpec.isAlphanumeric (JS.lowerChar c)) eqn:Hc.
    + split.
      * simpl. now rewrite IHa.
      * intros x Hx. rewrite Hx. simpl. now rewrite IHa.
    + split.
      * simpl. rewrite (IHb _ Hc). simpl. now rewrite Hc.
      * intros x Hx. rewrite Hx. rewrite (IHb _ Hc). simpl.
        now rewrite Hc.
Qed.

Lemma list_stripLeading (s : string) :
  list_ascii_of_string (stripLeadingHyphens s)
  = SlugSpec.dropHyphens (list_ascii_of_string s).
Proof.
  induction s as [|c r IH]; simpl; [reflexivity|].
  unfold isHyphen. destruct (c =? "-")%char; [exact IH | reflexivity].
Qed.

Lemma dropHyphens_app (a b : list ascii) :
  SlugSpec.dropHyphens (a ++ b)
  = match SlugSpec.dropHyphens a with
    | [] => SlugSpec.dropHyphens b
    | d => d ++ b
    end.
Proof.
  induction a as [|c r IH]; simpl; [reflexivity|].
  destruct (c =? "-")%char; [exact IH | reflexivity].
Qed.

Lemma list_stripTrailing (s : string) :
  list_ascii_of_string (stripTrailingHyphens s)
  = rev (SlugSpec.dropHyphens (rev (list_ascii_of_string s))).
Proof.
  induction s as [|c r IH]; simpl; [reflexivity|].
  rewrite dropHyphens_app.
  destruct (SlugSpec.dropHyphens (rev (list_ascii_of_string r)))
    as [|d ds] eqn:Hd.
  - simpl in IH.
    destruct (stripTrailingHyphens r); [|discriminate].
    simpl. unfold isHyphen. destruct (c =? "-")%char; reflexivity.
  - rewrite rev_app_distr. simpl (rev [c] ++ _).
    destruct (stripTrailingHyphens r) as [|c' r'] eqn:Hs.
    + simpl in IH. symmetry in IH. apply app_eq_nil in IH as [_ IH].
      discriminate.
    + simpl. f_equal. exact IH.
Qed.

Lemma generateSlug_as_worded (title : string) :
  generateSlug title = SlugSpec.slug_of_title title.
Proof.
  unfold generateSlug, SlugSpec.slug_of_title, SlugSpec.stripHyphens.
  rewrite <- (string_of_list_ascii_of_string (stripTrailingHyphens _)).
  f_equal. rewrite list_stripTrailing, list_stripLeading.
  pose proof (replace_runs_hyphenate (list_ascii_of_string title)) as [H _].
  simpl in H. rewrite <- list_toLowerCase in H.
  rewrite string_of_list_ascii_of_string in H.
  rewrite H, list_toLowerCase. reflexivity.
Qed.

(** C8.  On every store, [createPost] of
    [{ title: "Hello World", content: "0123456789" }] returns a post
    with slug ["hello-world"], status draft, [published] false and
    [viewCount] 0.  For every title the generated slug is the title
    lower-cased, with every run of non-alphanumeric characters replaced
    by one hyphen and leading and trailing hyphens stripped, and it is
    the slug of the created post whenever the input names none. *)
Theorem createPost_hello_world_and_generated_slug :
  (forall (st : Store) (uuid authorUuid : string) (now : JS.Date),
      exists p st',
        createPost uuid authorUuid now helloWorld st = (Ok p, st')
        /\ Post.slug p = "hello-world"
        /\ Post.status p = draft
        /\ Post.published p = false
        /\ Post.viewCount p = 0)
  /\ (forall title, generateSlug title = SlugSpec.slug_of_title title)
  /\ (forall (st : Store) (uuid authorUuid : string) (now : JS.Date)
             title content excerpt category tags featuredImage status
             published,
        exists p st',
          createPost uuid authorUuid now
                     (CreatePostInput.mk title None content excerpt
                                         category tags featuredImage
                                         status published) st
          = (Ok p, st')
          /\ Post.slug p = SlugSpec.slug_of_title title).
Proof.
  split; [|split].
  - intros st uuid authorUuid now.
    eexists. eexists. split; [reflexivity|]. simpl.
    repeat split; reflexivity.
  - exact generateSlug_as_worded.
  - intros. eexists. eexists. split; [reflexivity|]. simpl.
    apply generateSlug_as_worded.
Qed.

End Slug.

(** ** Arrays: sorting, slicing and counting pages *)

Section ArrayFacts.
Context {A : Type}.
Implicit Types (l : list A) (c : A -> A -> Z).

Lemma sort_insert_perm c (x : A) l :
  Permutation (x :: l) (JS.sort_insert c x l).
Proof.
  induction l as [|y r IH]; simpl; [reflexivity|].
  destruct (c x y <? 0); [reflexivity|].
  rewrite perm_swap. now constructor.
Qed.

Lemma fold_insert_perm c l (placed : list A) :
  Permutation (l ++ placed)
              (fold_left (fun placed x => JS.sort_insert c x placed)
                         l placed).
Proof.
  revert placed. induction l as [|x r IH]; intros placed; simpl.
  - reflexivity.
  - rewrite <- IH. rewrite <- sort_insert_perm.
    apply Permutation_middle.
Qed.

Lemma sort_insert_in c (x y : A) l :
  In y (JS.sort_insert c x l) <-> y = x \/ In y l.
Proof.
  split.
  - intros H.
    apply (Permutation_in _ (Permutation_sym (sort_insert_perm c x l))) in H.
    destruct H as [->|H]; [left; reflexivity | right; exact H].
  - intros H. apply (Permutation_in _ (sort_insert_perm c x l)).
    destruct H as [->|H]; [left; reflexivity | right; exact H].
Qed.

(** Inserting [x] keeps the placed elements by rank when the comparator
    ranks them and [x]. *)
Lemma sort_insert_sorted c (x : A) l :
  JS.ranks c (x :: l) ->
  StronglySorted (fun u v => JS.precedes c v u = false) l ->
  StronglySorted (fun u v => JS.precedes c v u = false)
                 (JS.sort_insert c x l).
Proof.
  intros Hranks. induction l as [|y r IH]; simpl; intros Hs.
  - repeat constructor.
  - inversion Hs as [|y' r' Hr Hall]; subst.
    destruct (c x y <? 0) eqn:Hc.
    + constructor; [exact Hs|].
      assert (Hyx : JS.precedes c y x = false).
      { unfold JS.precedes. rewrite Hc. apply andb_false_r. }
      constructor; [exact Hyx|].
      rewrite Forall_forall in *. intros w Hw.
      destruct (JS.precedes c w x) eqn:Hwx; [|reflexivity].
      destruct (Hranks w y x) as [H|H];
        [right; right; exact Hw | right; left; reflexivity
         | left; reflexivity | exact Hwx | | congruence].
      rewrite (Hall w Hw) in H. discriminate.
    + constructor.
      * apply IH; [|exact Hr].
        intros u v w Hu Hv Hw. apply Hranks.
        -- destruct Hu as [->|Hu];
             [left; reflexivity | right; right; exact Hu].
        -- destruct Hv as [->|Hv];
             [left; reflexivity | right; right; exact Hv].
        -- destruct Hw as [->|Hw];
             [left; reflexivity | right; right; exact Hw].
      * rewrite Forall_forall in *. intros w Hw.
        apply sort_insert_in in Hw as [->|Hw]; [|now apply Hall].
        unfold JS.precedes. now rewrite Hc.
Qed.

Lemma fold_insert_sorted c l :
  forall placed : list A,
    JS.ranks c (placed ++ l) ->
    StronglySorted (fun u v => JS.precedes c v u = false) placed ->
    StronglySorted (fun u v => JS.precedes c v u = false)
                   (fold_left (fun placed x => JS.sort_insert c x placed)
                              l placed).
Proof.
  induction l as [|x r IH]; intros placed Hranks Hs; simpl; [exact Hs|].
  apply IH.
  - assert (Hin : forall u, In u (JS.sort_insert c x placed ++ r) ->
                            In u (placed ++ x :: r)).
    { intros u Hu. apply in_app_or in Hu as [Hu|Hu].
      - apply sort_insert_in in Hu as [->|Hu].
        + apply in_or_app. right. left. reflexivity.
        + apply in_or_app. left. exact Hu.
      - apply in_or_app. right. right. exact Hu. }
    intros u v w Hu Hv Hw. apply Hranks; now apply Hin.
  - apply sort_insert_sorted; [|exact Hs].
    intros u v w Hu Hv Hw. apply Hranks; apply in_or_app; simpl.
    + destruct Hu as [->|Hu]; [right; left; reflexivity | left; exact Hu].
    + destruct Hv as [->|Hv]; [right; left; reflexivity | left; exact Hv].
    + destruct Hw as [->|Hw]; [right; left; reflexivity | left; exact Hw].
Qed.

(** A list ordered by [R] is ordered by every relation that holds of
    its elements wherever [R] does. *)
Lemma StronglySorted_weaken (R R' : A -> A -> Prop) l :
  (forall x y, In x l -> In y l -> R x y -> R' x y) ->
  StronglySorted R l -> StronglySorted R' l.
Proof.
  induction l as [|x r IH]; intros Himp Hs; [constructor|].
  inversion Hs as [|x' r' Hr Hall]; subst. constructor.
  - apply IH; [|exact Hr].
    intros u v Hu Hv. apply Himp; right; assumption.
  - rewrite Forall_forall in *. intros y Hy.
    apply Himp; [left; reflexivity | right; exact Hy | now apply Hall].
Qed.

(** In an ordered list without repetition, an element differs from all
    that follow it. *)
Lemma StronglySorted_distinct (R : A -> A -> Prop) l :
  NoDup l -> StronglySorted R l ->
  StronglySorted (fun x y => R x y /\ x <> y) l.
Proof.
  induction l as [|x r IH]; intros Hnd Hs; [constructor|].
  inversion Hnd as [|x' r' Hnotin Hnd']; subst.
  inversion Hs as [|x' r' Hr Hall]; subst. constructor.
  - now apply IH.
  - rewrite Forall_forall in *. intros y Hy. split; [now apply Hall|].
    intros ->. contradiction.
Qed.

(** A list whose elements are pairwise related by an irreflexive
    relation has no repetition. *)
Lemma ForallOrdPairs_NoDup (P : A -> A -> Prop) l :
  (forall x, ~ P x x) -> ForallOrdPairs P l -> NoDup l.
Proof.
  intros Hirr. induction 1 as [|x r Hx Hr IH]; constructor.
  - intros Hin. rewrite Forall_forall in Hx. exact (Hirr x (Hx x Hin)).
  - exact IH.
Qed.

(** The number of elements of the slice [[start, start + limit)]. *)
Lemma Array_slice_length (start limit : Z) l :
  0 <= start -> 0 <= limit ->
  let len := Z.of_nat (List.length l) in
  Z.of_nat (List.length (JS.Array_slice start (start + limit) l))
  = if 0 <? len - start then Z.min limit (len - start) else 0.
Proof.
  intros Hs Hl len. subst len. unfold JS.Array_slice.
  destruct (Z.ltb_spec start 0) as [?|_]; [lia|].
  destruct (Z.ltb_spec (start + limit) 0) as [?|_]; [lia|].
  rewrite length_firstn, length_skipn.
  destruct (Z.ltb_spec 0 (Z.of_nat (List.length l) - start)); lia.
Qed.

Lemma Array_slice_nil (start end_ : Z) :
  JS.Array_slice start end_ (@nil A) = [].
Proof. unfold JS.Array_slice. now rewrite skipn_nil, firstn_nil. Qed.

Lemma Array_slice_beyond (start end_ : Z) l :
  Z.of_nat (List.length l) <= start -> JS.Array_slice start end_ l = [].
Proof.
  intros H. unfold JS.Array_slice.
  destruct (Z.ltb_spec start 0) as [?|_]; [lia|].
  rewrite (Z.min_r start) by lia.
  rewrite skipn_all2 by lia. now rewrite firstn_nil.
Qed.

End ArrayFacts.

(** The sort by insertion does what is asked of an engine's sort. *)
Lemma insertion_sort_rearranges : JS.rearranges JS.insertion_sort.
Proof.
  intros A c l. unfold JS.Array_sort, JS.insertion_sort.
  rewrite <- fold_insert_perm. now rewrite app_nil_r.
Qed.

Lemma insertion_sort_sorts : JS.sorts JS.insertion_sort.
Proof.
  intros A c l Hranks. unfold JS.Array_sort, JS.insertion_sort.
  apply fold_insert_sorted; [exact Hranks | constructor].
Qed.

Section SortFacts.
Variable engine : JS.ArraySort.
Hypothesis engine_rearranges : JS.rearranges engine.
Context {A : Type}.
Implicit Types (l : list A) (c : A -> A -> Z).

Lemma Array_sort_perm c l : Permutation l (JS.Array_sort engine c l).
Proof. apply engine_rearranges. Qed.

Lemma Array_sort_length c l :
  List.length (JS.Array_sort engine c l) = List.length l.
Proof. symmetry. apply Permutation_length, Array_sort_perm. Qed.

Lemma Array_sort_NoDup c l : NoDup l -> NoDup (JS.Array_sort engine c l).
Proof. apply Permutation_NoDup, Array_sort_perm. Qed.

Lemma Array_sort_nil c : JS.Array_sort engine c [] = [].
Proof. apply Permutation_nil, Array_sort_perm. Qed.

End SortFacts.

Lemma Math_ceil_div_zero (limit : Z) : JS.Math_ceil_div 0 limit = 0.
Proof.
  unfold JS.Math_ceil_div. change (- 0) with 0.
  now rewrite Zdiv_0_l.
Qed.

(** [Math.ceil(total / limit)] pages of [limit] records hold them all. *)
Lemma Math_ceil_div_covers (total limit : Z) :
  0 < limit -> total <= JS.Math_ceil_div total limit * limit.
Proof.
  intros Hl. unfold JS.Math_ceil_div.
  pose proof (Z.mul_div_le (- total) limit Hl). lia.
Qed.

(** ** The relational operator *)

Section RelationalFacts.
Variable StringToNumber : string -> JS.Number.

Lemma num_gt_asym (a b : JS.Number) :
  JS.num_gt a b = true -> JS.num_gt b a = false.
Proof.
  destruct a as [| |x|], b as [| |y|]; simpl;
    try reflexivity; try discriminate.
  intros H. apply negb_true_iff in H. apply negb_false_iff.
  apply Qle_bool_iff, Qlt_le_weak, Qnot_le_lt.
  intros Hle. apply Qle_bool_iff in Hle. congruence.
Qed.

Lemma string_ltb_asym (x y : string) :
  String.ltb x y = true -> String.ltb y x = false.
Proof.
  unfold String.ltb. rewrite (String.compare_antisym x y).
  destruct (String.compare y x); simpl; congruence.
Qed.

Lemma gt_asym (a b : JS.Value) :
  JS.gt StringToNumber a b = true -> JS.gt StringToNumber b a = false.
Proof.
  unfold JS.gt.
  destruct (JS.ToPrimitive a), (JS.ToPrimitive b);
    solve [apply num_gt_asym | apply string_ltb_asym].
Qed.

Lemma gt_irrefl (a : JS.Value) : JS.gt StringToNumber a a = false.
Proof.
  destruct (JS.gt StringToNumber a a) eqn:H; [|reflexivity].
  now rewrite (gt_asym _ _ H) in H.
Qed.

End RelationalFacts.

(** ** Listing *)

Section Listing.
Import Common ListOrder Fixtures.
Import PaginationOutput.

Variable engine : JS.ArraySort.
Hypothesis engine_rearranges : JS.rearranges engine.
Hypothesis engine_sorts : JS.sorts engine.
Variable StringToNumber : string -> JS.Number.

Local Abbreviation listPosts :=
  (PostProcedures.listPosts engine StringToNumber).
Local Abbreviation listUsers :=
  (UserProcedures.listUsers engine StringToNumber).

Lemma valid_pagination_bounds (pagination : option PaginationInput.t) :
  valid_pagination pagination = true ->
  1 <= page_of pagination /\ 1 <= limit_of pagination <= 100.
Proof.
  unfold valid_pagination, page_of, limit_of, PaginationInput.valid.
  destruct (defaulted pagination PaginationInput.none) as [p l sb so].
  simpl. intros H. apply andb_true_iff in H as [Hp Hl].
  destruct p as [p|], l as [l|]; simpl; lia.
Qed.

(** What a listing returns, in terms of the filtered and sorted
    records. *)
Lemma listPosts_run (pagination : option PaginationInput.t)
      (filters : option PostSchema.PostFilters.t)
      (posts : PostProcedures.Store) :
  let sorted :=
    JS.Array_sort engine
      (sortComparator StringToNumber PostSchema.Post.prop
                      (sortBy_of pagination) (sortOrder_of pagination))
      (PostProcedures.applyFilters
         (defaulted filters PostSchema.PostFilters.none)
         (Map.values posts)) in
  let page := page_of pagination in
  let limit := limit_of pagination in
  let total := Z.of_nat (List.length sorted) in
  listPosts (PostProcedures.ListInput.mk pagination filters) posts
  = (Ok (mk (map PostProcedures.publicPost
                 (JS.Array_slice ((page - 1) * limit)
                                 ((page - 1) * limit + limit) sorted))
            total page (JS.Math_ceil_div total limit)
            (page <? JS.Math_ceil_div total limit) (1 <? page)),
     posts).
Proof. reflexivity. Qed.

Lemma listUsers_run (pagination : option PaginationInput.t)
      (filters : option UserSchema.UserFilters.t)
      (users : UserProcedures.Store) :
  let sorted :=
    JS.Array_sort engine
      (sortComparator StringToNumber UserSchema.User.prop
                      (sortBy_of pagination) (sortOrder_of pagination))
      (UserProcedures.applyFilters
         (defaulted filters UserSchema.UserFilters.none)
         (Map.values users)) in
  let page := page_of pagination in
  let limit := limit_of pagination in
  let total := Z.of_nat (List.length sorted) in
  listUsers (UserProcedures.ListInput.mk pagination filters) users
  = (Ok (mk (map UserProcedures.publicUser
                 (JS.Array_slice ((page - 1) * limit)
                                 ((page - 1) * limit + limit) sorted))
            total page (JS.Math_ceil_div total limit)
            (page <? JS.Math_ceil_div total limit) (1 <? page)),
     users).
Proof. reflexivity. Qed.

Lemma applyFilters_posts_nil (f : PostSchema.PostFilters.t) :
  PostProcedures.applyFilters f [] = [].
Proof.
  unfold PostProcedures.applyFilters.
  destruct f as [s a st c [[|t ts]|] p pa pb]; simpl;
    repeat match goal with
           | |- context [match ?x with _ => _ end] => destruct x; simpl
           end; reflexivity.
Qed.

Lemma applyFilters_users_nil (f : UserSchema.UserFilters.t) :
  UserProcedures.applyFilters f [] = [].
Proof.
  unfold UserProcedures.applyFilters.
  destruct f as [s r st ca cb]; simpl;
    repeat match goal with
           | |- context [match ?x with _ => _ end] => destruct x; simpl
           end; reflexivity.
Qed.

(** A page beyond the last one is an empty slice. *)
Lemma page_beyond_range {T : Type} (l : list T) (page limit : Z) :
  0 < limit ->
  JS.Math_ceil_div (Z.of_nat (List.length l)) limit < page ->
  JS.Array_slice ((page - 1) * limit) ((page - 1) * limit + limit) l = [].
Proof.
  intros Hl Hlt. apply Array_slice_beyond.
  pose proof (Math_ceil_div_covers (Z.of_nat (List.length l)) limit Hl).
  nia.
Qed.

(** The length of a page of a sorted list of [total] records. *)
Lemma page_length {T : Type} (c : T -> T -> Z) (l : list T)
      (page limit : Z) :
  1 <= page -> 1 <= limit ->
  let total := Z.of_nat (List.length l) in
  let start := (page - 1) * limit in
  let n := Z.of_nat (List.length
                       (JS.Array_slice start (start + limit)
                                       (JS.Array_sort engine c l))) in
  n <= limit
  /\ n = if 0 <? total - start then Z.min limit (total - start) else 0.
Proof.
  intros Hp Hl total start n.
  assert (Hn : n = if 0 <? total - start
                   then Z.min limit (total - start) else 0).
  { subst n total. rewrite Array_slice_length by nia.
    now rewrite (Array_sort_length engine engine_rearranges). }
  split; [|exact Hn].
  rewrite Hn. destruct (0 <? total - start); lia.
Qed.

(** C2.  For every store, every filter and every valid pagination, the
    page that [listPosts] and [listUsers] return has at most [limit]
    records: [min(limit, total - (page - 1) * limit)] of them when that
    is positive and none otherwise, where [total], which they return
    too, is the number of records that pass the filters. *)
Theorem list_page_length
        (pagination : option PaginationInput.t)
        (postFilters : option PostSchema.PostFilters.t)
        (userFilters : option UserSchema.UserFilters.t)
        (posts : PostProcedures.Store) (users : UserProcedures.Store) :
  valid_pagination pagination = true ->
  let page := page_of pagination in
  let limit := limit_of pagination in
  (exists out,
      listPosts (PostProcedures.ListInput.mk pagination postFilters) posts
      = (Ok out, posts)
      /\ let n := Z.of_nat (List.length (data out)) in
         let passing :=
           Z.of_nat
             (List.length
                (PostProcedures.applyFilters
                   (defaulted postFilters PostSchema.PostFilters.none)
                   (Map.values posts))) in
         total out = passing
         /\ n <= limit
         /\ n = if 0 <? passing - (page - 1) * limit
                then Z.min limit (passing - (page - 1) * limit) else 0)
  /\ (exists out,
         listUsers (UserProcedures.ListInput.mk pagination userFilters)
                   users
         = (Ok out, users)
         /\ let n := Z.of_nat (List.length (data out)) in
            let passing :=
              Z.of_nat
                (List.length
                   (UserProcedures.applyFilters
                      (defaulted userFilters UserSchema.UserFilters.none)
                      (Map.values users))) in
            total out = passing
            /\ n <= limit
            /\ n = if 0 <? passing - (page - 1) * limit
                   then Z.min limit (passing - (page - 1) * limit) else 0).
Proof.
  intros Hvalid page limit.
  destruct (valid_pagination_bounds _ Hvalid) as [Hp [Hl _]].
  split.
  - eexists. split; [reflexivity|].
    cbn [data total]. rewrite length_map.
    split; [now rewrite (Array_sort_length engine engine_rearranges)|].
    apply page_length; assumption.
  - eexists. split; [reflexivity|].
    cbn [data total]. rewrite length_map.
    split; [now rewrite (Array_sort_length engine engine_rearranges)|].
    apply page_length; assumption.
Qed.

(** C5, as the code has it.  On the empty store and for every valid
    pagination, [listPosts] and [listUsers] return no record, [total] 0,
    [totalPages] 0 and [hasNextPage] false, while [hasPreviousPage]
    tells whether [page] is greater than 1, so that it is false on the
    first page.  On every store, a page beyond [totalPages] comes back
    with an empty [data], as a result and not as an error. *)
Theorem list_empty_store_and_page_beyond_range
        (pagination : option PaginationInput.t)
        (postFilters : option PostSchema.PostFilters.t)
        (userFilters : option UserSchema.UserFilters.t) :
  valid_pagination pagination = true ->
  let page := page_of pagination in
  let postInput := PostProcedures.ListInput.mk pagination postFilters in
  let userInput := UserProcedures.ListInput.mk pagination userFilters in
  (exists out,
      listPosts postInput Map.empty = (Ok out, Map.empty)
      /\ data out = [] /\ total out = 0 /\ totalPages out = 0
      /\ hasNextPage out = false
      /\ hasPreviousPage out = (1 <? page)
      /\ (page = 1 -> hasPreviousPage out = false))
  /\ (exists out,
         listUsers userInput Map.empty = (Ok out, Map.empty)
         /\ data out = [] /\ total out = 0 /\ totalPages out = 0
         /\ hasNextPage out = false
         /\ hasPreviousPage out = (1 <? page)
         /\ (page = 1 -> hasPreviousPage out = false))
  /\ (forall posts : PostProcedures.Store,
         exists out,
           listPosts postInput posts = (Ok out, posts)
           /\ (totalPages out < page -> data out = []))
  /\ (forall users : UserProcedures.Store,
         exists out,
           listUsers userInput users = (Ok out, users)
           /\ (totalPages out < page -> data out = [])).
Proof.
  intros Hvalid page postInput userInput.
  destruct (valid_pagination_bounds _ Hvalid) as [Hp [Hl _]].
  unfold postInput, userInput.
  split; [|split; [|split]].
  - rewrite listPosts_run. eexists. split; [reflexivity|].
    cbn [data total totalPages hasNextPage hasPreviousPage].
    change (Map.values Map.empty) with (@nil PostSchema.Post.t).
    rewrite applyFilters_posts_nil.
    rewrite (Array_sort_nil engine engine_rearranges).
    change (Z.of_nat (List.length (@nil PostSchema.Post.t))) with 0.
    rewrite Math_ceil_div_zero, Array_slice_nil.
    split; [reflexivity|]. split; [reflexivity|]. split; [reflexivity|].
    split; [apply Z.ltb_ge; lia|]. split; [reflexivity|].
    unfold page. now intros ->.
  - rewrite listUsers_run. eexists. split; [reflexivity|].
    cbn [data total totalPages hasNextPage hasPreviousPage].
    change (Map.values Map.empty) with (@nil UserSchema.User.t).
    rewrite applyFilters_users_nil.
    rewrite (Array_sort_nil engine engine_rearranges).
    change (Z.of_nat (List.length (@nil UserSchema.User.t))) with 0.
    rewrite Math_ceil_div_zero, Array_slice_nil.
    split; [reflexivity|]. split; [reflexivity|]. split; [reflexivity|].
    split; [apply Z.ltb_ge; lia|]. split; [reflexivity|].
    unfold page. now intros ->.
  - intros posts. rewrite listPosts_run. eexists. split; [reflexivity|].
    cbn [data totalPages]. intros Hlt.
    rewrite page_beyond_range; [reflexivity | lia | exact Hlt].
  - intros users. rewrite listUsers_run. eexists. split; [reflexivity|].
    cbn [data totalPages]. intros Hlt.
    rewrite page_beyond_range; [reflexivity | lia | exact Hlt].
Qed.

Lemma comparator_negative {T : Type} (prop : T -> string -> JS.Value)
      (sortBy : string) (sortOrder : SortOrder) (u v : T) :
  (sortComparator StringToNumber prop sortBy sortOrder u v <? 0)
  = match sortOrder with
    | asc => negb (JS.gt StringToNumber (prop u sortBy) (prop v sortBy))
    | desc => JS.gt StringToNumber (prop u sortBy) (prop v sortBy)
    end.
Proof.
  unfold sortComparator.
  destruct sortOrder, (JS.gt StringToNumber _ _); reflexivity.
Qed.

(** With valid dates and with strings the comparator is the order of
    the time values and of the code units. *)
Lemma gt_dates (x y : Z) :
  JS.gt StringToNumber (JS.JDate (JS.ValidDate x))
        (JS.JDate (JS.ValidDate y))
  = (y <? x).
Proof.
  unfold JS.gt, JS.ToPrimitive, JS.ToNumber, JS.valueOf, JS.ofZ, JS.num_gt.
  unfold Qle_bool, inject_Z. cbn [Qnum Qden].
  rewrite !Z.mul_1_r. destruct (Z.leb_spec x y), (Z.ltb_spec y x);
    simpl; try reflexivity; lia.
Qed.

Lemma gt_undefined (v : JS.Value) :
  JS.gt StringToNumber JS.JUndefined v = false
  /\ JS.gt StringToNumber v JS.JUndefined = false.
Proof.
  unfold JS.gt. split.
  - destruct (JS.ToPrimitive v); reflexivity.
  - destruct (JS.ToPrimitive v) as [| | |n| | |]; cbn;
      try reflexivity; try (destruct n; reflexivity);
      match goal with
      | |- JS.num_gt ?a JS.NaN = false => destruct a; reflexivity
      end.
Qed.

(** On strings [<] by code units is a strict weak order. *)
Lemma string_ltb_rank (w v u : string) :
  String.ltb w u = true ->
  String.ltb v u = true \/ String.ltb w v = true.
Proof.
  unfold String.ltb. intros Hwu.
  destruct (String.compare w v) eqn:Hwv.
  - apply String.compare_eq_iff in Hwv. subst v. left. exact Hwu.
  - right. reflexivity.
  - left.
    assert (Hvw : String.compare v w = Lt)
      by (rewrite String.compare_antisym, Hwv; reflexivity).
    assert (Hlt : String.compare w u = Lt)
      by (destruct (String.compare w u); congruence).
    apply OrderedTypeEx.String_as_OT.cmp_lt in Hvw, Hlt.
    pose proof (OrderedTypeEx.String_as_OT.lt_trans _ _ _ Hvw Hlt) as H.
    apply OrderedTypeEx.String_as_OT.cmp_lt in H.
    change (String.compare v u = Lt) in H. now rewrite H.
Qed.

(** [>] ranks records whose fields are all strings, and records whose
    fields are all valid dates. *)
Lemma ranked_strings {T : Type} (prop : T -> string -> JS.Value)
      (sortBy : string) (l : list T) :
  Forall (fun u => exists s, prop u sortBy = JS.JString s) l ->
  ranked StringToNumber prop sortBy l.
Proof.
  intros Hall u v w Hu Hv Hw. rewrite Forall_forall in Hall.
  destruct (Hall u Hu) as [su ->], (Hall v Hv) as [sv ->],
    (Hall w Hw) as [sw ->].
  unfold JS.gt. cbn [JS.ToPrimitive]. apply string_ltb_rank.
Qed.

Lemma ranked_dates {T : Type} (prop : T -> string -> JS.Value)
      (sortBy : string) (l : list T) :
  Forall (fun u => exists ms, prop u sortBy = JS.JDate (JS.ValidDate ms))
         l ->
  ranked StringToNumber prop sortBy l.
Proof.
  intros Hall u v w Hu Hv Hw. rewrite Forall_forall in Hall.
  destruct (Hall u Hu) as [mu ->], (Hall v Hv) as [mv ->],
    (Hall w Hw) as [mw ->].
  rewrite !gt_dates, !Z.ltb_lt. lia.
Qed.

(** What the comparator puts strictly before is what the field, in the
    direction of the listing, puts before. *)
Lemma comparator_precedes {T : Type} (prop : T -> string -> JS.Value)
      (sortBy : string) (sortOrder : SortOrder) (u v : T) :
  JS.precedes (sortComparator StringToNumber prop sortBy sortOrder) u v
  = match sortOrder with
    | asc => JS.gt StringToNumber (prop v sortBy) (prop u sortBy)
    | desc => JS.gt StringToNumber (prop u sortBy) (prop v sortBy)
    end.
Proof.
  unfold JS.precedes. rewrite !comparator_negative.
  destruct (JS.gt StringToNumber (prop u sortBy) (prop v sortBy)) eqn:Huv.
  - rewrite (gt_asym _ _ _ Huv). now destruct sortOrder.
  - destruct sortOrder; simpl; [|reflexivity].
    now rewrite negb_involutive.
Qed.

(** A comparator of records that [>] ranks by the field ranks them. *)
Lemma ranked_ranks {T : Type} (prop : T -> string -> JS.Value)
      (sortBy : string) (sortOrder : SortOrder) (l : list T) :
  ranked StringToNumber prop sortBy l ->
  JS.ranks (sortComparator StringToNumber prop sortBy sortOrder) l.
Proof.
  intros Hranked x y z Hx Hy Hz. rewrite !comparator_precedes.
  destruct sortOrder.
  - intros Hzx. destruct (Hranked z y x Hz Hy Hx Hzx) as [H|H]; auto.
  - now apply Hranked.
Qed.

Lemma told_apart_NoDup {T : Type} (prop : T -> string -> JS.Value)
      (sortBy : string) (l : list T) :
  told_apart StringToNumber prop sortBy l -> NoDup l.
Proof.
  apply ForallOrdPairs_NoDup.
  intros x [H|H]; now rewrite gt_irrefl in H.
Qed.

(** Records that [>] ranks by the field come out of the sort with no
    record in front of one it is to follow. *)
Lemma Array_sort_not_after {T : Type} (prop : T -> string -> JS.Value)
      (sortBy : string) (sortOrder : SortOrder) (l : list T) :
  ranked StringToNumber prop sortBy l ->
  StronglySorted (not_after StringToNumber prop sortBy sortOrder)
                 (JS.Array_sort
                    engine
                    (sortComparator StringToNumber prop sortBy sortOrder)
                    l).
Proof.
  intros Hranked.
  pose proof (engine_sorts _ _ _ (ranked_ranks prop sortBy sortOrder
                                               l Hranked)) as Hs.
  revert Hs. apply StronglySorted_weaken. intros x y _ _.
  rewrite comparator_precedes. unfold not_after.
  now destruct sortOrder.
Qed.

(** If [>] tells them apart besides, each record comes out in front of
    all those it is to precede. *)
Lemma Array_sort_before {T : Type} (prop : T -> string -> JS.Value)
      (sortBy : string) (sortOrder : SortOrder) (l : list T) :
  ranked StringToNumber prop sortBy l ->
  told_apart StringToNumber prop sortBy l ->
  StronglySorted (before StringToNumber prop sortBy sortOrder)
                 (JS.Array_sort
                    engine
                    (sortComparator StringToNumber prop sortBy sortOrder)
                    l).
Proof.
  intros Hranked Hapart.
  pose proof (Array_sort_not_after prop sortBy sortOrder l Hranked) as Hs.
  pose proof (Array_sort_NoDup
                engine engine_rearranges
                (sortComparator StringToNumber prop sortBy sortOrder) l
                (told_apart_NoDup _ _ _ Hapart)) as Hnd.
  apply (StronglySorted_distinct _ _ Hnd) in Hs.
  revert Hs. apply StronglySorted_weaken.
  intros x y Hx Hy [Hc Hne].
  apply (Permutation_in
           _ (Permutation_sym
                (Array_sort_perm engine engine_rearranges _ l))) in Hx, Hy.
  unfold not_after in Hc. unfold before.
  destruct (ForallOrdPairs_In Hapart _ _ Hx Hy) as [Heq|[[H|H]|[H|H]]];
    destruct sortOrder; congruence.
Qed.

Lemma publicPost_view (p : PostSchema.Post.t) :
  PublicView.of_post p (PostProcedures.publicPost p).
Proof. repeat split. Qed.

Lemma publicUser_view (u : UserSchema.User.t) :
  PublicView.of_user u (UserProcedures.publicUser u).
Proof. repeat split. Qed.

Lemma Forall2_map_view {X Y : Type} (R : X -> Y -> Prop) (f : X -> Y)
      (l : list X) :
  (forall x, R x (f x)) -> Forall2 R l (map f l).
Proof.
  intros H. induction l; simpl; constructor; auto.
Qed.


End Listing.

(** ** Listing: concrete runs *)

Section ListingRuns.
Import Common ListOrder Fixtures.
Import PaginationOutput.

(** The second page of one record of the two posts of [twinPosts]. *)
Lemma list_page_length_witness :
  exists out,
    PostProcedures.listPosts
      JS.insertion_sort noNumericStrings
      (PostProcedures.ListInput.mk (Some secondOfOne) None) twinPosts
    = (Ok out, twinPosts)
    /\ total out = 2
    /\ Z.of_nat (List.length (data out)) = 1.
Proof.
  destruct (list_page_length JS.insertion_sort insertion_sort_rearranges
                             noNumericStrings (Some secondOfOne)
                             None None twinPosts seededUsers eq_refl)
    as [[out [Hrun [Htotal [_ Hn]]]] _].
  exists out. split; [exact Hrun|]. split; [exact Htotal | exact Hn].
Defined.

(** The first page of the empty store, and the second page of twenty of
    the two seeded posts. *)
Lemma list_empty_store_and_page_beyond_range_witness :
  (exists out,
      PostProcedures.listPosts
        JS.insertion_sort noNumericStrings
        (PostProcedures.ListInput.mk None None) Map.empty
      = (Ok out, Map.empty)
      /\ total out = 0 /\ totalPages out = 0
      /\ hasNextPage out = false /\ hasPreviousPage out = false)
  /\ (exists out,
         PostProcedures.listPosts
           JS.insertion_sort noNumericStrings
           (PostProcedures.ListInput.mk (Some secondPage) None) seededPosts
         = (Ok out, seededPosts)
         /\ totalPages out = 1 /\ data out = []).
Proof.
  split.
  - destruct (list_empty_store_and_page_beyond_range
                JS.insertion_sort insertion_sort_rearranges
                noNumericStrings None None None eq_refl)
      as [[out [Hrun [_ [Ht [Htp [Hn [_ Hp]]]]]]] _].
    exists out. split; [exact Hrun|]. split; [exact Ht|].
    split; [exact Htp|]. split; [exact Hn | exact (Hp eq_refl)].
  - destruct (list_empty_store_and_page_beyond_range
                JS.insertion_sort insertion_sort_rearranges
                noNumericStrings (Some secondPage) None None eq_refl)
      as [_ [_ [Hposts _]]].
    destruct (Hposts seededPosts) as [out [Hrun Hbeyond]].
    injection Hrun as Hout. subst out.
    eexists. split; [reflexivity|]. split; [reflexivity|].
    apply Hbeyond. reflexivity.
Defined.

(** C5, as stated, fails on the second page of the empty store: there
    [hasPreviousPage] is true. *)
Lemma list_empty_store_second_page_has_previous :
  valid_pagination (Some secondPage) = true
  /\ exists out,
      PostProcedures.listPosts
        JS.insertion_sort noNumericStrings
        (PostProcedures.ListInput.mk (Some secondPage) None) Map.empty
      = (Ok out, Map.empty)
      /\ data out = [] /\ total out = 0 /\ totalPages out = 0
      /\ hasNextPage out = false
      /\ hasPreviousPage out = true.
Proof.
  split; [reflexivity|].
  eexists. split; [reflexivity|]. repeat split.
Qed.



(** With an engine that sorts by insertion, the comparator's answer on
    equal fields decides where such records end up: the descending
    listing of the two posts of [twinPosts] keeps them as the store has
    them, the ascending one returns them the other way round. *)
Lemma listing_of_equal_fields_depends_on_direction :
  let ids pagination :=
    match PostProcedures.listPosts
            JS.insertion_sort noNumericStrings
            (PostProcedures.ListInput.mk pagination None) twinPosts with
    | (Ok out, _) => map PostSchema.PublicPost.id (data out)
    | (Thrown _, _) => []
    end in
  Map.keys twinPosts = [uuidE; uuidG]
  /\ ids None = [uuidE; uuidG]
  /\ ids (Some (PaginationInput.mk None None None (Some asc)))
     = [uuidG; uuidE].
Proof. repeat split. Qed.

End ListingRuns.

(** * Further properties of the procedures *)

(** ** The map: where [set] and [delete] act *)

Section MapShape.
Context {V : Type}.
Implicit Types (k : string) (v : V) (m : Map.t V).

Lemma set_absent k v m :
  Map.get k m = None -> Map.set k v m = m ++ [(k, v)].
Proof.
  induction m as [|[k' v'] r IH]; simpl; [reflexivity|].
  destruct (k' =? k)%string; [discriminate|].
  intros H. now rewrite IH.
Qed.

Lemma set_present k v v0 m :
  Map.get k m = Some v0 ->
  exists m1 m2,
    m = m1 ++ (k, v0) :: m2
    /\ Map.get k m1 = None
    /\ Map.set k v m = m1 ++ (k, v) :: m2.
Proof.
  induction m as [|[k' v'] r IH]; simpl; [discriminate|].
  destruct (String.eqb_spec k' k) as [->|Hne].
  - intros [= ->]. exists [], r. repeat split.
  - intros H. destruct (IH H) as [m1 [m2 [-> [Hn Hs]]]].
    exists ((k', v') :: m1), m2. simpl.
    apply String.eqb_neq in Hne. rewrite Hne, Hs. repeat split.
    exact Hn.
Qed.

Lemma get_none_keys k m : Map.get k m = None <-> ~ In k (Map.keys m).
Proof.
  induction m as [|[k' v'] r IH]; simpl; [tauto|].
  destruct (String.eqb_spec k' k) as [->|Hne].
  - split; [discriminate | intros H; exfalso; apply H; now left].
  - rewrite IH. tauto.
Qed.

Lemma delete_absent k m : Map.get k m = None -> Map.delete k m = m.
Proof.
  induction m as [|[k' v'] r IH]; simpl; [reflexivity|].
  destruct (k' =? k)%string; [discriminate|]. simpl.
  intros H. now rewrite IH.
Qed.

(** Deleting a key that was just added gives the map back. *)
Lemma delete_set_absent k v m :
  Map.get k m = None -> Map.delete k (Map.set k v m) = m.
Proof.
  intros H. rewrite (set_absent _ _ _ H). unfold Map.delete.
  rewrite filter_app. fold (Map.delete k m). rewrite (delete_absent _ _ H).
  simpl. rewrite String.eqb_refl. simpl. apply app_nil_r.
Qed.

Lemma keys_set_distinct k v m :
  NoDup (Map.keys m) -> NoDup (Map.keys (Map.set k v m)).
Proof.
  intros Hnd. destruct (Map.get k m) as [v0|] eqn:Hget.
  - rewrite keys_set_present; [exact Hnd | congruence].
  - rewrite (set_absent _ _ _ Hget). unfold Map.keys.
    rewrite map_app. simpl. apply NoDup_app; [exact Hnd | | ].
    + repeat constructor. intros [].
    + intros a Ha [<-|[]]. now apply get_none_keys in Hget.
Qed.

Lemma keys_delete_distinct k m :
  NoDup (Map.keys m) -> NoDup (Map.keys (Map.delete k m)).
Proof.
  unfold Map.keys, Map.delete. induction m as [|[k' v'] r IH]; simpl.
  - constructor.
  - intros Hnd. inversion Hnd as [|x l Hnotin Hr]; subst.
    destruct (k' =? k)%string; simpl; [now apply IH|].
    constructor; [|now apply IH].
    intros Hin. apply Hnotin. apply in_map_iff in Hin as [e [He Hin]].
    apply filter_In in Hin as [Hin _]. apply in_map_iff. now exists e.
Qed.

Lemma get_in k v m : Map.get k m = Some v -> In (k, v) m.
Proof.
  induction m as [|[k' v'] r IH]; simpl; [discriminate|].
  destruct (String.eqb_spec k' k) as [->|Hne].
  - intros [= ->]. now left.
  - intros H. right. now apply IH.
Qed.

Lemma in_get k v m : NoDup (Map.keys m) -> In (k, v) m -> Map.get k m = Some v.
Proof.
  induction m as [|[k' v'] r IH]; simpl; [intros _ []|].
  intros Hnd. inversion Hnd as [|x l Hnotin Hr]; subst.
  intros [[= -> ->]|Hin].
  - now rewrite String.eqb_refl.
  - destruct (String.eqb_spec k' k) as [->|Hne]; [|now apply IH].
    exfalso. apply Hnotin. apply in_map_iff. now exists (k, v).
Qed.

Lemma in_values v m : In v (Map.values m) <-> exists k, In (k, v) m.
Proof.
  unfold Map.values. rewrite in_map_iff. split.
  - intros [[k v'] [<- Hin]]. now exists k.
  - intros [k Hin]. now exists (k, v).
Qed.

Lemma get_values k v m : Map.get k m = Some v -> In v (Map.values m).
Proof. intros H. apply in_values. exists k. now apply get_in. Qed.

(** A property of all values survives [set] of a value that has it, and
    [delete]. *)
Lemma Forall_values_set (P : V -> Prop) k v m :
  Forall P (Map.values m) -> P v -> Forall P (Map.values (Map.set k v m)).
Proof.
  intros Hall Hv. induction m as [|[k' v'] r IH]; simpl.
  - now constructor.
  - inversion Hall as [|x l Hx Hr]; subst.
    destruct (k' =? k)%string; simpl; constructor; auto.
Qed.

Lemma Forall_values_delete (P : V -> Prop) k m :
  Forall P (Map.values m) -> Forall P (Map.values (Map.delete k m)).
Proof.
  intros Hall. induction m as [|[k' v'] r IH]; simpl; [constructor|].
  inversion Hall as [|x l Hx Hr]; subst.
  destruct (k' =? k)%string; simpl; [|constructor]; auto.
Qed.

Section Unique.
Context {B : Type} (f : V -> list B).

Local Abbreviation all_of m := (flat_map f (Map.values m)).

(** Values that are told apart by [f] stay so when [set] brings a value
    whose marks are those of the value it replaces or new ones. *)
Lemma unique_set k v m :
  NoDup (all_of m) ->
  NoDup (f v) ->
  (forall x, In x (f v) ->
             (exists v0, Map.get k m = Some v0 /\ In x (f v0))
             \/ ~ In x (all_of m)) ->
  NoDup (all_of (Map.set k v m)).
Proof.
  intros Hnd Hv Hx.
  destruct (Map.get k m) as [v0|] eqn:Hget.
  - destruct (set_present k v v0 m Hget) as [m1 [m2 [-> [_ ->]]]].
    unfold Map.values in *. rewrite map_app, flat_map_app in *.
    simpl in *.
    apply (Permutation_NoDup (Permutation_app_swap_app _ _ _)).
    apply (Permutation_NoDup (Permutation_app_swap_app _ _ _)) in Hnd.
    apply NoDup_app; [exact Hv | now apply NoDup_app_remove_l in Hnd|].
    intros x Hin Hrest. destruct (Hx x Hin) as [[v1 [[= <-] Hin0]]|Hnew].
    + apply NoDup_app_remove_r in Hnd as Hf.
      assert (Hdis : forall a, In a (f v0) ->
                               ~ In a (flat_map f (map snd m1)
                                       ++ flat_map f (map snd m2))).
      { clear - Hnd. induction (f v0) as [|b l IH]; [intros a []|].
        simpl in Hnd. inversion Hnd as [|y l' Hn Hl]; subst.
        intros a [<-|Ha].
        - intros Hin. apply Hn. apply in_or_app. now right.
        - now apply IH. }
      now apply (Hdis x).
    + apply Hnew. apply in_app_or in Hrest as [H|H].
      * apply in_or_app. now left.
      * apply in_or_app. right. apply in_or_app. now right.
  - rewrite (set_absent _ _ _ Hget). unfold Map.values.
    rewrite map_app, flat_map_app. simpl. rewrite app_nil_r.
    apply NoDup_app; [exact Hnd | exact Hv|].
    intros x Hin Hv'. destruct (Hx x Hv') as [[v1 [[=] _]]|Hnew].
    now apply Hnew.
Qed.

Lemma unique_delete k m : NoDup (all_of m) -> NoDup (all_of (Map.delete k m)).
Proof.
  induction m as [|[k' v'] r IH]; simpl; [auto|].
  intros Hnd. pose proof (NoDup_app_remove_l _ _ Hnd) as Hr.
  destruct (k' =? k)%string; simpl; [now apply IH|].
  apply NoDup_app.
  - now apply NoDup_app_remove_r in Hnd.
  - now apply IH.
  - intros a Ha Hin.
    assert (Hsub : In a (flat_map f (Map.values r))).
    { apply in_flat_map in Hin as [u [Hu Hau]].
      apply in_flat_map. exists u. split; [|exact Hau].
      apply in_map_iff in Hu as [e [<- He]].
      apply filter_In in He as [He _]. apply in_map_iff. now exists e. }
    clear - Hnd Ha Hsub. induction (f v') as [|b l IH]; [destruct Ha|].
    simpl in Hnd. inversion Hnd as [|y l' Hn Hl]; subst.
    destruct Ha as [<-|Ha]; [|now apply IH].
    apply Hn. apply in_or_app. now right.
Qed.

End Unique.

End MapShape.

(** ** Users: what every call keeps *)

Section UserInvariant.
Import Common UserSchema UserProcedures UserStore.

Lemma user_keyed_get (st : Store) (k : string) (u : User.t) :
  keyed_by_id st -> Map.get k st = Some u -> User.id u = k.
Proof.
  intros Hk Hget. apply get_in in Hget.
  unfold keyed_by_id in Hk. rewrite Forall_forall in Hk.
  now apply Hk in Hget.
Qed.

Lemma user_keyed_set (st : Store) (k : string) (u : User.t) :
  keyed_by_id st -> User.id u = k -> keyed_by_id (Map.set k u st).
Proof.
  unfold keyed_by_id. intros Hall Hid.
  induction st as [|[k' u'] r IH]; simpl.
  - constructor; [now symmetry | constructor].
  - inversion Hall as [|e l Hhd Htl]; subst.
    destruct (k' =? User.id u)%string; constructor; auto.
Qed.

Lemma user_keyed_delete (st : Store) (k : string) :
  keyed_by_id st -> keyed_by_id (Map.delete k st).
Proof.
  unfold keyed_by_id, Map.delete. intros Hall.
  apply Forall_forall. intros e Hin. apply filter_In in Hin as [Hin _].
  revert e Hin. now apply Forall_forall.
Qed.

Lemma emails_flat_map (st : Store) :
  emails st = flat_map (fun u => [User.email u]) (Map.values st).
Proof.
  unfold emails. induction (Map.values st) as [|u r IH]; simpl;
    [reflexivity | now rewrite IH].
Qed.

Lemma find_none_email_fresh (st : Store) (e : string) :
  find (fun v => (User.email v =? e)%string) (Map.values st) = None ->
  ~ In e (emails st).
Proof.
  intros Hfind Hin. unfold emails in Hin.
  apply in_map_iff in Hin as [v [Hv Hin]].
  apply (find_none _ _ Hfind) in Hin. apply String.eqb_neq in Hin.
  contradiction.
Qed.

Lemma find_none_username_fresh (st : Store) (n : string) :
  find (fun v => has_username v n) (Map.values st) = None ->
  ~ In n (usernames st).
Proof.
  intros Hfind Hin. unfold usernames in Hin.
  apply in_flat_map in Hin as [v [Hin Hn]].
  apply (find_none _ _ Hfind) in Hin.
  unfold username_list in Hn. unfold has_username in Hin.
  destruct (User.username v) as [s|]; [|destruct Hn].
  destruct Hn as [<-|[]]. now rewrite String.eqb_refl in Hin.
Qed.

Lemma username_ok_truthy (s : string) :
  username_ok (Some s) = true -> JS.truthy s = true.
Proof.
  unfold username_ok. intros H. apply andb_true_iff in H as [H _].
  apply andb_true_iff in H as [H _].
  destruct s; [discriminate | reflexivity].
Qed.

Lemma NoDup_username_list (u : User.t) : NoDup (username_list u).
Proof.
  unfold username_list. destruct (User.username u); repeat constructor.
  intros [].
Qed.

(** Storing a user under its id keeps the store consistent when its
    email and its username are those of the user it replaces or occur
    nowhere in the store. *)
Lemma consistent_set (st : Store) (k : string) (u : User.t) :
  consistent st ->
  User.id u = k ->
  ((exists u0, Map.get k st = Some u0 /\ User.email u0 = User.email u)
   \/ ~ In (User.email u) (emails st)) ->
  (forall n, User.username u = Some n ->
             (exists u0, Map.get k st = Some u0 /\ User.username u0 = Some n)
             \/ ~ In n (usernames st)) ->
  consistent (Map.set k u st).
Proof.
  intros [Hkeys [Hkeyed [Hemails Hnames]]] Hid Hemail Hname.
  split; [|split; [|split]].
  - now apply keys_set_distinct.
  - now apply user_keyed_set.
  - rewrite emails_flat_map in *. apply unique_set; [exact Hemails | |].
    + repeat constructor. intros [].
    + intros x [<-|[]]. destruct Hemail as [[u0 [Hget He]]|Hfresh].
      * left. exists u0. split; [exact Hget | now left].
      * right. now rewrite <- emails_flat_map.
  - unfold usernames. apply unique_set;
      [exact Hnames | apply NoDup_username_list |].
    intros x Hx. unfold username_list in Hx.
    destruct (User.username u) as [n|] eqn:Hu; [|destruct Hx].
    destruct Hx as [<-|[]].
    destruct (Hname n eq_refl) as [[u0 [Hget Hn]]|Hfresh].
    + left. exists u0. split; [exact Hget|].
      unfold username_list. rewrite Hn. now left.
    + now right.
Qed.

Lemma consistent_delete (st : Store) (k : string) :
  consistent st -> consistent (Map.delete k st).
Proof.
  intros [Hkeys [Hkeyed [Hemails Hnames]]].
  split; [|split; [|split]].
  - now apply keys_delete_distinct.
  - now apply user_keyed_delete.
  - rewrite emails_flat_map in *. now apply unique_delete.
  - unfold usernames. now apply unique_delete.
Qed.

Lemma seed_consistent uuid1 now1 uuid2 now2 :
  consistent (snd (seed uuid1 now1 uuid2 now2 Map.empty)).
Proof.
  unfold seed, createMockUser, bind, gets, modify, ret. simpl.
  destruct (String.eqb_spec uuid1 uuid2) as [->|Hne];
    unfold consistent, keys_distinct, keyed_by_id, emails, usernames; simpl;
    repeat split; repeat constructor; simpl;
    try (intros [H|[]]; congruence); intros [].
Qed.

Lemma createUser_consistent uuid now input (st : Store) :
  consistent st ->
  accepted (CallCreate uuid now input) = true ->
  consistent (snd (createUser uuid now input st)).
Proof.
  intros Hst Hacc. simpl in Hacc. apply andb_true_iff in Hacc as [_ Hname].
  unfold createUser. rewrite bind_gets.
  destruct (find _ _) as [v|] eqn:Hemail; [exact Hst|].
  rewrite bind_gets.
  destruct (if JS.truthy_opt _ then _ else _) as [v|] eqn:Huser;
    [exact Hst|].
  unfold createMockUser. rewrite bind_modify. simpl.
  apply consistent_set; [exact Hst | reflexivity | |]; simpl.
  - right. now apply find_none_email_fresh.
  - intros n Hn. right. rewrite Hn in Hname, Huser.
    apply username_ok_truthy in Hname. simpl in Huser.
    rewrite Hname in Huser. now apply find_none_username_fresh.
Qed.

Lemma updateUser_consistent now input (st : Store) :
  consistent st ->
  accepted (CallUpdate now input) = true ->
  consistent (snd (updateUser now input st)).
Proof.
  intros Hst Hacc. simpl in Hacc. apply andb_true_iff in Hacc as [He Hn].
  unfold updateUser. rewrite bind_gets.
  destruct (Map.get _ st) as [u|] eqn:Hget; [|exact Hst].
  rewrite bind_gets.
  destruct (if changesEmail _ _ then _ else _) as [v|] eqn:Hemail;
    [exact Hst|].
  rewrite bind_gets.
  destruct (if changesUsername _ _ then _ else _) as [v|] eqn:Huser;
    [exact Hst|].
  rewrite bind_modify. simpl.
  pose proof Hst as [_ [Hkeyed _]].
  apply consistent_set; [exact Hst | | |]; simpl.
  - now apply (user_keyed_get st).
  - unfold changesEmail in Hemail.
    destruct (UpdateUserInput.email (UpdateInput.data input)) as [e|];
      simpl in *.
    + rewrite He in Hemail. simpl in Hemail.
      destruct (String.eqb_spec e (User.email u)) as [->|Hne];
        simpl in Hemail.
      * left. now exists u.
      * right. now apply find_none_email_fresh.
    + left. now exists u.
  - intros n Hname. unfold changesUsername in Huser.
    destruct (UpdateUserInput.username (UpdateInput.data input)) as [s|]
      eqn:Hs; simpl in *.
    + injection Hname as <-. apply username_ok_truthy in Hn.
      rewrite Hn in Huser. simpl in Huser.
      destruct (has_username u s) eqn:Hown; simpl in Huser.
      * left. exists u. split; [exact Hget|].
        unfold has_username in Hown.
        destruct (User.username u) as [s'|]; [|discriminate].
        apply String.eqb_eq in Hown. now subst.
      * right. now apply find_none_username_fresh.
    + left. now exists u.
Qed.

Lemma user_call_consistent (c : Call) (st : Store) :
  consistent st -> accepted c = true -> consistent (after c st).
Proof.
  intros Hst Hacc.
  destruct c as [input|email|uuid now input|now input|input];
    unfold after, run, outcome; cbn [snd].
  - unfold getUser. rewrite bind_gets.
    now destruct (Map.get _ st).
  - unfold getUserByEmail. rewrite bind_gets. now destruct (find _ _).
  - now apply createUser_consistent.
  - now apply updateUser_consistent.
  - unfold deleteUser. rewrite bind_gets.
    destruct (Map.get _ st); [|exact Hst].
    rewrite bind_modify. simpl. now apply consistent_delete.
Qed.

(** X1.  In every store the user module can be in, no key occurs twice,
    every user is stored under its own id, no two users have the same
    email and no two have the same username. *)
Theorem reachable_users_are_consistent (st : Store) :
  reachable st -> consistent st.
Proof.
  induction 1 as [uuid1 now1 uuid2 now2 | c st Hr IH Hacc].
  - apply seed_consistent.
  - now apply user_call_consistent.
Qed.

End UserInvariant.

(** ** Users: updating and looking up *)

Section UserUpdates.
Import Common UserSchema UserProcedures UserStore Fixtures.

Lemma reachable_users_are_consistent_witness :
  consistent
    (after (CallCreate uuidW (JS.ValidDate 1700000360000) adaInput)
           seededUsers).
Proof.
  apply reachable_users_are_consistent.
  apply reachable_call; [|reflexivity].
  apply (reachable_seed uuidU (JS.ValidDate 1700000000000)
                        uuidV (JS.ValidDate 1700000000001)).
Defined.

(** X2.  A call of [getUser], [getUserByEmail], [createUser],
    [updateUser] or [deleteUser] that throws leaves the store as it was,
    and what it throws is one of three errors. *)
Theorem user_call_that_throws_changes_nothing
        (c : Call) (st : Store) (e : Error) :
  fst (run c st) = Some e ->
  snd (run c st) = st
  /\ In (message e)
        ["User not found"; "Email already exists"; "Username already taken"].
Proof.
  destruct c as [input|email|uuid now input|now input|input];
    unfold run, outcome; cbn [fst snd].
  - unfold getUser. rewrite bind_gets.
    destruct (Map.get _ st); simpl; [discriminate|].
    intros [= <-]. split; [reflexivity | now left].
  - unfold getUserByEmail. rewrite bind_gets.
    destruct (find _ _); discriminate.
  - unfold createUser. rewrite bind_gets.
    destruct (find _ _); simpl.
    { intros [= <-]. split; [reflexivity | right; now left]. }
    rewrite bind_gets.
    destruct (if JS.truthy_opt _ then _ else _); simpl.
    { intros [= <-]. split; [reflexivity | right; right; now left]. }
    discriminate.
  - unfold updateUser. rewrite bind_gets.
    destruct (Map.get _ st) as [u|]; simpl.
    2:{ intros [= <-]. split; [reflexivity | now left]. }
    rewrite bind_gets.
    destruct (if changesEmail _ _ then _ else _); simpl.
    { intros [= <-]. split; [reflexivity | right; now left]. }
    rewrite bind_gets.
    destruct (if changesUsername _ _ then _ else _); simpl.
    { intros [= <-]. split; [reflexivity | right; right; now left]. }
    discriminate.
  - unfold deleteUser. rewrite bind_gets.
    destruct (Map.get _ st); simpl; [discriminate|].
    intros [= <-]. split; [reflexivity | now left].
Qed.

Lemma user_call_that_throws_changes_nothing_witness :
  snd (run (CallCreate uuidW (JS.ValidDate 1700000360000) adminAgain)
           seededUsers) = seededUsers
  /\ In "Email already exists"
        ["User not found"; "Email already exists"; "Username already taken"].
Proof.
  apply (user_call_that_throws_changes_nothing
           (CallCreate uuidW (JS.ValidDate 1700000360000) adminAgain)
           seededUsers (mkError "Email already exists")).
  reflexivity.
Defined.

(** X3.  [updateUser] refuses an id the store does not hold, a new email
    that a stored user has, and, when the email is not in the way, a new
    username that a stored user has; the store stays as it was. *)
Theorem updateUser_refuses_taken_email_and_username
        (st : Store) (now : JS.Date) (id : string)
        (data : UpdateUserInput.t) :
  let input := UpdateInput.mk id data in
  (Map.get id st = None ->
   updateUser now input st = (Thrown (mkError "User not found"), st))
  /\ (forall u e,
         Map.get id st = Some u ->
         UpdateUserInput.email data = Some e ->
         e <> "" -> e <> User.email u ->
         (exists v, In v (Map.values st) /\ User.email v = e) ->
         updateUser now input st
         = (Thrown (mkError "Email already exists"), st))
  /\ (forall u n,
         Map.get id st = Some u ->
         UpdateUserInput.email data = None ->
         UpdateUserInput.username data = Some n ->
         n <> "" -> User.username u <> Some n ->
         (exists v, In v (Map.values st) /\ User.username v = Some n) ->
         updateUser now input st
         = (Thrown (mkError "Username already taken"), st)).
Proof.
  intros input. split; [|split].
  - intros Hget. unfold updateUser. rewrite bind_gets. simpl.
    now rewrite Hget.
  - intros u e Hget He Hne Hown Hex.
    unfold updateUser. rewrite bind_gets. simpl. rewrite Hget, bind_gets.
    unfold changesEmail. rewrite He. simpl. unfold JS.truthy.
    apply String.eqb_neq in Hne, Hown. rewrite Hne, Hown. simpl.
    apply find_email_some in Hex as [v [Hfind _]]. now rewrite Hfind.
  - intros u n Hget He Hn Hne Hown [v [Hin Hv]].
    unfold updateUser. rewrite bind_gets. simpl. rewrite Hget, bind_gets.
    unfold changesEmail. rewrite He. simpl. rewrite bind_gets.
    unfold changesUsername. rewrite Hn. simpl. unfold JS.truthy.
    apply String.eqb_neq in Hne. rewrite Hne. simpl.
    assert (Hnot : has_username u n = false).
    { unfold has_username. destruct (User.username u) as [s|];
        [|reflexivity].
      apply String.eqb_neq. congruence. }
    rewrite Hnot. simpl.
    destruct (find _ _) as [w|] eqn:Hfind; [reflexivity|].
    apply (find_none _ _ Hfind) in Hin. unfold has_username in Hin.
    rewrite Hv, String.eqb_refl in Hin. discriminate.
Qed.

(** On the seeded users: an absent id, and the second user asking for
    the email and for the username of the first. *)
Lemma updateUser_refuses_taken_email_and_username_witness :
  let now := JS.ValidDate 1700000360000 in
  updateUser now (UpdateInput.mk uuidW toAdminEmail) seededUsers
  = (Thrown (mkError "User not found"), seededUsers)
  /\ updateUser now (UpdateInput.mk uuidV toAdminEmail) seededUsers
     = (Thrown (mkError "Email already exists"), seededUsers)
  /\ updateUser now (UpdateInput.mk uuidV toAdminName) seededUsers
     = (Thrown (mkError "Username already taken"), seededUsers).
Proof.
  intros now. split; [|split].
  - apply (proj1 (updateUser_refuses_taken_email_and_username
                    seededUsers now uuidW toAdminEmail)).
    reflexivity.
  - apply (proj1 (proj2 (updateUser_refuses_taken_email_and_username
                           seededUsers now uuidV toAdminEmail))
                 johnUser "admin@example.com");
      try reflexivity; try discriminate.
    exists adminUser. split; [left; reflexivity | reflexivity].
  - apply (proj2 (proj2 (updateUser_refuses_taken_email_and_username
                           seededUsers now uuidV toAdminName))
                 johnUser "admin");
      try reflexivity; try discriminate.
    exists adminUser. split; [left; reflexivity | reflexivity].
Defined.

(** X4.  When the store holds a user under [id] and the update names no
    email and no username but the user's own or ones that no stored user
    has, [updateUser] returns the user with the named fields replaced:
    id and creation date are kept, the update date is the time of the
    call, a field the update does not name is as before.  The user is
    stored in the place of the old one, every other key is as before,
    and [getUser] then returns its public fields. *)
Theorem updateUser_replaces_named_fields
        (st : Store) (now : JS.Date) (id : string)
        (data : UpdateUserInput.t) (u : User.t) :
  Map.get id st = Some u ->
  (forall e, UpdateUserInput.email data = Some e ->
             e = User.email u
             \/ forall v, In v (Map.values st) -> User.email v <> e) ->
  (forall n, UpdateUserInput.username data = Some n ->
             User.username u = Some n
             \/ forall v, In v (Map.values st) ->
                          User.username v <> Some n) ->
  exists u' st',
    updateUser now (UpdateInput.mk id data) st = (Ok u', st')
    /\ User.id u' = User.id u
    /\ User.createdAt u' = User.createdAt u
    /\ User.updatedAt u' = now
    /\ User.email u' = defaulted (UpdateUserInput.email data) (User.email u)
    /\ User.name u' = defaulted (UpdateUserInput.name data) (User.name u)
    /\ (UpdateUserInput.username data = None ->
        User.username u' = User.username u)
    /\ (forall n, UpdateUserInput.username data = Some n ->
                  User.username u' = Some n)
    /\ User.avatar u'
       = defaulted (UpdateUserInput.avatar data) (User.avatar u)
    /\ User.role u' = defaulted (UpdateUserInput.role data) (User.role u)
    /\ User.status u'
       = defaulted (UpdateUserInput.status data) (User.status u)
    /\ Map.get id st' = Some u'
    /\ (forall k, k <> id -> Map.get k st' = Map.get k st)
    /\ Map.keys st' = Map.keys st
    /\ getUser (IdParam.mk (IdString id)) st' = (Ok (publicUser u'), st').
Proof.
  intros Hget Hemail Hname.
  unfold updateUser. rewrite bind_gets. simpl. rewrite Hget, bind_gets.
  assert (He : (if changesEmail data u
                then find (fun v =>
                             (User.email v
                              =? defaulted (UpdateUserInput.email data) "")
                               %string)
                          (Map.values st)
                else None) = None).
  { unfold changesEmail.
    destruct (UpdateUserInput.email data) as [e|]; simpl; [|reflexivity].
    destruct (JS.truthy e); simpl; [|reflexivity].
    destruct (Hemail e eq_refl) as [->|Hfresh].
    - now rewrite String.eqb_refl.
    - destruct (negb _); [|reflexivity]. now apply find_email_none. }
  rewrite He, bind_gets.
  assert (Hn : (if changesUsername data u
                then find (fun v =>
                             has_username
                               v (defaulted (UpdateUserInput.username data)
                                            ""))
                          (Map.values st)
                else None) = None).
  { unfold changesUsername.
    destruct (UpdateUserInput.username data) as [n|]; simpl; [|reflexivity].
    destruct (JS.truthy n); simpl; [|reflexivity].
    destruct (Hname n eq_refl) as [Hown|Hfresh].
    - unfold has_username at 1. rewrite Hown, String.eqb_refl. reflexivity.
    - destruct (negb _); [|reflexivity]. now apply find_username_none. }
  rewrite Hn, bind_modify. simpl.
  eexists. eexists. split; [reflexivity|]. simpl.
  do 5 (split; [reflexivity|]).
  split; [now intros ->|]. split; [now intros n ->|].
  do 3 (split; [reflexivity|]).
  split; [apply get_set_same|].
  split; [intros k Hk; now apply get_set_other|].
  split; [apply keys_set_present; congruence|].
  unfold getUser. rewrite bind_gets. simpl. now rewrite get_set_same.
Qed.

(** On the seeded users: the second user, renamed, with its own email. *)
Lemma updateUser_replaces_named_fields_witness :
  exists u' st',
    updateUser (JS.ValidDate 1700000360000)
               (UpdateInput.mk uuidV renameJohn) seededUsers
    = (Ok u', st')
    /\ User.name u' = "John D"
    /\ User.email u' = "john@example.com"
    /\ User.updatedAt u' = JS.ValidDate 1700000360000
    /\ Map.keys st' = Map.keys seededUsers
    /\ getUser (IdParam.mk (IdString uuidV)) st' = (Ok (publicUser u'), st').
Proof.
  destruct (updateUser_replaces_named_fields
              seededUsers (JS.ValidDate 1700000360000) uuidV renameJohn
              johnUser eq_refl)
    as (u' & st' & Hrun & _ & _ & Hupd & Hemail & Hname & _ & _ & _ & _
        & _ & _ & _ & Hkeys & Hget).
  - intros e [= <-]. now left.
  - intros n [=].
  - exists u', st'. repeat split; assumption.
Defined.

(** X5.  In a consistent store, looking a stored user up by its email
    and looking it up by its id both find that user. *)
Theorem lookups_by_email_and_by_id_agree (st : Store) (u : User.t) :
  consistent st ->
  In u (Map.values st) ->
  getUserByEmail (User.email u) st = (Ok (Some (publicUser u)), st)
  /\ getUser (IdParam.mk (IdString (User.id u))) st
     = (Ok (publicUser u), st).
Proof.
  intros [Hkeys [Hkeyed [Hemails _]]] Hin. split.
  - unfold getUserByEmail. rewrite bind_gets.
    destruct (find _ _) as [v|] eqn:Hfind.
    + apply find_some in Hfind as [Hv Heq]. apply String.eqb_eq in Heq.
      assert (v = u); [|now subst].
      unfold emails in Hemails. clear - Hemails Hv Hin Heq.
      induction (Map.values st) as [|w r IH]; [destruct Hin|].
      simpl in Hemails. inversion Hemails as [|x l Hnotin Hr]; subst.
      destruct Hv as [->|Hv], Hin as [->|Hin]; auto.
      * exfalso. apply Hnotin. rewrite Heq. now apply in_map.
      * exfalso. apply Hnotin. rewrite <- Heq. now apply in_map.
    + apply (find_none _ _ Hfind) in Hin.
      now rewrite String.eqb_refl in Hin.
  - unfold getUser. rewrite bind_gets. simpl.
    apply in_values in Hin as [k Hin].
    assert (Hk : k = User.id u).
    { unfold keyed_by_id in Hkeyed. rewrite Forall_forall in Hkeyed.
      now apply Hkeyed in Hin. }
    subst k. now rewrite (in_get _ _ _ Hkeys Hin).
Qed.

Lemma lookups_by_email_and_by_id_agree_witness :
  getUserByEmail "john@example.com" seededUsers
  = (Ok (Some (publicUser johnUser)), seededUsers)
  /\ getUser (IdParam.mk (IdString uuidV)) seededUsers
     = (Ok (publicUser johnUser), seededUsers).
Proof.
  apply (lookups_by_email_and_by_id_agree seededUsers johnUser).
  - unfold consistent, keys_distinct, keyed_by_id, emails, usernames.
    simpl. repeat split; repeat constructor; simpl;
      try (intros [H|[]]; discriminate); intros [].
  - right. left. reflexivity.
Defined.

End UserUpdates.

(** ** Posts: what every call keeps *)

Section PostRunsFacts.
Import Common PostSchema PostProcedures PostStore PostRuns Fixtures.

Lemma Forall_get {P : Post.t -> Prop} (st : Store) (k : string) (p : Post.t) :
  Forall P (Map.values st) -> Map.get k st = Some p -> P p.
Proof.
  intros Hall Hget. rewrite Forall_forall in Hall.
  apply Hall. now apply (get_values k).
Qed.

Lemma seed_counted_dated uuid1 author1 now1 uuid2 author2 now2 :
  let st := snd (seed uuid1 author1 now1 uuid2 author2 now2 Map.empty) in
  keys_distinct st /\ views_counted st /\ published_dated st.
Proof.
  unfold seed, createMockPost, bind, gets, modify, ret. simpl.
  destruct (String.eqb_spec uuid1 uuid2) as [->|Hne];
    unfold keys_distinct, views_counted, published_dated; simpl;
    repeat split; repeat constructor; simpl;
    try discriminate; try lia; try (intros [H|[]]; congruence); intros [].
Qed.

Lemma call_counted_dated (c : Call) (st : Store) :
  keys_distinct st /\ views_counted st /\ published_dated st ->
  keys_distinct (after c st) /\ views_counted (after c st)
  /\ published_dated (after c st).
Proof.
  intros [Hkeys [Hviews Hdated]].
  destruct c as [input|uuid authorUuid now input|now input
                 |input|now input]; simpl.
  - unfold getPost. rewrite bind_gets.
    destruct (Map.get _ st) as [post|] eqn:Hget; [|now repeat split].
    rewrite !bind_modify. simpl.
    pose proof (Forall_get _ _ _ Hviews Hget) as Hv. simpl in Hv.
    pose proof (Forall_get _ _ _ Hdated Hget) as Hd. simpl in Hd.
    split; [|split].
    + now do 2 apply keys_set_distinct.
    + do 2 (apply Forall_values_set; [|simpl; lia]). exact Hviews.
    + do 2 (apply Forall_values_set; [|exact Hd]). exact Hdated.
  - unfold createPost. rewrite bind_gets.
    destruct (if JS.truthy_opt _ then _ else _); [now repeat split|].
    unfold createMockPost. rewrite bind_modify. simpl.
    split; [|split].
    + now apply keys_set_distinct.
    + apply Forall_values_set; [exact Hviews | simpl; lia].
    + apply Forall_values_set; [exact Hdated|]. simpl.
      destruct (defaulted (CreatePostInput.published input) false);
        [discriminate | intros [=]].
  - unfold updatePost. rewrite bind_gets.
    destruct (Map.get _ st) as [post|] eqn:Hget; [|now repeat split].
    rewrite bind_gets.
    destruct (if changesSlug _ _ then _ else _); [now repeat split|].
    rewrite bind_modify. simpl.
    pose proof (Forall_get _ _ _ Hviews Hget) as Hv. simpl in Hv.
    pose proof (Forall_get _ _ _ Hdated Hget) as Hd. simpl in Hd.
    split; [|split].
    + now apply keys_set_distinct.
    + apply Forall_values_set; [exact Hviews | exact Hv].
    + apply Forall_values_set; [exact Hdated|]. simpl.
      destruct (UpdatePostInput.published (UpdateInput.data input))
        as [[|]|]; simpl.
      * destruct (Post.published post); simpl; [auto | discriminate].
      * discriminate.
      * exact Hd.
  - unfold deletePost. rewrite bind_gets.
    destruct (Map.get _ st) as [post|] eqn:Hget; [|now repeat split].
    rewrite bind_modify. simpl.
    split; [|split].
    + now apply keys_delete_distinct.
    + now apply Forall_values_delete.
    + now apply Forall_values_delete.
  - unfold publishPost. rewrite bind_gets.
    destruct (Map.get _ st) as [post|] eqn:Hget; [|now repeat split].
    rewrite bind_modify. simpl.
    pose proof (Forall_get _ _ _ Hviews Hget) as Hv. simpl in Hv.
    split; [|split].
    + now apply keys_set_distinct.
    + apply Forall_values_set; [exact Hviews | exact Hv].
    + apply Forall_values_set; [exact Hdated|]. simpl.
      destruct (PublishInput.published input); [|discriminate].
      destruct (Post.publishedAt post); discriminate.
Qed.

(** X6.  In every store the post module can be in, no key occurs twice,
    no view counter is negative, and every post with [published] true
    has a publish timestamp. *)
Theorem reachable_posts_are_counted_and_dated (st : Store) :
  reachable st ->
  keys_distinct st /\ views_counted st /\ published_dated st.
Proof.
  induction 1 as [uuid1 author1 now1 uuid2 author2 now2 | c st Hr IH Hacc].
  - apply seed_counted_dated.
  - now apply call_counted_dated.
Qed.

Lemma reachable_posts_are_counted_and_dated_witness :
  let st :=
    after (CallPublish (JS.ValidDate 1700000400000)
                       (PublishInput.mk uuidC true))
          (after (CallGet (IdParam.mk (IdString uuidA))) seededPosts) in
  keys_distinct st /\ views_counted st /\ published_dated st.
Proof.
  apply reachable_posts_are_counted_and_dated.
  apply reachable_call; [|reflexivity].
  apply reachable_call; [|reflexivity].
  apply (reachable_seed uuidA uuidB (JS.ValidDate 1700000000000)
                        uuidC uuidD (JS.ValidDate 1700000000001)).
Defined.

(** X7.  A call of [getPost], [createPost], [updatePost], [deletePost] or
    [publishPost] that throws leaves the store as it was, and what it
    throws is one of two errors. *)
Theorem post_call_that_throws_changes_nothing
        (c : Call) (st : Store) (e : Error) :
  fst (run c st) = Some e ->
  snd (run c st) = st
  /\ In (message e) ["Post not found"; "Slug already exists"].
Proof.
  destruct c as [input|uuid authorUuid now input|now input
                 |input|now input];
    unfold run, outcome; cbn [fst snd].
  - unfold getPost. rewrite bind_gets.
    destruct (Map.get _ st); simpl; [discriminate|].
    intros [= <-]. split; [reflexivity | now left].
  - unfold createPost. rewrite bind_gets.
    destruct (if JS.truthy_opt _ then _ else _); simpl; [|discriminate].
    intros [= <-]. split; [reflexivity | right; now left].
  - unfold updatePost. rewrite bind_gets.
    destruct (Map.get _ st) as [post|]; simpl.
    2:{ intros [= <-]. split; [reflexivity | now left]. }
    rewrite bind_gets.
    destruct (if changesSlug _ _ then _ else _); simpl; [|discriminate].
    intros [= <-]. split; [reflexivity | right; now left].
  - unfold deletePost. rewrite bind_gets.
    destruct (Map.get _ st); simpl; [discriminate|].
    intros [= <-]. split; [reflexivity | now left].
  - unfold publishPost. rewrite bind_gets.
    destruct (Map.get _ st); simpl; [discriminate|].
    intros [= <-]. split; [reflexivity | now left].
Qed.

Lemma post_call_that_throws_changes_nothing_witness :
  snd (run (CallDelete (IdParam.mk (IdNumber 7))) seededPosts) = seededPosts
  /\ In "Post not found" ["Post not found"; "Slug already exists"].
Proof.
  apply (post_call_that_throws_changes_nothing
           (CallDelete (IdParam.mk (IdNumber 7))) seededPosts
           (mkError "Post not found")).
  reflexivity.
Defined.

End PostRunsFacts.

(** ** Posts: slugs under the calls that check them *)

Section SlugsKept.
Import Common PostSchema PostProcedures PostStore PostRuns Fixtures.

Lemma slugs_flat_map (l : list Post.t) :
  map Post.slug l = flat_map (fun p => [Post.slug p]) l.
Proof. induction l as [|p r IH]; simpl; [reflexivity | now rewrite IH]. Qed.

Lemma slugs_unique_set (st : Store) (k : string) (p : Post.t) :
  slugs_unique st ->
  ((exists p0, Map.get k st = Some p0 /\ Post.slug p0 = Post.slug p)
   \/ ~ In (Post.slug p) (map Post.slug (Map.values st))) ->
  slugs_unique (Map.set k p st).
Proof.
  unfold slugs_unique. rewrite !slugs_flat_map. intros Hnd Hslug.
  apply unique_set; [exact Hnd | repeat constructor; intros [] |].
  intros x [<-|[]]. destruct Hslug as [[p0 [Hget Hp0]]|Hfresh].
  - left. exists p0. split; [exact Hget | now left].
  - right. now rewrite <- slugs_flat_map.
Qed.

Lemma find_none_slug_fresh (st : Store) (s : string) :
  find (fun p => (Post.slug p =? s)%string) (Map.values st) = None ->
  ~ In s (map Post.slug (Map.values st)).
Proof.
  intros Hfind Hin. apply in_map_iff in Hin as [p [Hp Hin]].
  apply (find_none _ _ Hfind) in Hin. apply String.eqb_neq in Hin.
  contradiction.
Qed.

Lemma length_between_truthy (lo hi : nat) (s : string) :
  (0 < lo)%nat -> CreatePostInput.length_between lo hi s = true ->
  JS.truthy s = true.
Proof.
  unfold CreatePostInput.length_between. intros Hlo H.
  apply andb_true_iff in H as [H _]. apply Nat.leb_le in H.
  destruct s; [simpl in H; lia | reflexivity].
Qed.

Lemma valid_create_slug_truthy (input : CreatePostInput.t) (s : string) :
  CreatePostInput.valid input = true ->
  CreatePostInput.slug input = Some s -> JS.truthy s = true.
Proof.
  unfold CreatePostInput.valid. intros H Hs. rewrite Hs in H.
  repeat (apply andb_true_iff in H as [H ?]).
  match goal with
  | Hslug : (CreatePostInput.length_between 3 200 s && _) = true |- _ =>
      apply andb_true_iff in Hslug as [Hslug _];
      apply (length_between_truthy 3 200); [lia | exact Hslug]
  end.
Qed.

Lemma valid_update_slug_truthy (data : UpdatePostInput.t) (s : string) :
  UpdatePostInput.valid data = true ->
  UpdatePostInput.slug data = Some s -> JS.truthy s = true.
Proof.
  unfold UpdatePostInput.valid. intros H Hs. rewrite Hs in H.
  repeat (apply andb_true_iff in H as [H ?]).
  match goal with
  | Hslug : (CreatePostInput.length_between 3 200 s && _) = true |- _ =>
      apply andb_true_iff in Hslug as [Hslug _];
      apply (length_between_truthy 3 200); [lia | exact Hslug]
  end.
Qed.

(** X8.  On a store that holds each post under its id and in which no
    two posts have the same slug, every call that passes the input
    schemas, other than a [createPost] that names no slug, leaves a store
    in which no two posts have the same slug. *)
Theorem calls_that_name_their_slug_keep_slugs_unique
        (c : Call) (st : Store) :
  keyed_by_id st ->
  slugs_unique st ->
  validated c = true ->
  names_its_slug c = true ->
  slugs_unique (after c st).
Proof.
  intros Hkeyed Hst Hvalid Hnames.
  destruct c as [input|uuid authorUuid now input|now input
                 |input|now input]; simpl in *.
  - unfold getPost. rewrite bind_gets.
    destruct (Map.get _ st) as [post|] eqn:Hget; [|exact Hst].
    rewrite !bind_modify. simpl.
    rewrite (keyed_get _ _ _ Hkeyed Hget), set_set_same.
    apply slugs_unique_set; [exact Hst|]. left. now exists post.
  - destruct (CreatePostInput.slug input) as [s|] eqn:Hs; [|discriminate].
    unfold createPost. rewrite bind_gets, Hs. simpl.
    rewrite (valid_create_slug_truthy _ _ Hvalid Hs).
    destruct (find _ _) eqn:Hfind; [exact Hst|].
    unfold createMockPost. rewrite bind_modify. simpl.
    apply slugs_unique_set; [exact Hst|]. right. simpl.
    rewrite Hs. unfold JS.or_else. simpl.
    rewrite (valid_create_slug_truthy _ _ Hvalid Hs).
    now apply find_none_slug_fresh.
  - unfold updatePost. rewrite bind_gets.
    destruct (Map.get _ st) as [post|] eqn:Hget; [|exact Hst].
    rewrite bind_gets.
    destruct (if changesSlug _ _ then _ else _) eqn:Hcheck; [exact Hst|].
    rewrite bind_modify. simpl.
    apply slugs_unique_set; [exact Hst|]. simpl.
    unfold changesSlug in Hcheck.
    destruct (UpdatePostInput.slug (UpdateInput.data input)) as [s|] eqn:Hs;
      simpl in *.
    + rewrite (valid_update_slug_truthy _ _ Hvalid Hs) in Hcheck.
      simpl in Hcheck.
      destruct (String.eqb_spec s (Post.slug post)) as [->|Hne];
        simpl in Hcheck.
      * left. now exists post.
      * right. now apply find_none_slug_fresh.
    + left. now exists post.
  - unfold deletePost. rewrite bind_gets.
    destruct (Map.get _ st) as [post|] eqn:Hget; [|exact Hst].
    rewrite bind_modify. simpl.
    unfold slugs_unique in *. rewrite slugs_flat_map in *.
    now apply unique_delete.
  - unfold publishPost. rewrite bind_gets.
    destruct (Map.get _ st) as [post|] eqn:Hget; [|exact Hst].
    rewrite bind_modify. simpl.
    apply slugs_unique_set; [exact Hst|]. left. now exists post.
Qed.

End SlugsKept.

(** ** Posts: updating, publishing, creating and reading again *)

Section PostUpdates.
Import Common PostSchema PostProcedures PostStore PostRuns Fixtures.

(** On the seeded posts: the first post takes a new title and slug. *)
Lemma calls_that_name_their_slug_keep_slugs_unique_witness :
  slugs_unique
    (after (CallUpdate (JS.ValidDate 1700000400000)
                       (UpdateInput.mk uuidA retitle))
           seededPosts).
Proof.
  apply calls_that_name_their_slug_keep_slugs_unique;
    try reflexivity.
  - repeat constructor.
  - unfold slugs_unique. simpl. repeat constructor; simpl.
    + intros [H|[]]. discriminate.
    + intros [].
Defined.

(** X9.  [updatePost] refuses an id the store does not hold and a new
    slug that a stored post has; the store stays as it was. *)
Theorem updatePost_refuses_absent_id_and_taken_slug
        (st : Store) (now : JS.Date) (id : string)
        (data : UpdatePostInput.t) :
  let input := UpdateInput.mk id data in
  (Map.get id st = None ->
   updatePost now input st = (Thrown (mkError "Post not found"), st))
  /\ (forall post s,
         Map.get id st = Some post ->
         UpdatePostInput.slug data = Some s ->
         s <> "" -> s <> Post.slug post ->
         (exists p, In p (Map.values st) /\ Post.slug p = s) ->
         updatePost now input st
         = (Thrown (mkError "Slug already exists"), st)).
Proof.
  intros input. split.
  - intros Hget. unfold updatePost. rewrite bind_gets. simpl.
    now rewrite Hget.
  - intros post s Hget Hs Hne Hown [p [Hin Hp]].
    unfold updatePost. rewrite bind_gets. simpl. rewrite Hget, bind_gets.
    unfold changesSlug. rewrite Hs. simpl. unfold JS.truthy.
    apply String.eqb_neq in Hne, Hown. rewrite Hne, Hown. simpl.
    destruct (find _ _) as [q|] eqn:Hfind; [reflexivity|].
    apply (find_none _ _ Hfind) in Hin. apply String.eqb_neq in Hin.
    contradiction.
Qed.

Lemma updatePost_refuses_absent_id_and_taken_slug_witness :
  let now := JS.ValidDate 1700000400000 in
  updatePost now (UpdateInput.mk uuidE toTakenSlug) seededPosts
  = (Thrown (mkError "Post not found"), seededPosts)
  /\ updatePost now (UpdateInput.mk uuidA toTakenSlug) seededPosts
     = (Thrown (mkError "Slug already exists"), seededPosts).
Proof.
  intros now. split.
  - apply (proj1 (updatePost_refuses_absent_id_and_taken_slug
                    seededPosts now uuidE toTakenSlug)).
    reflexivity.
  - eapply (proj2 (updatePost_refuses_absent_id_and_taken_slug
                     seededPosts now uuidA toTakenSlug));
      try reflexivity; try discriminate.
    eexists. split; [right; left; reflexivity | reflexivity].
Defined.

(** X10.  When the store holds a post under [id] and the update names no
    slug but the post's own or one that no stored post has, [updatePost]
    returns the post with the named fields replaced: id, author, view
    counter and creation date are kept and the update date is the time
    of the call.  The post is stored in the place of the old one and
    every other key is as before. *)
Theorem updatePost_replaces_named_fields
        (st : Store) (now : JS.Date) (id : string)
        (data : UpdatePostInput.t) (post : Post.t) :
  Map.get id st = Some post ->
  (forall s, UpdatePostInput.slug data = Some s ->
             s = Post.slug post
             \/ forall p, In p (Map.values st) -> Post.slug p <> s) ->
  exists p' st',
    updatePost now (UpdateInput.mk id data) st = (Ok p', st')
    /\ Post.id p' = Post.id post
    /\ Post.authorId p' = Post.authorId post
    /\ Post.viewCount p' = Post.viewCount post
    /\ Post.createdAt p' = Post.createdAt post
    /\ Post.updatedAt p' = now
    /\ Post.title p' = defaulted (UpdatePostInput.title data) (Post.title post)
    /\ Post.slug p' = defaulted (UpdatePostInput.slug data) (Post.slug post)
    /\ Post.content p'
       = defaulted (UpdatePostInput.content data) (Post.content post)
    /\ Post.excerpt p'
       = defaulted (UpdatePostInput.excerpt data) (Post.excerpt post)
    /\ Post.status p'
       = defaulted (UpdatePostInput.status data) (Post.status post)
    /\ Post.category p'
       = defaulted (UpdatePostInput.category data) (Post.category post)
    /\ Post.tags p' = defaulted (UpdatePostInput.tags data) (Post.tags post)
    /\ Post.featuredImage p'
       = defaulted (UpdatePostInput.featuredImage data)
                   (Post.featuredImage post)
    /\ Post.published p'
       = defaulted (UpdatePostInput.published data) (Post.published post)
    /\ Map.get id st' = Some p'
    /\ (forall k, k <> id -> Map.get k st' = Map.get k st)
    /\ Map.keys st' = Map.keys st.
Proof.
  intros Hget Hslug.
  unfold updatePost. rewrite bind_gets. simpl. rewrite Hget, bind_gets.
  assert (Hs : (if changesSlug data post
                then find (fun p =>
                             (Post.slug p
                              =? defaulted (UpdatePostInput.slug data) "")
                               %string)
                          (Map.values st)
                else None) = None).
  { unfold changesSlug.
    destruct (UpdatePostInput.slug data) as [s|]; simpl; [|reflexivity].
    destruct (JS.truthy s); simpl; [|reflexivity].
    destruct (Hslug s eq_refl) as [->|Hfresh].
    - now rewrite String.eqb_refl.
    - destruct (negb _); [|reflexivity].
      destruct (find _ _) as [q|] eqn:Hfind; [|reflexivity].
      apply find_some in Hfind as [Hq Heq]. apply String.eqb_eq in Heq.
      now apply Hfresh in Hq. }
  rewrite Hs, bind_modify. simpl.
  eexists. eexists. split; [reflexivity|]. simpl.
  do 14 (split; [reflexivity|]).
  split; [apply get_set_same|].
  split; [intros k Hk; now apply get_set_other|].
  apply keys_set_present. congruence.
Qed.

Lemma updatePost_replaces_named_fields_witness :
  exists p' st',
    updatePost (JS.ValidDate 1700000400000) (UpdateInput.mk uuidA retitle)
               seededPosts
    = (Ok p', st')
    /\ Post.title p' = "ORPC in Short"
    /\ Post.slug p' = "orpc-in-short"
    /\ Post.content p' = "ORPC is a powerful RPC framework for TypeScript..."
    /\ Post.updatedAt p' = JS.ValidDate 1700000400000
    /\ Map.keys st' = Map.keys seededPosts.
Proof.
  edestruct (updatePost_replaces_named_fields
               seededPosts (JS.ValidDate 1700000400000) uuidA retitle)
    as (p' & st' & Hrun & _ & _ & _ & _ & Hupd & Htitle & Hslug & Hcontent
        & _ & _ & _ & _ & _ & _ & _ & _ & Hkeys).
  - reflexivity.
  - intros s [= <-]. right. intros p [<-|[<-|[]]]; discriminate.
  - exists p', st'. repeat split; assumption.
Defined.

(** X11.  To publish again a post that was published before and is not
    any more: [publishPost] keeps the old publish timestamp and sets the
    status to published, [updatePost] with [published: true] replaces the
    timestamp by the time of the call and leaves the status alone; and
    [publishPost] with [published: false] keeps the timestamp and makes
    the post a draft. *)
Theorem republishing_keeps_or_replaces_the_timestamp
        (st : Store) (id : string) (post : Post.t) (before now : JS.Date) :
  Map.get id st = Some post ->
  Post.published post = false ->
  Post.publishedAt post = Some before ->
  (exists p st',
      publishPost now (PublishInput.mk id true) st = (Ok p, st')
      /\ Post.published p = true
      /\ Post.publishedAt p = Some before
      /\ Post.status p = PostSchema.published)
  /\ (exists p st',
         updatePost now (UpdateInput.mk id UpdatePostInput.publish) st
         = (Ok p, st')
         /\ Post.published p = true
         /\ Post.publishedAt p = Some now
         /\ Post.status p = Post.status post)
  /\ (exists p st',
         publishPost now (PublishInput.mk id false) st = (Ok p, st')
         /\ Post.published p = false
         /\ Post.publishedAt p = Some before
         /\ Post.status p = draft).
Proof.
  intros Hget Hunpub Hat. split; [|split].
  - unfold publishPost. rewrite bind_gets. simpl.
    rewrite Hget, bind_modify. simpl. rewrite Hat.
    eexists. eexists. repeat split.
  - unfold updatePost. rewrite bind_gets. simpl.
    rewrite Hget, bind_gets. simpl. rewrite bind_modify. simpl.
    rewrite Hunpub. simpl.
    eexists. eexists. repeat split.
  - unfold publishPost. rewrite bind_gets. simpl.
    rewrite Hget, bind_modify. simpl.
    eexists. eexists. split; [reflexivity|]. simpl. now repeat split.
Qed.

Lemma republishing_keeps_or_replaces_the_timestamp_witness :
  let now := JS.ValidDate 1700000400000 in
  (exists p st',
      publishPost now (PublishInput.mk uuidE true) unpublishedPosts
      = (Ok p, st')
      /\ Post.publishedAt p = Some (JS.ValidDate 1700000150000)
      /\ Post.status p = PostSchema.published)
  /\ (exists p st',
         updatePost now (UpdateInput.mk uuidE UpdatePostInput.publish)
                    unpublishedPosts
         = (Ok p, st')
         /\ Post.publishedAt p = Some now
         /\ Post.status p = archived).
Proof.
  intros now.
  destruct (republishing_keeps_or_replaces_the_timestamp
              unpublishedPosts uuidE unpublishedPost
              (JS.ValidDate 1700000150000) now eq_refl eq_refl eq_refl)
    as [(p & st' & Hrun & _ & Hat & Hstatus)
          [(q & st'' & Hrun' & _ & Hat' & Hstatus') _]].
  split.
  - exists p, st'. repeat split; assumption.
  - exists q, st''. repeat split; assumption.
Defined.

End PostUpdates.

(** ** Posts: reading again and again, creating and deleting *)

Section PostRoundTrips.
Import Common PostSchema PostProcedures PostStore PostRuns Fixtures.

Lemma getPost_store (st : Store) (input : IdParam.t) (post : Post.t) :
  keyed_by_id st ->
  Map.get (String_ (IdParam.id input)) st = Some post ->
  snd (getPost input st)
  = Map.set (String_ (IdParam.id input))
            (with_viewCount post (Post.viewCount post + 1)) st.
Proof.
  intros Hkeyed Hget. unfold getPost. rewrite bind_gets, Hget.
  rewrite !bind_modify. simpl.
  now rewrite (keyed_get _ _ _ Hkeyed Hget), set_set_same.
Qed.

(** X12.  On a store that holds each post under its id, [n] calls of
    [getPost] for a stored post leave a post whose view counter is
    greater by [n] and whose other fields are as before; the keys of the
    store and every other post are as before. *)
Theorem getPost_times_counts_each_call
        (n : nat) (st : Store) (input : IdParam.t) (post : Post.t) :
  keyed_by_id st ->
  let key := String_ (IdParam.id input) in
  Map.get key st = Some post ->
  let st' := getPost_times n input st in
  Map.get key st'
  = Some (with_viewCount post (Post.viewCount post + Z.of_nat n))
  /\ (forall k, k <> key -> Map.get k st' = Map.get k st)
  /\ Map.keys st' = Map.keys st.
Proof.
  intros Hkeyed key. revert st post Hkeyed.
  induction n as [|n IH]; intros st post Hkeyed Hget st'.
  - subst st'. simpl. rewrite Z.add_0_r. destruct post. simpl.
    repeat split. exact Hget.
  - subst st'. simpl. rewrite (getPost_store _ _ _ Hkeyed Hget). fold key.
    set (post1 := with_viewCount post (Post.viewCount post + 1)).
    assert (Hkeyed1 : keyed_by_id (Map.set key post1 st)).
    { apply keyed_set; [exact Hkeyed|]. simpl.
      now apply (keyed_get st). }
    destruct (IH (Map.set key post1 st) post1 Hkeyed1 (get_set_same _ _ _))
      as [Hcount [Hother Hkeys]].
    split; [|split].
    + rewrite Hcount. unfold post1, with_viewCount. simpl.
      do 2 f_equal. lia.
    + intros k Hk. rewrite (Hother k Hk). now apply get_set_other.
    + rewrite Hkeys. apply keys_set_present. congruence.
Qed.

Lemma getPost_times_counts_each_call_witness :
  Map.get uuidE (getPost_times 3 (IdParam.mk (IdString uuidE)) draftPosts)
  = Some (with_viewCount draftPost 3).
Proof.
  apply (getPost_times_counts_each_call
           3 draftPosts (IdParam.mk (IdString uuidE)) draftPost).
  - repeat constructor.
  - reflexivity.
Defined.

(** X13.  A post that [createPost] returned can be read with [getPost]
    under its id, which counts its first view; and when the id was new
    to the store, [deletePost] of it gives back the store as it was
    before the creation. *)
Theorem created_post_can_be_read_and_deleted
        (st st1 : Store) (uuid authorUuid : string) (now : JS.Date)
        (input : CreatePostInput.t) (p : Post.t) :
  createPost uuid authorUuid now input st = (Ok p, st1) ->
  let id := IdParam.mk (IdString (Post.id p)) in
  Post.id p = uuid
  /\ Post.authorId p = authorUuid
  /\ Post.createdAt p = now
  /\ (exists st2,
         getPost id st1 = (Ok (publicPost p), st2)
         /\ Map.get uuid st2 = Some (with_viewCount p 1))
  /\ (Map.get uuid st = None ->
      deletePost id st1 = (Ok (Ack.mk true), st)).
Proof.
  unfold createPost. rewrite bind_gets.
  destruct (if JS.truthy_opt _ then _ else _); [discriminate|].
  unfold createMockPost. rewrite bind_modify. simpl.
  intros [= <- <-]. simpl.
  split; [reflexivity|]. split; [reflexivity|]. split; [reflexivity|].
  split.
  - unfold getPost. rewrite bind_gets. simpl. rewrite get_set_same.
    rewrite !bind_modify. simpl.
    eexists. split; [reflexivity|]. apply get_set_same.
  - intros Hfresh. unfold deletePost. rewrite bind_gets. simpl.
    rewrite get_set_same, bind_modify. simpl.
    now rewrite (delete_set_absent _ _ _ Hfresh).
Qed.

Lemma created_post_can_be_read_and_deleted_witness :
  exists p st1,
    createPost uuidE uuidF (JS.ValidDate 1700000100000) helloWorld
               seededPosts = (Ok p, st1)
    /\ Post.id p = uuidE
    /\ deletePost (IdParam.mk (IdString uuidE)) st1
       = (Ok (Ack.mk true), seededPosts).
Proof.
  eexists. eexists. split; [reflexivity|].
  edestruct (created_post_can_be_read_and_deleted
               seededPosts _ uuidE uuidF (JS.ValidDate 1700000100000)
               helloWorld _ eq_refl)
    as (Hid & _ & _ & _ & Hdelete).
  split; [exact Hid | exact (Hdelete eq_refl)].
Defined.

(** X14.  [createPost] with a custom slug is refused exactly when a
    stored post has that slug: it throws and leaves the store as it was
    when one has, and it creates a post with that slug when none has. *)
Theorem createPost_checks_a_custom_slug
        (st : Store) (uuid authorUuid : string) (now : JS.Date)
        (input : CreatePostInput.t) (s : string) :
  CreatePostInput.slug input = Some s ->
  s <> "" ->
  ((exists p, In p (Map.values st) /\ Post.slug p = s) ->
   createPost uuid authorUuid now input st
   = (Thrown (mkError "Slug already exists"), st))
  /\ ((forall p, In p (Map.values st) -> Post.slug p <> s) ->
      exists p st',
        createPost uuid authorUuid now input st = (Ok p, st')
        /\ Post.slug p = s
        /\ Map.get uuid st' = Some p).
Proof.
  intros Hs Hne. split.
  - now apply createPost_custom_slug_taken.
  - intros Hfresh. unfold createPost. rewrite bind_gets, Hs. simpl.
    unfold JS.truthy. apply String.eqb_neq in Hne. rewrite Hne. simpl.
    destruct (find _ _) as [q|] eqn:Hfind.
    + apply find_some in Hfind as [Hq Heq]. apply String.eqb_eq in Heq.
      now apply Hfresh in Hq.
    + unfold createMockPost. rewrite bind_modify. simpl.
      eexists. eexists. split; [reflexivity|]. simpl. split.
      * rewrite Hs. unfold JS.or_else, JS.truthy_opt, JS.truthy.
        now rewrite Hne.
      * apply get_set_same.
Qed.

Lemma createPost_checks_a_custom_slug_witness :
  createPost uuidE uuidF (JS.ValidDate 1700000100000) withTakenSlug
             seededPosts
  = (Thrown (mkError "Slug already exists"), seededPosts)
  /\ exists p st',
      createPost uuidE uuidF (JS.ValidDate 1700000100000) withOwnSlug
                 seededPosts = (Ok p, st')
      /\ Post.slug p = "hello-again"
      /\ Map.get uuidE st' = Some p.
Proof.
  split.
  - eapply (proj1 (createPost_checks_a_custom_slug
                     seededPosts uuidE uuidF (JS.ValidDate 1700000100000)
                     withTakenSlug "getting-started-with-orpc"
                     eq_refl _)).
    eexists. split; [left; reflexivity | reflexivity].
  - eapply (proj2 (createPost_checks_a_custom_slug
                     seededPosts uuidE uuidF (JS.ValidDate 1700000100000)
                     withOwnSlug "hello-again" eq_refl _)).
    intros p [<-|[<-|[]]]; discriminate.
  Unshelve. all: discriminate.
Defined.

End PostRoundTrips.

(** ** Posts: statistics *)

Section Stats.
Import Common PostSchema PostProcedures PostStore PostRuns FilterSpec Fixtures.
Import PostStats.

Variable engine : JS.ArraySort.
Hypothesis engine_rearranges : JS.rearranges engine.
Variable StringToNumber : string -> JS.Number.

Lemma fold_views_from (l : list Post.t) (a : Z) :
  fold_left (fun sum p => sum + Post.viewCount p) l a = a + sumViews l.
Proof.
  unfold sumViews. revert a. induction l as [|p r IH]; intros a; simpl.
  - lia.
  - rewrite IH, (IH (Post.viewCount p)). lia.
Qed.

Lemma sumViews_cons (p : Post.t) (l : list Post.t) :
  sumViews (p :: l) = Post.viewCount p + sumViews l.
Proof. unfold sumViews at 1. simpl. now rewrite fold_views_from. Qed.

Lemma sumViews_app (a b : list Post.t) :
  sumViews (a ++ b) = sumViews a + sumViews b.
Proof.
  induction a as [|p r IH]; simpl; [reflexivity|].
  rewrite !sumViews_cons, IH. lia.
Qed.

Lemma sumViews_nonneg (l : list Post.t) :
  Forall (fun p => 0 <= Post.viewCount p) l -> 0 <= sumViews l.
Proof.
  induction 1 as [|p r Hp Hr IH]; [reflexivity|].
  rewrite sumViews_cons. lia.
Qed.

Lemma Forall_filter_sub {A : Type} (P : A -> Prop) (f : A -> bool)
      (l : list A) :
  Forall P l -> Forall P (filter f l).
Proof.
  rewrite !Forall_forall. intros H x Hx.
  apply filter_In in Hx as [Hx _]. now apply H.
Qed.

(** The posts that [getPostStats] looks at. *)
Lemma getPostStats_run (authorId : option string) (st : Store) :
  let posts := filter (counted authorId) (Map.values st) in
  let totalPosts := Z.of_nat (List.length posts) in
  getPostStats authorId st
  = (Ok (mk totalPosts
            (Z.of_nat (List.length (filter Post.published posts)))
            (Z.of_nat
               (List.length
                  (filter (fun p => PostStatus_eqb (Post.status p) draft)
                          posts)))
            (sumViews posts)
            (if 0 <? totalPosts
             then (inject_Z (sumViews posts) / inject_Z totalPosts)%Q
             else 0%Q)),
     st).
Proof.
  unfold getPostStats, counted. rewrite bind_gets.
  destruct (JS.truthy_opt authorId); simpl.
  - reflexivity.
  - assert (H : filter (fun _ : Post.t => true) (Map.values st)
                = Map.values st).
    { induction (Map.values st) as [|p r IH]; simpl;
        [reflexivity | now rewrite IH]. }
    now rewrite H.
Qed.

(** X15.  [getPostStats] returns on every store and leaves it as it was.
    The posts it counts are at most those of the store, among them the
    published ones and the drafts are at most that many, and on a store
    without negative counters the views add up to a number that is not
    negative; when it counts no post, the views and the average are 0. *)
Theorem getPostStats_counts_within_the_total
        (authorId : option string) (st : Store) :
  views_counted st ->
  exists stats,
    getPostStats authorId st = (Ok stats, st)
    /\ 0 <= totalPosts stats <= Map.size st
    /\ 0 <= publishedPosts stats <= totalPosts stats
    /\ 0 <= draftPosts stats <= totalPosts stats
    /\ 0 <= totalViews stats
    /\ (totalPosts stats = 0 ->
        totalViews stats = 0 /\ averageViewsPerPost stats = 0%Q).
Proof.
  intros Hviews. rewrite getPostStats_run.
  eexists. split; [reflexivity|].
  cbn [totalPosts publishedPosts draftPosts totalViews averageViewsPerPost].
  set (posts := filter (counted authorId) (Map.values st)).
  pose proof (filter_length_le (counted authorId) (Map.values st)) as H1.
  pose proof (filter_length_le Post.published posts) as H2.
  pose proof (filter_length_le
                (fun p => PostStatus_eqb (Post.status p) draft) posts) as H3.
  fold posts in H1. unfold Map.size.
  assert (Hlen : List.length (Map.values st) = List.length st)
    by apply length_map.
  split; [lia|]. split; [lia|]. split; [lia|].
  split.
  - apply sumViews_nonneg. now apply Forall_filter_sub.
  - intros Hzero. destruct posts as [|p r]; [|simpl in Hzero; lia].
    split; reflexivity.
Qed.

Lemma getPostStats_counts_within_the_total_witness :
  exists stats,
    getPostStats (Some uuidB) seededPosts = (Ok stats, seededPosts)
    /\ totalPosts stats = 1
    /\ publishedPosts stats = 1
    /\ draftPosts stats = 1
    /\ totalViews stats = 0.
Proof.
  destruct (getPostStats_counts_within_the_total (Some uuidB) seededPosts)
    as (stats & Hrun & _).
  - repeat constructor; simpl; lia.
  - exists stats. split; [exact Hrun|].
    injection Hrun as <-. repeat split.
Defined.

Lemma filter_counted (authorId : option string) (l : list Post.t) :
  (if JS.truthy_opt authorId
   then filter (fun p => (Post.authorId p =? defaulted authorId "")%string) l
   else l)
  = filter (counted authorId) l.
Proof.
  unfold counted. destruct (JS.truthy_opt authorId); simpl; [reflexivity|].
  induction l as [|p r IH]; simpl; [reflexivity | now rewrite <- IH].
Qed.

Lemma applyFilters_by_author (authorId : option string)
      (published : option bool) (status : option PostStatus)
      (l : list Post.t) :
  let by_status :=
    match status with
    | Some s =>
        filter (fun p => PostStatus_eqb (Post.status p) s)
               (filter (counted authorId) l)
    | None => filter (counted authorId) l
    end in
  applyFilters (by_author authorId published status) l
  = match published with
    | Some b => filter (fun p => Bool.eqb (Post.published p) b) by_status
    | None => by_status
    end.
Proof.
  unfold applyFilters, by_author. simpl. rewrite filter_counted.
  destruct status, published; reflexivity.
Qed.

(** X16.  The counts of [getPostStats] for an author are the totals that
    [listPosts] returns with the matching filters: the author alone, the
    author and [published: true], the author and [status: draft]. *)
Theorem getPostStats_agrees_with_listPosts
        (authorId : option string)
        (pagination : option PaginationInput.t) (st : Store) :
  let listed published status :=
    PostProcedures.listPosts
      engine StringToNumber
      (PostProcedures.ListInput.mk
         pagination (Some (by_author authorId published status)))
      st in
  exists stats all live drafts,
    getPostStats authorId st = (Ok stats, st)
    /\ listed None None = (Ok all, st)
    /\ listed (Some true) None = (Ok live, st)
    /\ listed None (Some draft) = (Ok drafts, st)
    /\ totalPosts stats = PaginationOutput.total all
    /\ publishedPosts stats = PaginationOutput.total live
    /\ draftPosts stats = PaginationOutput.total drafts.
Proof.
  intros listed. unfold listed.
  rewrite getPostStats_run, !listPosts_run.
  do 4 eexists. do 4 (split; [reflexivity|]).
  cbn [totalPosts publishedPosts draftPosts PaginationOutput.total].
  rewrite !(Array_sort_length engine engine_rearranges). cbn [defaulted].
  rewrite !applyFilters_by_author. cbv zeta.
  split; [reflexivity|]. split; [|reflexivity].
  do 2 f_equal. apply filter_ext. intros p.
  now destruct (Post.published p).
Qed.

(** X17.  On a store that holds each post under its id, a [getPost] that
    finds its post adds one view to the statistics that count that post
    and none to the others, and leaves the numbers of posts, of
    published posts and of drafts as they were. *)
Theorem getPost_adds_one_view_to_the_statistics
        (authorId : option string) (input : IdParam.t) (st : Store)
        (post : Post.t) :
  keyed_by_id st ->
  Map.get (String_ (IdParam.id input)) st = Some post ->
  exists before after_,
    getPostStats authorId st = (Ok before, st)
    /\ getPostStats authorId (snd (getPost input st))
       = (Ok after_, snd (getPost input st))
    /\ totalViews after_
       = totalViews before + (if counted authorId post then 1 else 0)
    /\ totalPosts after_ = totalPosts before
    /\ publishedPosts after_ = publishedPosts before
    /\ draftPosts after_ = draftPosts before.
Proof.
  intros Hkeyed Hget. rewrite (getPost_store _ _ _ Hkeyed Hget).
  rewrite !getPostStats_run. do 2 eexists.
  do 2 (split; [reflexivity|]).
  cbn [totalPosts publishedPosts draftPosts totalViews].
  set (post1 := with_viewCount post (Post.viewCount post + 1)).
  destruct (set_present _ post1 _ _ Hget) as (m1 & m2 & Hst & _ & Hset).
  rewrite Hset, Hst. unfold Map.values.
  rewrite !map_app, !filter_app. simpl.
  change (counted authorId post1) with (counted authorId post).
  destruct (counted authorId post); simpl.
  - rewrite !sumViews_app, !sumViews_cons. simpl.
    destruct (Post.published post), (PostStatus_eqb (Post.status post) draft);
      rewrite !length_app; simpl; repeat split; lia.
  - rewrite Z.add_0_r. now repeat split.
Qed.

End Stats.

Section StatsRuns.
Import Common PostSchema PostProcedures PostStore PostRuns FilterSpec Fixtures.
Import PostStats.

(** On the seeded posts, after the first one was read once. *)
Lemma getPost_adds_one_view_to_the_statistics_witness :
  exists before after_,
    getPostStats None seededPosts = (Ok before, seededPosts)
    /\ getPostStats
         None (snd (getPost (IdParam.mk (IdString uuidA)) seededPosts))
       = (Ok after_,
          snd (getPost (IdParam.mk (IdString uuidA)) seededPosts))
    /\ totalViews before = 0
    /\ totalViews after_ = 1
    /\ totalPosts after_ = 2.
Proof.
  edestruct (getPost_adds_one_view_to_the_statistics
               None (IdParam.mk (IdString uuidA)) seededPosts)
    as (before & after_ & Hb & Ha & Hviews & Hposts & _).
  - repeat constructor.
  - reflexivity.
  - exists before, after_. split; [exact Hb|]. split; [exact Ha|].
    injection Hb as <-. rewrite Hviews, Hposts. repeat split.
Defined.

(** On the seeded posts, all authors together: two posts, one of them
    published, both with the status of a draft. *)
Lemma getPostStats_agrees_with_listPosts_witness :
  let listed published status :=
    PostProcedures.listPosts
      JS.insertion_sort noNumericStrings
      (PostProcedures.ListInput.mk
         None (Some (by_author None published status)))
      seededPosts in
  exists stats all live drafts,
    getPostStats None seededPosts = (Ok stats, seededPosts)
    /\ listed None None = (Ok all, seededPosts)
    /\ listed (Some true) None = (Ok live, seededPosts)
    /\ listed None (Some draft) = (Ok drafts, seededPosts)
    /\ (totalPosts stats = 2 /\ PaginationOutput.total all = 2)
    /\ (publishedPosts stats = 1 /\ PaginationOutput.total live = 1)
    /\ (draftPosts stats = 2 /\ PaginationOutput.total drafts = 2).
Proof.
  intros listed.
  destruct (getPostStats_agrees_with_listPosts
              JS.insertion_sort insertion_sort_rearranges
              noNumericStrings None None seededPosts)
    as (stats & all & live & drafts & Hs & Ha & Hl & Hd & Et & Ep & Ed).
  exists stats, all, live, drafts.
  split; [exact Hs|]. split; [exact Ha|]. split; [exact Hl|].
  split; [exact Hd|].
  rewrite <- Et, <- Ep, <- Ed. injection Hs as <-. repeat split.
Defined.

End StatsRuns.

(** ** Posts: the shape of a generated slug *)

Section SlugShape.
Import PostSchema PostProcedures SlugFormat.
Import CreatePostInput.

Lemma alnum_facts (c : ascii) :
  isLowerAlnum c = true ->
  slugChar c = true /\ SlugFormat.isHyphen c = false /\ JS.lowerChar c = c.
Proof.
  destruct c as [[] [] [] [] [] [] [] []]; intros H;
    try discriminate H; repeat split.
Qed.

Lemma slugChar_cases (c : ascii) :
  slugChar c = true ->
  JS.lowerChar c = c
  /\ (isLowerAlnum c = true \/ (isLowerAlnum c = false /\ c = "-"%char)).
Proof.
  destruct c as [[] [] [] [] [] [] [] []]; intros H;
    try discriminate H; split; try reflexivity; auto.
Qed.

Lemma replaced_chars (b : bool) (s : string) :
  all_chars slugChar (replaceNonAlnumRuns b s) = true.
Proof.
  revert b. induction s as [|c r IH]; intros b; simpl; [reflexivity|].
  destruct (isLowerAlnum c) eqn:Hc.
  - simpl. rewrite IH. now destruct (alnum_facts c Hc) as [-> _].
  - destruct b; simpl; now rewrite ?IH.
Qed.

Lemma replaced_hyphens (b : bool) (s : string) :
  noDoubleHyphen b (replaceNonAlnumRuns b s) = true.
Proof.
  revert b. induction s as [|c r IH]; intros b; simpl; [reflexivity|].
  destruct (isLowerAlnum c) eqn:Hc.
  - simpl. destruct (alnum_facts c Hc) as [_ [-> _]]. apply IH.
  - destruct b; simpl; [apply IH | now rewrite IH].
Qed.

Lemma noDoubleHyphen_weaken (s : string) :
  noDoubleHyphen true s = true -> noDoubleHyphen false s = true.
Proof.
  destruct s as [|c r]; simpl; [reflexivity|].
  destruct (SlugFormat.isHyphen c); [discriminate | auto].
Qed.

Lemma stripLeading_shape (s : string) :
  all_chars slugChar s = true ->
  noDoubleHyphen false s = true ->
  all_chars slugChar (stripLeadingHyphens s) = true
  /\ noDoubleHyphen false (stripLeadingHyphens s) = true
  /\ startsWithHyphen (stripLeadingHyphens s) = false.
Proof.
  induction s as [|c r IH]; simpl; [auto|].
  intros Hchars Hdouble. apply andb_true_iff in Hchars as [Hc Hr].
  unfold PostProcedures.isHyphen. fold (SlugFormat.isHyphen c) in *.
  destruct (SlugFormat.isHyphen c) eqn:Hh.
  - simpl in Hdouble. apply IH; [exact Hr|].
    now apply noDoubleHyphen_weaken.
  - simpl. rewrite Hc, Hr, Hh. auto.
Qed.

Lemma stripTrailing_shape (s : string) :
  all_chars slugChar s = true ->
  all_chars slugChar (stripTrailingHyphens s) = true
  /\ (forall b, noDoubleHyphen b s = true ->
                noDoubleHyphen b (stripTrailingHyphens s) = true)
  /\ (startsWithHyphen s = false ->
      startsWithHyphen (stripTrailingHyphens s) = false)
  /\ endsWithHyphen (stripTrailingHyphens s) = false.
Proof.
  induction s as [|c r IH]; simpl; [auto|].
  intros Hchars. apply andb_true_iff in Hchars as [Hc Hr].
  destruct (IH Hr) as [IHc [IHd [_ IHe]]].
  unfold PostProcedures.isHyphen. fold (SlugFormat.isHyphen c).
  destruct (stripTrailingHyphens r) as [|c' r'] eqn:Hs.
  - destruct (SlugFormat.isHyphen c) eqn:Hh; simpl.
    + repeat split; auto.
    + rewrite Hc, Hh. repeat split; auto.
  - split; [|split; [|split]].
    + simpl. simpl in IHc. now rewrite Hc, IHc.
    + intros b. simpl. destruct (SlugFormat.isHyphen c).
      * intros H. apply andb_true_iff in H as [-> H]. simpl.
        now apply (IHd true).
      * apply (IHd false).
    + auto.
    + exact IHe.
Qed.

Lemma generateSlug_wellFormed (title : string) :
  wellFormed (generateSlug title) = true.
Proof.
  unfold generateSlug, wellFormed.
  set (r := replaceNonAlnumRuns false (JS.toLowerCase title)).
  destruct (stripLeading_shape r (replaced_chars _ _)
                               (replaced_hyphens false _))
    as [Hc [Hd Hs]].
  destruct (stripTrailing_shape (stripLeadingHyphens r) Hc)
    as [Hc' [Hd' [Hs' He']]].
  now rewrite Hc', (Hd' false Hd), (Hs' Hs), He'.
Qed.

Lemma toLowerCase_fixed (s : string) :
  all_chars slugChar s = true -> JS.toLowerCase s = s.
Proof.
  induction s as [|c r IH]; simpl; [reflexivity|].
  intros H. apply andb_true_iff in H as [Hc Hr].
  destruct (slugChar_cases c Hc) as [-> _]. now rewrite IH.
Qed.

Lemma replace_fixed (b : bool) (s : string) :
  all_chars slugChar s = true ->
  noDoubleHyphen b s = true ->
  replaceNonAlnumRuns b s = s.
Proof.
  revert b. induction s as [|c r IH]; intros b; simpl; [reflexivity|].
  intros H Hd. apply andb_true_iff in H as [Hc Hr].
  destruct (slugChar_cases c Hc) as [_ [Ha|[Ha ->]]]; rewrite Ha.
  - destruct (alnum_facts c Ha) as [_ [Hh _]]. rewrite Hh in Hd.
    now rewrite (IH false Hr Hd).
  - simpl in Hd. destruct b; [discriminate|]. simpl in Hd.
    now rewrite (IH true Hr Hd).
Qed.

Lemma stripLeading_fixed (s : string) :
  startsWithHyphen s = false -> stripLeadingHyphens s = s.
Proof.
  destruct s as [|c r]; simpl; [reflexivity|].
  unfold PostProcedures.isHyphen, SlugFormat.isHyphen. now intros ->.
Qed.

Lemma stripTrailing_fixed (s : string) :
  endsWithHyphen s = false -> stripTrailingHyphens s = s.
Proof.
  induction s as [|c r IH]; simpl; [reflexivity|].
  destruct r as [|c' r'].
  - simpl. unfold PostProcedures.isHyphen, SlugFormat.isHyphen.
    now intros ->.
  - intros H. rewrite (IH H). reflexivity.
Qed.

(** X18.  Whatever the title, the generated slug is made of lower-case
    letters, digits and single hyphens and neither starts nor ends with
    a hyphen; a string of that shape is the slug generated from itself,
    so that generating a slug from a generated slug changes nothing. *)
Theorem generated_slug_is_well_formed_and_stable :
  (forall title, wellFormed (generateSlug title) = true)
  /\ (forall s, wellFormed s = true -> generateSlug s = s)
  /\ (forall title,
         generateSlug (generateSlug title) = generateSlug title).
Proof.
  assert (Hfix : forall s, wellFormed s = true -> generateSlug s = s).
  { intros s H. unfold wellFormed in H.
    repeat (apply andb_true_iff in H as [H ?]).
    match goal with
    | Hs : negb (startsWithHyphen s) = true,
      He : negb (endsWithHyphen s) = true,
      Hd : noDoubleHyphen false s = true |- _ =>
        apply negb_true_iff in Hs, He; unfold generateSlug;
        rewrite (toLowerCase_fixed s H), (replace_fixed false s H Hd),
          (stripLeading_fixed s Hs), (stripTrailing_fixed s He)
    end.
    reflexivity. }
  split; [exact generateSlug_wellFormed|]. split; [exact Hfix|].
  intros title. apply Hfix, generateSlug_wellFormed.
Qed.

Lemma generated_slug_is_well_formed_and_stable_witness :
  generateSlug "type-safe-apis-2" = "type-safe-apis-2".
Proof.
  apply (proj1 (proj2 generated_slug_is_well_formed_and_stable)).
  reflexivity.
Defined.

End SlugShape.

(** ** Listing: what the filters select *)

Section Filters.
Import Common ListOrder FilterSpec Fixtures.
Import PaginationOutput.

Variable engine : JS.ArraySort.
Hypothesis engine_rearranges : JS.rearranges engine.
Variable StringToNumber : string -> JS.Number.

Lemma filter_filter {A : Type} (f g : A -> bool) (l : list A) :
  filter f (filter g l) = filter (fun x => g x && f x) l.
Proof.
  induction l as [|x r IH]; simpl; [reflexivity|].
  destruct (g x); simpl; [|exact IH].
  destruct (f x); now rewrite IH.
Qed.

Lemma cond_filter {A : Type} (c : bool) (f : A -> bool) (l : list A) :
  (if c then filter f l else l) = filter (fun x => negb c || f x) l.
Proof.
  destruct c; simpl; [reflexivity|].
  induction l as [|x r IH]; simpl; [reflexivity | now rewrite <- IH].
Qed.

Lemma opt_filter {A B : Type} (o : option B) (t : B -> A -> bool)
      (l : list A) :
  match o with
  | Some b => filter (t b) l
  | None => l
  end
  = filter (fun x => given o (fun b => t b x)) l.
Proof.
  destruct o; simpl; [reflexivity|].
  induction l as [|x r IH]; simpl; [reflexivity | now rewrite <- IH].
Qed.

Lemma tags_filter (o : option (list string)) (l : list PostSchema.Post.t) :
  match o with
  | Some (tag :: more) =>
      filter (fun p =>
                existsb (fun tag => JS.Array_includes (PostSchema.Post.tags p)
                                                      tag)
                        (tag :: more))
             l
  | _ => l
  end
  = filter (fun p =>
              given o
                    (fun tags =>
                       match tags with
                       | [] => true
                       | _ =>
                           existsb
                             (fun tag =>
                                existsb (fun t => (t =? tag)%string)
                                        (PostSchema.Post.tags p))
                             tags
                       end))
           l.
Proof.
  destruct o as [[|tag more]|]; simpl; try reflexivity;
    induction l as [|x r IH]; simpl; try reflexivity; now rewrite <- IH.
Qed.

Lemma applyFilters_posts_as_filter
      (f : PostSchema.PostFilters.t) (l : list PostSchema.Post.t) :
  PostProcedures.applyFilters f l = filter (post_passes f) l.
Proof.
  unfold PostProcedures.applyFilters. cbv zeta.
  rewrite (opt_filter (PostSchema.PostFilters.publishedBefore f)
                      (fun d p => PostProcedures.publishedAt_le p d)).
  rewrite (opt_filter (PostSchema.PostFilters.publishedAfter f)
                      (fun d p => PostProcedures.publishedAt_ge p d)).
  rewrite (opt_filter (PostSchema.PostFilters.published f)
                      (fun b p => Bool.eqb (PostSchema.Post.published p) b)).
  rewrite tags_filter.
  rewrite (opt_filter (PostSchema.PostFilters.category f)
                      (fun c p =>
                         PostSchema.PostCategory_eqb
                           (PostSchema.Post.category p) c)).
  rewrite (opt_filter (PostSchema.PostFilters.status f)
                      (fun s p =>
                         PostSchema.PostStatus_eqb
                           (PostSchema.Post.status p) s)).
  rewrite !cond_filter, !filter_filter.
  apply filter_ext. intros p. unfold post_passes. cbv beta.
  rewrite !andb_assoc. repeat f_equal.
  - destruct (PostSchema.PostFilters.search f) as [s|]; simpl;
      [|reflexivity].
    destruct (JS.truthy s); simpl; [|reflexivity].
    now destruct (PostSchema.Post.excerpt p).
  - now destruct (PostSchema.PostFilters.authorId f).
Qed.

Lemma applyFilters_users_as_filter
      (f : UserSchema.UserFilters.t) (l : list UserSchema.User.t) :
  UserProcedures.applyFilters f l = filter (user_passes f) l.
Proof.
  unfold UserProcedures.applyFilters. cbv zeta.
  rewrite (opt_filter (UserSchema.UserFilters.createdBefore f)
                      (fun d u => JS.Date_le (UserSchema.User.createdAt u) d)).
  rewrite (opt_filter (UserSchema.UserFilters.createdAfter f)
                      (fun d u => JS.Date_ge (UserSchema.User.createdAt u) d)).
  rewrite (opt_filter (UserSchema.UserFilters.status f)
                      (fun s u =>
                         UserSchema.UserStatus_eqb
                           (UserSchema.User.status u) s)).
  rewrite (opt_filter (UserSchema.UserFilters.role f)
                      (fun r u =>
                         UserSchema.UserRole_eqb (UserSchema.User.role u) r)).
  rewrite !cond_filter, !filter_filter.
  apply filter_ext. intros u. unfold user_passes. cbv beta.
  rewrite !andb_assoc. repeat f_equal.
  destruct (UserSchema.UserFilters.search f) as [s|]; simpl; [|reflexivity].
  destruct (JS.truthy s); simpl; [|reflexivity].
  now destruct (UserSchema.User.username u).
Qed.

Lemma in_slice {A : Type} (x : A) (start end_ : Z) (l : list A) :
  In x (JS.Array_slice start end_ l) -> In x l.
Proof.
  unfold JS.Array_slice. intros H.
  assert (Hs : In x (skipn
                       (Z.to_nat
                          (if start <? 0
                           then Z.max (Z.of_nat (List.length l) + start) 0
                           else Z.min start (Z.of_nat (List.length l))))
                       l)).
  { match type of H with
    | In x (firstn ?n ?r) =>
        rewrite <- (firstn_skipn n r); apply in_or_app; now left
    end. }
  match type of Hs with
  | In x (skipn ?n l) =>
      rewrite <- (firstn_skipn n l); apply in_or_app; now right
  end.
Qed.

(** X19.  The filters of a listing act as one condition: the records
    that [listPosts] and [listUsers] count in [total] are the stored
    ones that meet every filter given, and every record of the page is
    the public view of such a stored record. *)
Theorem listing_selects_the_records_that_pass_every_filter
        (pagination : option PaginationInput.t) :
  (forall (f : PostSchema.PostFilters.t) (st : PostProcedures.Store),
      exists out,
        PostProcedures.listPosts
          engine StringToNumber
          (PostProcedures.ListInput.mk pagination (Some f)) st
        = (Ok out, st)
        /\ total out
           = Z.of_nat (List.length (filter (post_passes f) (Map.values st)))
        /\ forall x, In x (data out) ->
                     exists p, In p (Map.values st)
                               /\ post_passes f p = true
                               /\ x = PostProcedures.publicPost p)
  /\ (forall (f : UserSchema.UserFilters.t) (st : UserProcedures.Store),
         exists out,
           UserProcedures.listUsers
             engine StringToNumber
             (UserProcedures.ListInput.mk pagination (Some f)) st
           = (Ok out, st)
           /\ total out
              = Z.of_nat
                  (List.length (filter (user_passes f) (Map.values st)))
           /\ forall x, In x (data out) ->
                        exists u, In u (Map.values st)
                                  /\ user_passes f u = true
                                  /\ x = UserProcedures.publicUser u).
Proof.
  split; intros f st.
  - rewrite listPosts_run. eexists. split; [reflexivity|].
    cbn [total data defaulted].
    rewrite (Array_sort_length engine engine_rearranges).
    rewrite applyFilters_posts_as_filter. split; [reflexivity|].
    intros x Hx. apply in_map_iff in Hx as [p [<- Hp]].
    apply in_slice in Hp.
    apply (Permutation_in
             _ (Permutation_sym
                  (Array_sort_perm engine engine_rearranges _ _))) in Hp.
    apply filter_In in Hp as [Hin Hpass]. now exists p.
  - rewrite listUsers_run. eexists. split; [reflexivity|].
    cbn [total data defaulted].
    rewrite (Array_sort_length engine engine_rearranges).
    rewrite applyFilters_users_as_filter. split; [reflexivity|].
    intros x Hx. apply in_map_iff in Hx as [u [<- Hu]].
    apply in_slice in Hu.
    apply (Permutation_in
             _ (Permutation_sym
                  (Array_sort_perm engine engine_rearranges _ _))) in Hu.
    apply filter_In in Hu as [Hin Hpass]. now exists u.
Qed.

End Filters.

(** ** Listing: the search text, and walking through the pages *)

Section Paging.
Import Common ListOrder FilterSpec Fixtures.
Import PaginationOutput.

Variable engine : JS.ArraySort.
Hypothesis engine_rearranges : JS.rearranges engine.
Variable StringToNumber : string -> JS.Number.

Lemma truthy_toLowerCase (s : string) :
  JS.truthy (JS.toLowerCase s) = JS.truthy s.
Proof. now destruct s. Qed.

Lemma post_passes_search (f : PostSchema.PostFilters.t) (s1 s2 : string)
      (p : PostSchema.Post.t) :
  JS.toLowerCase s1 = JS.toLowerCase s2 ->
  post_passes (post_search f s1) p = post_passes (post_search f s2) p.
Proof.
  intros H. unfold post_passes, post_search. simpl.
  now rewrite <- (truthy_toLowerCase s1), <- (truthy_toLowerCase s2), H.
Qed.

Lemma user_passes_search (f : UserSchema.UserFilters.t) (s1 s2 : string)
      (u : UserSchema.User.t) :
  JS.toLowerCase s1 = JS.toLowerCase s2 ->
  user_passes (user_search f s1) u = user_passes (user_search f s2) u.
Proof.
  intros H. unfold user_passes, user_search. simpl.
  now rewrite <- (truthy_toLowerCase s1), <- (truthy_toLowerCase s2), H.
Qed.

(** X20.  Two search texts that differ only in the case of their letters
    select the same posts and the same users, whatever the other
    filters. *)
Theorem search_ignores_the_case_of_the_text (s1 s2 : string) :
  JS.toLowerCase s1 = JS.toLowerCase s2 ->
  (forall f l,
      PostProcedures.applyFilters (post_search f s1) l
      = PostProcedures.applyFilters (post_search f s2) l)
  /\ (forall f l,
         UserProcedures.applyFilters (user_search f s1) l
         = UserProcedures.applyFilters (user_search f s2) l).
Proof.
  intros H. split; intros f l.
  - rewrite !applyFilters_posts_as_filter. apply filter_ext.
    intros p. now apply post_passes_search.
  - rewrite !applyFilters_users_as_filter. apply filter_ext.
    intros u. now apply user_passes_search.
Qed.

(** *** Slices as pages *)

Lemma Array_slice_page {A : Type} (start limit : Z) (l : list A) :
  0 <= start -> 0 <= limit ->
  JS.Array_slice start (start + limit) l
  = firstn (Z.to_nat limit) (skipn (Z.to_nat start) l).
Proof.
  intros Hs Hl. unfold JS.Array_slice.
  destruct (Z.ltb_spec start 0) as [?|_]; [lia|].
  destruct (Z.ltb_spec (start + limit) 0) as [?|_]; [lia|].
  destruct (Z.le_gt_cases (Z.of_nat (List.length l)) start) as [Hge|Hlt].
  - rewrite (Z.min_r start) by lia.
    rewrite !skipn_all2 by lia. now rewrite !firstn_nil.
  - rewrite (Z.min_l start) by lia.
    destruct (Z.le_gt_cases (start + limit) (Z.of_nat (List.length l)))
      as [Hin|Hout].
    + rewrite Z.min_l by lia. do 2 f_equal. lia.
    + rewrite Z.min_r by lia.
      rewrite !firstn_all2; [reflexivity | |]; rewrite length_skipn; lia.
Qed.

Lemma firstn_plus {A : Type} (a b : nat) (l : list A) :
  firstn (a + b) l = firstn a l ++ firstn b (skipn a l).
Proof.
  revert l. induction a as [|a IH]; intros l; simpl; [reflexivity|].
  destruct l as [|x r]; simpl.
  - now rewrite firstn_nil.
  - now rewrite IH.
Qed.

(** The first [n] pages of [limit] records, one after the other, are the
    first [n * limit] records. *)
Lemma pages_concat {A : Type} (limit : Z) (l : list A) (n : nat) :
  0 < limit ->
  List.concat (map (fun k =>
                 JS.Array_slice ((Z.of_nat k - 1) * limit)
                                ((Z.of_nat k - 1) * limit + limit) l)
              (seq 1 n))
  = firstn (n * Z.to_nat limit) l.
Proof.
  intros Hl. induction n as [|n IH]; [reflexivity|].
  rewrite seq_S, map_app, concat_app, IH. cbn [map List.concat].
  rewrite app_nil_r.
  replace (Z.of_nat (1 + n) - 1) with (Z.of_nat n) by lia.
  rewrite Array_slice_page by nia.
  rewrite Z2Nat.inj_mul, Nat2Z.id by lia.
  replace (S n * Z.to_nat limit)%nat
    with (n * Z.to_nat limit + Z.to_nat limit)%nat by lia.
  now rewrite firstn_plus.
Qed.

Lemma Math_ceil_div_above (total limit : Z) :
  0 < limit -> (JS.Math_ceil_div total limit - 1) * limit < total.
Proof.
  intros Hl. unfold JS.Math_ceil_div.
  pose proof (Z.div_mod (- total) limit ltac:(lia)) as Hdm.
  pose proof (Z.mod_pos_bound (- total) limit Hl) as Hb.
  nia.
Qed.

Lemma Math_ceil_div_lt (k total limit : Z) :
  0 < limit -> (k < JS.Math_ceil_div total limit <-> k * limit < total).
Proof.
  intros Hl.
  pose proof (Math_ceil_div_above total limit Hl).
  pose proof (Math_ceil_div_covers total limit Hl).
  split; intros; nia.
Qed.

Lemma all_pages {A : Type} (limit : Z) (l : list A) :
  0 < limit ->
  let totalPages :=
    JS.Math_ceil_div (Z.of_nat (List.length l)) limit in
  List.concat (map (fun k =>
                 JS.Array_slice ((Z.of_nat k - 1) * limit)
                                ((Z.of_nat k - 1) * limit + limit) l)
              (seq 1 (Z.to_nat totalPages)))
  = l.
Proof.
  intros Hl totalPages. rewrite pages_concat by exact Hl.
  apply firstn_all2.
  pose proof (Math_ceil_div_covers (Z.of_nat (List.length l)) limit Hl).
  fold totalPages in H.
  assert (0 <= totalPages).
  { destruct (Z.le_gt_cases 0 totalPages); [assumption|]. nia. }
  nia.
Qed.

(** X21.  Walking through the pages [1 .. totalPages] of a listing, with
    the same limit, order and filters, gives the public fields of every
    record that passes the filters, each record once, in the order in
    which the engine's [sort] leaves the filtered records. *)
Theorem pages_of_a_listing_cover_it_once
        (limit : Z) (sortBy : option string) (sortOrder : option SortOrder) :
  1 <= limit <= 100 ->
  let pagination := page_k limit sortBy sortOrder in
  (forall (filters : option PostSchema.PostFilters.t)
          (st : PostProcedures.Store),
      let filtered :=
        PostProcedures.applyFilters
          (defaulted filters PostSchema.PostFilters.none)
          (Map.values st) in
      let page k :=
        PostProcedures.listPosts
          engine StringToNumber
          (PostProcedures.ListInput.mk (pagination k) filters) st in
      exists first sorted,
        page 1%nat = (Ok first, st)
        /\ sorted
           = JS.Array_sort
               engine
               (sortComparator StringToNumber PostSchema.Post.prop
                               (sortBy_of (pagination 1%nat))
                               (sortOrder_of (pagination 1%nat)))
               filtered
        /\ Permutation filtered sorted
        /\ Forall2 PublicView.of_post sorted
                   (List.concat (map (fun k => data_of (page k))
                                     (seq 1 (Z.to_nat (totalPages first))))))
  /\ (forall (filters : option UserSchema.UserFilters.t)
             (st : UserProcedures.Store),
         let filtered :=
           UserProcedures.applyFilters
             (defaulted filters UserSchema.UserFilters.none)
             (Map.values st) in
         let page k :=
           UserProcedures.listUsers
             engine StringToNumber
             (UserProcedures.ListInput.mk (pagination k) filters) st in
         exists first sorted,
           page 1%nat = (Ok first, st)
           /\ sorted
              = JS.Array_sort
                  engine
                  (sortComparator StringToNumber UserSchema.User.prop
                                  (sortBy_of (pagination 1%nat))
                                  (sortOrder_of (pagination 1%nat)))
                  filtered
           /\ Permutation filtered sorted
           /\ Forall2 PublicView.of_user sorted
                      (List.concat
                         (map (fun k => data_of (page k))
                              (seq 1 (Z.to_nat (totalPages first)))))).
Proof.
  intros Hlimit pagination. split; intros filters st filtered page.
  - unfold page. rewrite listPosts_run. do 2 eexists.
    split; [reflexivity|]. split; [reflexivity|].
    split; [apply (Array_sort_perm engine engine_rearranges)|].
    cbn [totalPages].
    set (sorted := JS.Array_sort engine _ _).
    replace (List.concat _) with (map PostProcedures.publicPost sorted).
    + apply Forall2_map_view, publicPost_view.
    + rewrite <- (all_pages limit sorted) at 1 by lia.
      rewrite concat_map, map_map. reflexivity.
  - unfold page. rewrite listUsers_run. do 2 eexists.
    split; [reflexivity|]. split; [reflexivity|].
    split; [apply (Array_sort_perm engine engine_rearranges)|].
    cbn [totalPages].
    set (sorted := JS.Array_sort engine _ _).
    replace (List.concat _) with (map UserProcedures.publicUser sorted).
    + apply Forall2_map_view, publicUser_view.
    + rewrite <- (all_pages limit sorted) at 1 by lia.
      rewrite concat_map, map_map. reflexivity.
Qed.

Lemma nonempty_length {A : Type} (l : list A) :
  l <> [] <-> 0 < Z.of_nat (List.length l).
Proof.
  destruct l; simpl; split; intros H; try lia; congruence.
Qed.

(** The page after page [k] has records exactly when [k] is less than
    the number of pages, and then page [k] is full. *)
Lemma next_page_facts {A B : Type} (f : A -> B) (l : list A)
      (limit : Z) (k : nat) :
  0 < limit -> (1 <= k)%nat ->
  let totalPages := JS.Math_ceil_div (Z.of_nat (List.length l)) limit in
  let page j :=
    map f (JS.Array_slice ((Z.of_nat j - 1) * limit)
                          ((Z.of_nat j - 1) * limit + limit) l) in
  ((Z.of_nat k <? totalPages) = true <-> page (S k) <> [])
  /\ ((Z.of_nat k <? totalPages) = true ->
      Z.of_nat (List.length (page k)) = limit).
Proof.
  intros Hl Hk totalPages page.
  pose proof (Math_ceil_div_lt (Z.of_nat k) (Z.of_nat (List.length l))
                               limit Hl) as Hlt.
  fold totalPages in Hlt. unfold page.
  rewrite nonempty_length, !length_map, !Array_slice_length by nia.
  rewrite Z.ltb_lt, Hlt.
  replace (Z.of_nat (S k) - 1) with (Z.of_nat k) by lia.
  split.
  - destruct (Z.ltb_spec 0 (Z.of_nat (List.length l) - Z.of_nat k * limit));
      lia.
  - intros H.
    destruct (Z.ltb_spec
                0 (Z.of_nat (List.length l) - (Z.of_nat k - 1) * limit));
      nia.
Qed.

(** X22.  For a page [k >= 1] of a listing, [hasNextPage] is true exactly
    when page [k + 1], asked for with the same limit, order and filters,
    has records; and when it is true, page [k] has [limit] records. *)
Theorem hasNextPage_tells_whether_the_next_page_has_records
        (limit : Z) (sortBy : option string) (sortOrder : option SortOrder)
        (k : nat) :
  1 <= limit <= 100 ->
  (1 <= k)%nat ->
  let pagination := page_k limit sortBy sortOrder in
  (forall (filters : option PostSchema.PostFilters.t)
          (st : PostProcedures.Store),
      exists out next,
        PostProcedures.listPosts
          engine StringToNumber
          (PostProcedures.ListInput.mk (pagination k) filters) st
        = (Ok out, st)
        /\ PostProcedures.listPosts
             engine StringToNumber
             (PostProcedures.ListInput.mk (pagination (S k)) filters) st
           = (Ok next, st)
        /\ (hasNextPage out = true <-> data next <> [])
        /\ (hasNextPage out = true ->
            Z.of_nat (List.length (data out)) = limit))
  /\ (forall (filters : option UserSchema.UserFilters.t)
             (st : UserProcedures.Store),
         exists out next,
           UserProcedures.listUsers
             engine StringToNumber
             (UserProcedures.ListInput.mk (pagination k) filters) st
           = (Ok out, st)
           /\ UserProcedures.listUsers
                engine StringToNumber
                (UserProcedures.ListInput.mk (pagination (S k)) filters) st
              = (Ok next, st)
           /\ (hasNextPage out = true <-> data next <> [])
           /\ (hasNextPage out = true ->
               Z.of_nat (List.length (data out)) = limit)).
Proof.
  intros Hlimit Hk pagination. split; intros filters st.
  - rewrite !listPosts_run. do 2 eexists.
    do 2 (split; [reflexivity|]).
    cbn [hasNextPage data].
    apply (next_page_facts PostProcedures.publicPost _ limit k);
      [lia | exact Hk].
  - rewrite !listUsers_run. do 2 eexists.
    do 2 (split; [reflexivity|]).
    cbn [hasNextPage data].
    apply (next_page_facts UserProcedures.publicUser _ limit k);
      [lia | exact Hk].
Qed.

End Paging.

Section PagingRuns.
Import Common ListOrder FilterSpec Fixtures.
Import PaginationOutput.

(** The seeded posts listed with the search text ["orpc"]: the one post
    that has it is counted and shown. *)
Lemma listing_selects_the_records_that_pass_every_filter_witness :
  let f := post_search PostSchema.PostFilters.none "orpc" in
  exists out,
    PostProcedures.listPosts
      JS.insertion_sort noNumericStrings
      (PostProcedures.ListInput.mk None (Some f)) seededPosts
    = (Ok out, seededPosts)
    /\ total out = 1
    /\ map PostSchema.PublicPost.id (data out) = [uuidA]
    /\ forall x, In x (data out) ->
                 exists p, In p (Map.values seededPosts)
                           /\ post_passes f p = true
                           /\ x = PostProcedures.publicPost p.
Proof.
  intros f.
  destruct (proj1 (listing_selects_the_records_that_pass_every_filter
                     JS.insertion_sort insertion_sort_rearranges
                     noNumericStrings None)
                  f seededPosts)
    as (out & Hrun & Htotal & Hdata).
  exists out. split; [exact Hrun|].
  split; [rewrite Htotal; reflexivity|].
  split; [injection Hrun as <-; reflexivity | exact Hdata].
Defined.

(** On the seeded posts: the search texts ["ORPC"] and ["orpc"]. *)
Lemma search_ignores_the_case_of_the_text_witness :
  PostProcedures.applyFilters
    (post_search PostSchema.PostFilters.none "ORPC") (Map.values seededPosts)
  = PostProcedures.applyFilters
      (post_search PostSchema.PostFilters.none "orpc")
      (Map.values seededPosts).
Proof.
  apply (proj1 (search_ignores_the_case_of_the_text "ORPC" "orpc" eq_refl)).
Defined.

(** The two pages of one record of the two posts of [twinPosts], by an
    engine that sorts by insertion. *)
Lemma pages_of_a_listing_cover_it_once_witness :
  let page k :=
    PostProcedures.listPosts
      JS.insertion_sort noNumericStrings
      (PostProcedures.ListInput.mk (page_k 1 None None k) None) twinPosts in
  exists first sorted,
    page 1%nat = (Ok first, twinPosts)
    /\ totalPages first = 2
    /\ Permutation [draftPost; twinPost] sorted
    /\ Forall2 PublicView.of_post sorted
               (data_of (page 1%nat) ++ data_of (page 2%nat)).
Proof.
  intros page.
  destruct (proj1 (pages_of_a_listing_cover_it_once
                     JS.insertion_sort insertion_sort_rearranges
                     noNumericStrings 1 None None ltac:(lia))
                  None twinPosts)
    as (first & sorted & Hrun & _ & Hperm & Hview).
  exists first, sorted. split; [exact Hrun|].
  injection Hrun as <-. split; [reflexivity|]. split; [exact Hperm|].
  exact Hview.
Defined.

(** The first page of one record of [twinPosts] has a next page, the
    second has none. *)
Lemma hasNextPage_tells_whether_the_next_page_has_records_witness :
  exists out next,
    PostProcedures.listPosts
      JS.insertion_sort noNumericStrings
      (PostProcedures.ListInput.mk (page_k 1 None None 1) None) twinPosts
    = (Ok out, twinPosts)
    /\ PostProcedures.listPosts
         JS.insertion_sort noNumericStrings
         (PostProcedures.ListInput.mk (page_k 1 None None 2) None) twinPosts
       = (Ok next, twinPosts)
    /\ hasNextPage out = true
    /\ hasNextPage next = false
    /\ data next <> [].
Proof.
  destruct (proj1 (hasNextPage_tells_whether_the_next_page_has_records
                     JS.insertion_sort noNumericStrings 1 None None 1
                     ltac:(lia) ltac:(lia))
                  None twinPosts)
    as (out & next & Hout & Hnext & Hiff & _).
  exists out, next. split; [exact Hout|]. split; [exact Hnext|].
  injection Hout as <-. split; [reflexivity|].
  split; [injection Hnext as <-; reflexivity|].
  apply Hiff. reflexivity.
Defined.

End PagingRuns.

(* ================================================================== *)
(** ** The retrying [fetch] of the client *)

Section ClientFetch.
Import Client.

Lemma backoff_S (n : nat) :
  backoff (S n) = backoff n ++ [2 ^ Z.of_nat (S n) * 1000].
Proof.
  unfold backoff. rewrite seq_S, map_app. reflexivity.
Qed.

(** From the [a]-th call on, the loop runs through the retryable
    outcomes up to the call [k] at which it stops. *)
Lemma loop_reaches (cfg : FinalConfig.t) (net : Network) (k : nat) :
  FinalConfig.enableRetries cfg = true ->
  Z.of_nat k <= FinalConfig.maxRetries cfg ->
  (retryable (net k) = false \/ Z.of_nat k = FinalConfig.maxRetries cfg) ->
  forall (d a : nat) (lastError : option string) (fuel : nat),
    (a + d = k)%nat ->
    (forall j, (a <= j < k)%nat -> retryable (net j) = true) ->
    (d < fuel)%nat ->
    loop fuel cfg net (Z.of_nat a) lastError (Trace.mk a (backoff a))
    = Some (finish k (net k), Trace.mk (S k) (backoff k)).
Proof.
  intros HE Hk Hfinal d.
  induction d as [|d IH]; intros a lastError fuel Ha Hretry Hfuel.
  - assert (a = k) by lia. subst a.
    destruct fuel as [|fuel]; [lia|].
    cbn [loop]. rewrite HE.
    replace (Z.of_nat k <=? FinalConfig.maxRetries cfg) with true
      by (symmetry; apply Z.leb_le; exact Hk).
    cbn [Trace.attempts].
    destruct (net k) as [status|e] eqn:Hnet; cbn [retryable finish] in *.
    + destruct (ok status); [reflexivity|].
      destruct ((400 <=? status) && (status <? 500)); [reflexivity|].
      destruct Hfinal as [Hf|Hf]; [discriminate|].
      replace (Z.of_nat k <? FinalConfig.maxRetries cfg) with false
        by (symmetry; apply Z.ltb_ge; lia).
      reflexivity.
    + destruct Hfinal as [Hf|Hf]; [discriminate|].
      replace (Z.of_nat k <? FinalConfig.maxRetries cfg) with false
        by (symmetry; apply Z.ltb_ge; lia).
      reflexivity.
  - destruct fuel as [|fuel]; [lia|].
    assert (Hlt : (a < k)%nat) by lia.
    pose proof (Hretry a ltac:(lia)) as Hra.
    cbn [loop]. rewrite HE.
    replace (Z.of_nat a <=? FinalConfig.maxRetries cfg) with true
      by (symmetry; apply Z.leb_le; lia).
    replace (Z.of_nat a <? FinalConfig.maxRetries cfg) with true
      by (symmetry; apply Z.ltb_lt; lia).
    cbn [Trace.attempts andb].
    assert (Hnext : forall le,
               loop fuel cfg net (Z.of_nat a + 1) le
                    (waited (called (Trace.mk a (backoff a)))
                            (Z.of_nat a + 1))
               = Some (finish k (net k), Trace.mk (S k) (backoff k))).
    { intro le.
      unfold waited, called. cbn [Trace.attempts Trace.delays].
      replace (Z.of_nat a + 1) with (Z.of_nat (S a)) by lia.
      rewrite <- backoff_S.
      apply IH; [lia| |lia].
      intros j Hj. apply Hretry. lia. }
    destruct (net a) as [status|e]; cbn [retryable] in Hra.
    + destruct (ok status); [discriminate|].
      destruct ((400 <=? status) && (status <? 500)); [discriminate|].
      apply Hnext.
    + apply Hnext.
Qed.

(** Among the calls [0 .. n] there is a first one at which the loop
    stops. *)
Lemma first_stop (net : Network) (n : nat) :
  exists k,
    (k <= n)%nat
    /\ (forall j, (j < k)%nat -> retryable (net j) = true)
    /\ (retryable (net k) = false \/ k = n).
Proof.
  induction n as [|n (k & Hk & Hbefore & Hstop)].
  - exists 0%nat. split; [lia|]. split; [intros; lia|]. right. reflexivity.
  - destruct (retryable (net k)) eqn:Hr.
    + destruct Hstop as [Hstop|Hstop]; [discriminate|]. subst k.
      exists (S n). split; [lia|]. split; [|right; reflexivity].
      intros j Hj. destruct (Nat.eq_dec j n) as [->|Hne]; [exact Hr|].
      apply Hbefore. lia.
    + exists k. split; [lia|]. split; [exact Hbefore|]. left. exact Hr.
Qed.

(** Without retries the loop makes one call. *)
Lemma loop_without_retries (cfg : FinalConfig.t) (net : Network)
      (fuel : nat) :
  FinalConfig.enableRetries cfg = false ->
  loop (S fuel) cfg net 0 None (Trace.mk 0 [])
  = Some (finish 0 (net 0%nat), Trace.mk 1 []).
Proof.
  intro HE. cbn [loop]. rewrite HE. cbn [Z.leb Z.compare Trace.attempts].
  rewrite andb_false_r.
  destruct (net 0%nat) as [status|e]; cbn [finish].
  - destruct (ok status); [reflexivity|].
    destruct ((400 <=? status) && (status <? 500)); reflexivity.
  - reflexivity.
Qed.


(** X24: with retries enabled, the wrapper calls again after every
    rejection and every response that is neither successful nor a 4xx,
    and stops at the first other outcome or at the call number
    [maxRetries]: the response of that call is returned, or its error
    thrown, after the waits of 2, 4, ... seconds before each retry. *)
Theorem client_fetch_retries_until_a_final_outcome
        (config : ClientConfig.t) (net : Network) (k : nat) :
  let cfg := finalConfig config in
  FinalConfig.enableRetries cfg = true ->
  Z.of_nat k <= FinalConfig.maxRetries cfg ->
  (forall j, (j < k)%nat -> retryable (net j) = true) ->
  (retryable (net k) = false \/ Z.of_nat k = FinalConfig.maxRetries cfg) ->
  fetch config net = Some (finish k (net k), Trace.mk (S k) (backoff k)).
Proof.
  intros cfg HE Hk Hbefore Hstop. unfold fetch. fold cfg.
  apply (loop_reaches cfg net k HE Hk Hstop) with (d := k) (a := 0%nat).
  - reflexivity.
  - intros j Hj. apply Hbefore. lia.
  - lia.
Qed.

End ClientFetch.

Section ClientRuns.
Import Client Fixtures.

(** With the default configuration on [flakyNetwork]: the 503 and the
    rejection are retried, the 404 of the third call is returned. *)
Lemma client_fetch_retries_until_a_final_outcome_witness :
  fetch ClientConfig.none flakyNetwork
  = Some (Returned 2 404, Trace.mk 3 [2000; 4000]).
Proof.
  apply (client_fetch_retries_until_a_final_outcome
           ClientConfig.none flakyNetwork 2).
  - reflexivity.
  - cbn. lia.
  - intros j Hj.
    destruct j as [|[|j]]; [reflexivity|reflexivity|lia].
  - left. reflexivity.
Defined.

End ClientRuns.
